(** * smartSNI: a shallow embedding of [main.go]

    The node answers DNS queries received over DoH and DoT from a
    configured domain-to-address table (forwarding everything else to an
    upstream resolver) and routes raw TLS connections by the server name
    of their ClientHello.

    Layout of the development:
    - Go values and the pieces of Go's standard library that [main.go]
      calls ([strings], [encoding/binary], [net.JoinHostPort], [io],
      [bytes.Buffer], [net.Conn], [sync.WaitGroup], [net/http]);
    - the part of [github.com/miekg/dns] that [processDNSQuery] drives;
    - the functions of [main.go], under their own names:
      [findValueByKeyContains], [processDNSQuery], [handleDoHRequest],
      [handleDoTConnection], [peekClientHello], [readOnlyConn],
      [readClientHello] and [handleConnection] (the listeners, [main]
      and [LoadConfig] only start these and are left out);
    - the properties, and worked examples on concrete traffic.

    Effects are explicit: a connection is a record of what its peer
    sends and of what has been written to it, the upstream resolver and
    the dialler are functions of the request, the order of a [range]
    over the table is an argument, and a call that may never return has
    an [outcome]. *)

From Stdlib Require Import ZArith Lia List Strings.Ascii Strings.String Strings.Byte.
From stdpp Require Import base option list gmap strings.

Import ListNotations.
Local Open Scope string_scope.
Local Open Scope Z_scope.
Local Open Scope list_scope.

(** ** Go values *)

(** A Go [error] value: only its identity and message matter here. *)
Inductive error : Type :=
| errorString (msg : string).

#[global] Instance error_eq_dec : EqDecision error.
Proof. solve_decision. Defined.

(** A Go multi-value return [(T, error)]; a nil error is [None]. *)
Definition result (T : Type) : Type := (T * option error)%type.

(** [[]byte] is [list byte]; a Go [string] is a byte sequence too, kept
    as a Rocq [string] (one [ascii] per byte). *)
Definition byte_to_Z (b : byte) : Z := Z.of_N (Byte.to_N b).

Definition byte_of_Z (z : Z) : byte :=
  match Byte.of_N (Z.to_N (z mod 256)) with
  | Some b => b
  | None => x00
  end.

Definition bytes_of_string (s : string) : list byte := list_byte_of_string s.
Definition string_of_bytes (l : list byte) : string := string_of_list_byte l.

(** Conversion to the fixed-width unsigned types, as Go's [uint16(x)]
    and [uint32(x)] of a non-negative [int]. *)
Definition uint16 (z : Z) : Z := z mod 65536.
Definition uint32 (z : Z) : Z := z mod 4294967296.

(** [len(x)] as an integer. *)
Definition len {A} (l : list A) : Z := Z.of_nat (length l).

(** ** [strings] *)

Module strings.

Definition isUpperASCII (c : ascii) : bool :=
  let n := N_of_ascii c in ((65 <=? n) && (n <=? 90))%N.

(** [c += 'a' - 'A'] for an upper-case ASCII letter. *)
Definition lowerASCII (c : ascii) : ascii :=
  if isUpperASCII c then ascii_of_N (N_of_ascii c + 32) else c.

Fixpoint isASCII (s : string) : bool :=
  match s with
  | EmptyString => true
  | String c s' => (N_of_ascii c <? 128)%N && isASCII s'
  end.

Fixpoint mapASCII (f : ascii -> ascii) (s : string) : string :=
  match s with
  | EmptyString => EmptyString
  | String c s' => String (f c) (mapASCII f s')
  end.

(** [strings.ToLower]: a string of ASCII bytes is lower-cased byte by
    byte; any other string goes through [strings.Map(unicode.ToLower, s)],
    whose Unicode tables are the parameter [unicodeLower]. *)
Definition ToLower (unicodeLower : string -> string) (s : string) : string :=
  if isASCII s then mapASCII lowerASCII s else unicodeLower s.

Fixpoint HasPrefix (s prefix : string) : bool :=
  match prefix, s with
  | EmptyString, _ => true
  | String _ _, EmptyString => false
  | String p prefix', String c s' => if ascii_dec c p then HasPrefix s' prefix' else false
  end.

(** [strings.Contains(s, substr)]: [substr] occurs in [s] at some offset. *)
Fixpoint Contains (s substr : string) : bool :=
  HasPrefix s substr ||
  match s with
  | EmptyString => false
  | String _ s' => Contains s' substr
  end.

End strings.

(** ** The configuration *)

Record Config : Type := mkConfig {
  Host : string;
  Domains : gmap string string
}.

(** ** [findValueByKeyContains] *)

(** A Go [range] over a map yields every entry once, in an order the
    runtime picks afresh: the order [it] is an argument, and [ranges m it]
    says that [it] is one of the orders the runtime may pick for [m]. *)
Definition ranges (m : gmap string string) (it : list (string * string)) : Prop :=
  it ≡ₚ map_to_list m.

Section FindValue.
Variable unicodeLower : string -> string.

Fixpoint findValueByKeyContains (it : list (string * string)) (substr : string)
  : string * bool :=
  match it with
  | [] => ("", false)
  | (key, value) :: it' =>
      if strings.Contains (strings.ToLower unicodeLower substr)
                          (strings.ToLower unicodeLower key)
      then (value, true)
      else findValueByKeyContains it' substr
  end.

(** The match of one key against a queried name. *)
Definition keyMatches (name key : string) : bool :=
  strings.Contains (strings.ToLower unicodeLower name)
                   (strings.ToLower unicodeLower key).

End FindValue.

(** ** [encoding/binary] *)

Module binary.

(** [binary.BigEndian.Uint16(b)]: [uint16(b[1]) | uint16(b[0])<<8]. *)
Definition BigEndian_Uint16 (b0 b1 : byte) : Z :=
  Z.lor (byte_to_Z b1) (Z.shiftl (byte_to_Z b0) 8).

(** [binary.BigEndian.PutUint16(b, v)]: [b[0] = byte(v >> 8)],
    [b[1] = byte(v)]. *)
Definition BigEndian_PutUint16 (v : Z) : list byte :=
  [byte_of_Z (Z.shiftr v 8); byte_of_Z v].

(** [binary.BigEndian.Uint32] and [PutUint32]. *)
Definition BigEndian_Uint32 (b0 b1 b2 b3 : byte) : Z :=
  Z.lor (Z.lor (byte_to_Z b3) (Z.shiftl (byte_to_Z b2) 8))
        (Z.lor (Z.shiftl (byte_to_Z b1) 16) (Z.shiftl (byte_to_Z b0) 24)).

Definition BigEndian_PutUint32 (v : Z) : list byte :=
  [byte_of_Z (Z.shiftr v 24); byte_of_Z (Z.shiftr v 16);
   byte_of_Z (Z.shiftr v 8); byte_of_Z v].

End binary.

(** ** [github.com/miekg/dns]: messages and their header

    [processDNSQuery] unpacks the query with [Msg.Unpack], builds one
    record with [NewRR] and packs the message again with [Msg.Pack]. The
    message type and the packing of the twelve header octets follow the
    library; how the four sections are laid out on the wire is left to a
    section codec, so that what is proved below holds for any. *)

Module dns.

Record RR_Header : Type := mkRR_Header {
  Name : string;
  Rrtype : Z;
  Class : Z;
  Ttl : Z;
  Rdlength : Z
}.

(** A resource record: its header and its type-specific fields, the
    latter kept in wire form. *)
Record RR : Type := mkRR {
  Hdr : RR_Header;
  Rdata : list byte
}.

(** A question; [QName] is its field [Name]. *)
Record Question : Type := mkQuestion {
  QName : string;
  Qtype : Z;
  Qclass : Z
}.

Record MsgHdr : Type := mkMsgHdr {
  Id : Z;
  Response : bool;
  Opcode : Z;
  Authoritative : bool;
  Truncated : bool;
  RecursionDesired : bool;
  RecursionAvailable : bool;
  Zero : bool;
  AuthenticatedData : bool;
  CheckingDisabled : bool;
  Rcode : Z
}.

(** A message: [hdr] is the embedded [MsgHdr], [Questions] the field
    [Question]. *)
Record Msg : Type := mkMsg {
  hdr : MsgHdr;
  Compress : bool;
  Questions : list Question;
  Answer : list RR;
  Ns : list RR;
  Extra : list RR
}.

(** The wire header; [hId] is its field [Id]. *)
Record Header : Type := mkHeader {
  hId : Z;
  Bits : Z;
  Qdcount : Z;
  Ancount : Z;
  Nscount : Z;
  Arcount : Z
}.

Definition headerSize : nat := 12.

Definition _QR : Z := Z.shiftl 1 15.
Definition _AA : Z := Z.shiftl 1 10.
Definition _TC : Z := Z.shiftl 1 9.
Definition _RD : Z := Z.shiftl 1 8.
Definition _RA : Z := Z.shiftl 1 7.
Definition _Z : Z := Z.shiftl 1 6.
Definition _AD : Z := Z.shiftl 1 5.
Definition _CD : Z := Z.shiftl 1 4.

Definition TypeA : Z := 1.
Definition TypeOPT : Z := 41.
Definition ClassINET : Z := 1.

Definition ErrRcode : error := errorString "dns: bad rcode".
Definition ErrExtendedRcode : error := errorString "dns: bad extended rcode".
Definition ErrBuf : error := errorString "dns: buffer size too small".
Definition ErrRdata : error := errorString "dns: bad rdata".
Definition ErrLongDomain : error :=
  errorString "dns: domain name exceeded 255 wire-format octets".

(** [unpackUint16(msg, off)]. *)
Definition unpackUint16 (msg : list byte) (off : nat) : error + (Z * nat) :=
  match drop off msg with
  | b0 :: b1 :: _ => inr (binary.BigEndian_Uint16 b0 b1, (off + 2)%nat)
  | _ => inl (errorString "dns: overflow unpacking uint16")
  end.

(** [unpackMsgHdr(msg, off)]: six big-endian 16-bit fields. *)
Definition unpackMsgHdr (msg : list byte) (off : nat) : error + (Header * nat) :=
  match unpackUint16 msg off with
  | inl e => inl e
  | inr (id, off) =>
  match unpackUint16 msg off with
  | inl e => inl e
  | inr (bits, off) =>
  match unpackUint16 msg off with
  | inl e => inl e
  | inr (qd, off) =>
  match unpackUint16 msg off with
  | inl e => inl e
  | inr (an, off) =>
  match unpackUint16 msg off with
  | inl e => inl e
  | inr (ns, off) =>
  match unpackUint16 msg off with
  | inl e => inl e
  | inr (ar, off) => inr (mkHeader id bits qd an ns ar, off)
  end end end end end end.

(** [dh.Bits&flag != 0]. *)
Definition bitSet (bits flag : Z) : bool := negb (Z.land bits flag =? 0).

(** [Msg.setHdr]. *)
Definition setHdr (dh : Header) : MsgHdr :=
  {| Id := hId dh;
     Response := bitSet (Bits dh) _QR;
     Opcode := Z.land (Z.shiftr (Bits dh) 11) 15;
     Authoritative := bitSet (Bits dh) _AA;
     Truncated := bitSet (Bits dh) _TC;
     RecursionDesired := bitSet (Bits dh) _RD;
     RecursionAvailable := bitSet (Bits dh) _RA;
     Zero := bitSet (Bits dh) _Z;
     AuthenticatedData := bitSet (Bits dh) _AD;
     CheckingDisabled := bitSet (Bits dh) _CD;
     Rcode := Z.land (Bits dh) 15 |}.

(** [Msg.IsEdns0]: the last record of the additional section whose type
    is OPT, with its index. *)
Fixpoint IsEdns0_from (i : nat) (extra : list RR) : option (nat * RR) :=
  match extra with
  | [] => None
  | rr :: extra' =>
      match IsEdns0_from (S i) extra' with
      | Some found => Some found
      | None => if Rrtype (Hdr rr) =? TypeOPT then Some (i, rr) else None
      end
  end.

Definition IsEdns0 (m : Msg) : option (nat * RR) := IsEdns0_from 0 (Extra m).

(** [OPT.ExtendedRcode]: [int(rr.Hdr.Ttl&0xFF000000>>24) << 4]. *)
Definition ExtendedRcode (opt : RR) : Z :=
  Z.shiftl (Z.shiftr (Z.land (Ttl (Hdr opt)) 0xFF000000) 24) 4.

(** [OPT.SetExtendedRcode(v)]:
    [rr.Hdr.Ttl = rr.Hdr.Ttl&0x00FFFFFF | uint32(v>>4)<<24]. *)
Definition SetExtendedRcode (v : Z) (opt : RR) : RR :=
  let h := Hdr opt in
  {| Hdr := {| Name := Name h; Rrtype := Rrtype h; Class := Class h;
               Ttl := Z.lor (Z.land (Ttl h) 0x00FFFFFF)
                            (uint32 (Z.shiftl (uint32 (Z.shiftr v 4)) 24));
               Rdlength := Rdlength h |};
     Rdata := Rdata opt |}.

Definition withSections (m : Msg) (q : list Question) (an ns ex : list RR) : Msg :=
  {| hdr := hdr m; Compress := Compress m;
     Questions := q; Answer := an; Ns := ns; Extra := ex |}.

Definition withRcode (h : MsgHdr) (rc : Z) : MsgHdr :=
  {| Id := Id h; Response := Response h; Opcode := Opcode h;
     Authoritative := Authoritative h; Truncated := Truncated h;
     RecursionDesired := RecursionDesired h;
     RecursionAvailable := RecursionAvailable h; Zero := Zero h;
     AuthenticatedData := AuthenticatedData h;
     CheckingDisabled := CheckingDisabled h; Rcode := rc |}.

(** [dh.pack]: the twelve header octets. *)
Definition packHeader (dh : Header) : list byte :=
  binary.BigEndian_PutUint16 (hId dh) ++ binary.BigEndian_PutUint16 (Bits dh) ++
  binary.BigEndian_PutUint16 (Qdcount dh) ++ binary.BigEndian_PutUint16 (Ancount dh) ++
  binary.BigEndian_PutUint16 (Nscount dh) ++ binary.BigEndian_PutUint16 (Arcount dh).

(** The header [Msg.Pack] builds from the message. *)
Definition flag (b : bool) (mask : Z) : Z := if b then mask else 0.

Definition headerBits (h : MsgHdr) : Z :=
  let bits := Z.lor (uint16 (Z.shiftl (uint16 (Opcode h)) 11))
                    (uint16 (Z.land (Rcode h) 0xF)) in
  let bits := Z.lor bits (flag (Response h) _QR) in
  let bits := Z.lor bits (flag (Authoritative h) _AA) in
  let bits := Z.lor bits (flag (Truncated h) _TC) in
  let bits := Z.lor bits (flag (RecursionDesired h) _RD) in
  let bits := Z.lor bits (flag (RecursionAvailable h) _RA) in
  let bits := Z.lor bits (flag (Zero h) _Z) in
  let bits := Z.lor bits (flag (AuthenticatedData h) _AD) in
  Z.lor bits (flag (CheckingDisabled h) _CD).

Definition headerOf (m : Msg) : Header :=
  {| hId := Id (hdr m);
     Bits := headerBits (hdr m);
     Qdcount := uint16 (len (Questions m));
     Ancount := uint16 (len (Answer m));
     Nscount := uint16 (len (Ns m));
     Arcount := uint16 (len (Extra m)) |}.

Section Codec.

(** The four sections as [Msg.unpack] reads them from [msg] at [off],
    given the counts of the header; and the octets [Msg.Pack] writes
    for them after the header. *)
Variable unpackSections :
  Header -> list byte -> nat ->
  error + (list Question * list RR * list RR * list RR).
Variable packSections : Msg -> error + list byte.

(** [Msg.Unpack]. *)
Definition Unpack (msg : list byte) : error + Msg :=
  match unpackMsgHdr msg 0 with
  | inl e => inl e
  | inr (dh, off) =>
      let m := {| hdr := setHdr dh; Compress := false;
                  Questions := []; Answer := []; Ns := []; Extra := [] |} in
      if (off =? length msg)%nat then inr m
      else
        match unpackSections dh msg off with
        | inl e => inl e
        | inr (q, an, ns, ex) =>
            let m := withSections m q an ns ex in
            match IsEdns0 m with
            | Some (_, opt) =>
                inr {| hdr := withRcode (hdr m) (Z.lor (Rcode (hdr m)) (ExtendedRcode opt));
                       Compress := Compress m; Questions := q;
                       Answer := an; Ns := ns; Extra := ex |}
            | None => inr m
            end
        end
  end.

(** [Msg.Pack]. *)
Definition Pack (m : Msg) : error + list byte :=
  if (Rcode (hdr m) <? 0) || (0xFFF <? Rcode (hdr m)) then inl ErrRcode
  else
    let packed (m' : Msg) :=
      match packSections m' with
      | inl e => inl e
      | inr body => inr (packHeader (headerOf m') ++ body)
      end in
    match IsEdns0 m with
    | Some (i, opt) =>
        packed (withSections m (Questions m) (Answer m) (Ns m)
                  (<[i := SetExtendedRcode (uint16 (Rcode (hdr m))) opt]> (Extra m)))
    | None =>
        if 0xF <? Rcode (hdr m) then inl ErrExtendedRcode else packed m
    end.

End Codec.

End dns.

(** ** [net/http]: the client side

    [http.Post(url, contentType, body)] sends one request; the network
    answers with a transport failure or with a response whose body is
    then read with [io.ReadAll], which yields the octets received and,
    when the body breaks off, the error that ended it. The status line of
    the response is never looked at by [main.go]. *)

Record PostCall : Type := mkPostCall {
  post_url : string;
  post_contentType : string;
  post_body : list byte
}.

Inductive PostReply : Type :=
| PostFailed (err : error)
| PostResponded (status : Z) (body : list byte) (bodyErr : option error).

(** ** [processDNSQuery] *)

Section Resolver.

Variable unicodeLower : string -> string.

(** The three entry points of the DNS library. *)
Variable Unpack : list byte -> error + dns.Msg.
Variable NewRR : string -> error + dns.RR.
Variable Pack : dns.Msg -> error + list byte.

(** The network, as seen through [http.Post]. *)
Variable upstream : PostCall -> PostReply.

Definition upstreamCall (query : list byte) : PostCall :=
  {| post_url := "https://1.1.1.1/dns-query";
     post_contentType := "application/dns-message";
     post_body := query |}.

(** [msg.Answer = append(msg.Answer, rr)]. *)
Definition appendAnswer (msg : dns.Msg) (rr : dns.RR) : dns.Msg :=
  dns.withSections msg (dns.Questions msg) (dns.Answer msg ++ [rr])
                   (dns.Ns msg) (dns.Extra msg).

(** [processDNSQuery(query)]. The global [config] enters through [it],
    the order in which this call's [range] visits [config.Domains]
    ([ranges (Domains config) it]); [net] holds the requests sent
    upstream so far. The result is Go's pair and the requests sent once
    the call is done; [defer resp.Body.Close()] has no part in either. *)
Definition processDNSQuery (it : list (string * string)) (query : list byte)
    (net : list PostCall) : result (list byte) * list PostCall :=
  match Unpack query with
  | inl err => (([], Some err), net)
  | inr msg =>
      match dns.Questions msg with
      | [] => (([], Some (errorString "no DNS question found in the request")), net)
      | q0 :: _ =>
          let domain := dns.QName q0 in
          match findValueByKeyContains unicodeLower it domain with
          | (ip, true) =>
              match NewRR (domain +:+ " A " +:+ ip) with
              | inl err => (([], Some err), net)
              | inr rr =>
                  match Pack (appendAnswer msg rr) with
                  | inl err => (([], Some err), net)
                  | inr packed => ((packed, None), net)
                  end
              end
          | (_, false) =>
              match upstream (upstreamCall query) with
              | PostFailed err => (([], Some err), net ++ [upstreamCall query])
              | PostResponded _ body bodyErr =>
                  ((body, bodyErr), net ++ [upstreamCall query])
              end
          end
      end
  end.

End Resolver.

(** ** [io], [bytes.Buffer] and [net.Conn] *)

Module io.
Definition EOF : error := errorString "EOF".
Definition ErrUnexpectedEOF : error := errorString "unexpected EOF".
Definition ErrClosedPipe : error := errorString "io: read/write on closed pipe".
Definition ErrShortWrite : error := errorString "short write".
Definition ErrNoProgress : error :=
  errorString "multiple Read calls return no data or error".
End io.

(** [io.Reader]: [Read n r] is [r.Read(p)] with [len(p) = n]; it returns
    the octets stored in [p[:n']] and the error. [io.Writer]: [Write p w]
    returns the number of octets of [p] that were written. *)
Class Reader (R : Type) : Type := Read : nat -> R -> result (list byte) * R.
Class Writer (W : Type) : Type := Write : list byte -> W -> result nat * W.

(** A [bytes.Buffer]: its unread octets. *)
Definition Buffer : Type := list byte.

#[global] Instance Buffer_Reader : Reader Buffer := fun n b =>
  match b with
  | [] => if (n =? 0)%nat then (([], None), b) else (([], Some io.EOF), b)
  | _ => ((take n b, None), drop n b)
  end.

#[global] Instance Buffer_Writer : Writer Buffer := fun p b =>
  ((length p, None), b ++ p).

(** [time.Time]: the zero value, or an instant. *)
Inductive Time : Type :=
| zeroTime
| instant (ns : Z).

Definition Second : Z := 1000000000.

(** [t.Add(d)]. *)
Definition Time_Add (t : Time) (d : Z) : Time :=
  match t with
  | zeroTime => instant d
  | instant ns => instant (ns + d)
  end.

(** A connection as the node sees it. [incoming] holds the octets the
    peer sends that have not been read yet, cut into the pieces in which
    they arrive, and [incomingEnd] says how that stream ends: with an
    orderly end of stream, or with an error (a reset, an expired read
    deadline). [outgoing] collects what has been written to the peer;
    [writeFault], when set, is the number of further octets the peer
    takes before writes fail with the given error. *)
Record Conn : Type := mkConn {
  incoming : list (list byte);
  incomingEnd : option error;
  outgoing : list byte;
  writeFault : option (nat * error);
  readDeadline : Time;
  writeDeadline : Time;
  closedWrite : bool;
  closed : bool
}.

Definition ErrNetClosing : error := errorString "use of closed network connection".

Definition setIncoming (c : Conn) (segs : list (list byte)) : Conn :=
  {| incoming := segs; incomingEnd := incomingEnd c; outgoing := outgoing c;
     writeFault := writeFault c; readDeadline := readDeadline c;
     writeDeadline := writeDeadline c; closedWrite := closedWrite c;
     closed := closed c |}.

Definition setOutgoing (c : Conn) (out : list byte) (wf : option (nat * error)) : Conn :=
  {| incoming := incoming c; incomingEnd := incomingEnd c; outgoing := out;
     writeFault := wf; readDeadline := readDeadline c;
     writeDeadline := writeDeadline c; closedWrite := closedWrite c;
     closed := closed c |}.

#[global] Instance Conn_Reader : Reader Conn := fun n c =>
  if closed c then (([], Some ErrNetClosing), c)
  else
    match incoming c with
    | [] =>
        match incomingEnd c with
        | None => (([], Some io.EOF), c)
        | Some e => (([], Some e), c)
        end
    | seg :: rest =>
        match drop n seg with
        | [] => ((take n seg, None), setIncoming c rest)
        | seg' => ((take n seg, None), setIncoming c (seg' :: rest))
        end
    end.

#[global] Instance Conn_Writer : Writer Conn := fun p c =>
  if closed c || closedWrite c then ((0%nat, Some ErrNetClosing), c)
  else
    match writeFault c with
    | None => ((length p, None), setOutgoing c (outgoing c ++ p) None)
    | Some (quota, e) =>
        if (length p <=? quota)%nat
        then ((length p, None),
              setOutgoing c (outgoing c ++ p) (Some ((quota - length p)%nat, e)))
        else ((quota, Some e),
              setOutgoing c (outgoing c ++ take quota p) (Some (0%nat, e)))
    end.

(** [conn.SetReadDeadline(t)], [conn.Close()] and [CloseWrite()] of a TCP connection. *)
Definition Conn_SetReadDeadline (t : Time) (c : Conn) : option error * Conn :=
  if closed c then (Some ErrNetClosing, c)
  else (None,
        {| incoming := incoming c; incomingEnd := incomingEnd c;
           outgoing := outgoing c; writeFault := writeFault c;
           readDeadline := t; writeDeadline := writeDeadline c;
           closedWrite := closedWrite c; closed := closed c |}).

Definition Conn_Close (c : Conn) : option error * Conn :=
  if closed c then (Some ErrNetClosing, c)
  else (None,
        {| incoming := incoming c; incomingEnd := incomingEnd c;
           outgoing := outgoing c; writeFault := writeFault c;
           readDeadline := readDeadline c; writeDeadline := writeDeadline c;
           closedWrite := closedWrite c; closed := true |}).

Definition Conn_CloseWrite (c : Conn) : option error * Conn :=
  if closed c then (Some ErrNetClosing, c)
  else (None,
        {| incoming := incoming c; incomingEnd := incomingEnd c;
           outgoing := outgoing c; writeFault := writeFault c;
           readDeadline := readDeadline c; writeDeadline := writeDeadline c;
           closedWrite := true; closed := closed c |}).

(** The octets the peer has sent and the node has not read yet. *)
Definition unread (c : Conn) : list byte := concat (incoming c).

(** An upper bound on the number of [Read] calls that return neither an
    octet nor an error: the loops below take it as their fuel. *)
Definition readsLeft (c : Conn) : nat :=
  S (length (incoming c) + length (unread c)).

Section IoLoops.
Context {R W : Type} `{Reader R} `{Writer W}.

(** [io.ReadAtLeast(r, buf, min)] with [len(buf) = min], that is
    [io.ReadFull]: [acc] is [buf[:n]]. *)
Fixpoint ReadAtLeast_loop (fuel min : nat) (acc : list byte) (r : R)
  : option (result (list byte) * R) :=
  if (length acc <? min)%nat then
    match fuel with
    | O => None
    | S fuel' =>
        let '((p, err), r') := Read (min - length acc)%nat r in
        match err with
        | None => ReadAtLeast_loop fuel' min (acc ++ p) r'
        | Some e =>
            if (min <=? length (acc ++ p))%nat then Some ((acc ++ p, None), r')
            else if (0 <? length (acc ++ p))%nat && bool_decide (e = io.EOF)
            then Some ((acc ++ p, Some io.ErrUnexpectedEOF), r')
            else Some ((acc ++ p, Some e), r')
        end
    end
  else Some ((acc, None), r).

(** The loop of [io.Copy(dst, src)] with its buffer of 32 KiB; it
    returns the number of octets written and the error. *)
Definition copyBufferSize : nat := Z.to_nat 32768.

Fixpoint copyBuffer_loop (fuel : nat) (written : nat) (dst : W) (src : R)
  : option (result nat * W * R) :=
  match fuel with
  | O => None
  | S fuel' =>
      let '((p, er), src') := Read copyBufferSize src in
      let afterWrite (written : nat) (dst' : W) :=
        match er with
        | Some e =>
            if bool_decide (e = io.EOF) then Some ((written, None), dst', src')
            else Some ((written, Some e), dst', src')
        | None => copyBuffer_loop fuel' written dst' src'
        end in
      match p with
      | [] => afterWrite written dst
      | _ =>
          let '((nw, ew), dst') := Write p dst in
          match ew with
          | Some e => Some (((written + nw)%nat, Some e), dst', src')
          | None =>
              if (nw =? length p)%nat then afterWrite (written + nw)%nat dst'
              else Some (((written + nw)%nat, Some io.ErrShortWrite), dst', src')
          end
      end
  end.

End IoLoops.

(** [io.ReadFull(conn, buf)] with [len(buf) = n]. *)
Definition io_ReadFull (n : nat) (c : Conn) : result (list byte) * Conn :=
  match ReadAtLeast_loop (readsLeft c) n [] c with
  | Some r => r
  | None => (([], Some io.ErrNoProgress), c)
  end.

(** [io.Copy(dst, src)] between two connections. *)
Definition io_Copy (dst src : Conn) : result nat * Conn * Conn :=
  match copyBuffer_loop (readsLeft src) 0 dst src with
  | Some r => r
  | None => ((0%nat, Some io.ErrNoProgress), dst, src)
  end.

(** [io.Copy(dst, buf)] from a [*bytes.Buffer]: [io.Copy] hands over to
    [buf.WriteTo(dst)], one [Write] of everything unread. *)
Definition Buffer_WriteTo {W} `{Writer W} (b : Buffer) (dst : W) : result nat * W * Buffer :=
  match b with
  | [] => ((0%nat, None), dst, [])
  | _ =>
      let '((m, e), dst') := Write b dst in
      match e with
      | Some e => ((m, Some e), dst', drop m b)
      | None =>
          if (m =? length b)%nat then ((m, None), dst', [])
          else ((m, Some io.ErrShortWrite), dst', drop m b)
      end
  end.

(** [io.TeeReader(r, w)]. *)
Record teeReader (R W : Type) : Type := mkTee {
  tee_r : R;
  tee_w : W
}.
Arguments mkTee {R W} _ _.
Arguments tee_r {R W} _.
Arguments tee_w {R W} _.

#[global] Instance teeReader_Reader {R W} `{Reader R} `{Writer W}
  : Reader (teeReader R W) := fun n t =>
  let '((p, err), r') := Read n (tee_r t) in
  match p with
  | [] => ((p, err), mkTee r' (tee_w t))
  | _ =>
      let '((n', werr), w') := Write p (tee_w t) in
      match werr with
      | Some e => ((take n' p, Some e), mkTee r' w')
      | None => ((p, err), mkTee r' w')
      end
  end.

(** The type assertion [x.(io.Closer)]: the [Close] method of the
    dynamic type, when it has one. *)
Class MaybeCloser (R : Type) : Type := asCloser : option (R -> option error * R).

#[global] Instance teeReader_no_Closer {R W} : MaybeCloser (teeReader R W) := None.
#[global] Instance Conn_Closer : MaybeCloser Conn := Some Conn_Close.

(** ** [net.JoinHostPort] *)

Fixpoint hasColon (s : string) : bool :=
  match s with
  | EmptyString => false
  | String c s' => if ascii_dec c ":" then true else hasColon s'
  end.

Definition JoinHostPort (host port : string) : string :=
  if hasColon host then "[" +:+ host +:+ "]:" +:+ port
  else host +:+ ":" +:+ port.

(** ** [sync.WaitGroup] and the ways a call can end *)

(** A call returns, never returns, or panics. *)
Inductive outcome (A : Type) : Type :=
| Returns (a : A)
| BlocksForever
| Panics (msg : string).
Arguments Returns {A} _.
Arguments BlocksForever {A}.
Arguments Panics {A} _.

(** The counter of a [sync.WaitGroup]. [wg.Add(delta)] panics when the
    counter would go negative; [wg.Done()] is [wg.Add(-1)]; [wg.Wait()]
    returns once the counter is zero, and a counter that nothing will
    lower any more keeps the caller blocked. *)
Definition WaitGroup : Type := Z.

Definition WaitGroup_Add (delta : Z) (wg : WaitGroup) : outcome WaitGroup :=
  if wg + delta <? 0 then Panics "sync: negative WaitGroup counter"
  else Returns (wg + delta).

Definition WaitGroup_Done (wg : WaitGroup) : outcome WaitGroup :=
  WaitGroup_Add (-1) wg.

Definition WaitGroup_Wait (wg : WaitGroup) : outcome unit :=
  if wg =? 0 then Returns tt else BlocksForever.

(** ** [crypto/tls]: the server side of a handshake

    [tls.Server(conn, config).Handshake()] is a program over its
    connection: it calls the methods of [conn] and, once it has parsed a
    ClientHello, the [GetConfigForClient] hook of [config], and ends by
    returning an error or nil. Which calls it makes is the library's
    business; every such program is a [Handshake]. *)

Record ClientHelloInfo : Type := mkClientHelloInfo {
  ServerName : string
}.

Inductive Handshake : Type :=
| hsReturn (err : option error)
| hsRead (n : nat) (k : result (list byte) -> Handshake)
| hsWrite (p : list byte) (k : result nat -> Handshake)
| hsClose (k : option error -> Handshake)
| hsLocalAddr (k : option string -> Handshake)
| hsRemoteAddr (k : option string -> Handshake)
| hsSetDeadline (t : Time) (k : option error -> Handshake)
| hsSetReadDeadline (t : Time) (k : option error -> Handshake)
| hsSetWriteDeadline (t : Time) (k : option error -> Handshake)
| hsGetConfigForClient (argHello : ClientHelloInfo)
    (k : option unit * option error -> Handshake).

(** ** [readOnlyConn] *)

Record readOnlyConn (R : Type) : Type := mkReadOnlyConn {
  reader : R
}.
Arguments mkReadOnlyConn {R} _.
Arguments reader {R} _.

Section ReadOnlyConn.
Context {R : Type} `{Reader R} `{MaybeCloser R}.

Definition readOnlyConn_Read (n : nat) (conn : readOnlyConn R)
  : result (list byte) * readOnlyConn R :=
  let '(res, r') := Read n (reader conn) in (res, mkReadOnlyConn r').

Definition readOnlyConn_Write (p : list byte) (conn : readOnlyConn R)
  : result nat * readOnlyConn R :=
  ((0%nat, Some io.ErrClosedPipe), conn).

Definition readOnlyConn_Close (conn : readOnlyConn R)
  : option error * readOnlyConn R :=
  match asCloser with
  | Some close => let '(err, r') := close (reader conn) in (err, mkReadOnlyConn r')
  | None => (None, conn)
  end.

Definition readOnlyConn_LocalAddr (conn : readOnlyConn R) : option string := None.
Definition readOnlyConn_RemoteAddr (conn : readOnlyConn R) : option string := None.

Definition readOnlyConn_SetDeadline (t : Time) (conn : readOnlyConn R)
  : option error * readOnlyConn R := (None, conn).
Definition readOnlyConn_SetReadDeadline (t : Time) (conn : readOnlyConn R)
  : option error * readOnlyConn R := (None, conn).
Definition readOnlyConn_SetWriteDeadline (t : Time) (conn : readOnlyConn R)
  : option error * readOnlyConn R := (None, conn).

(** ** [readClientHello] *)

(** What the closure passed as [GetConfigForClient] and the handshake
    share: the connection, the captured [hello] and the wait group. *)
Record sniffing : Type := mkSniffing {
  sn_conn : readOnlyConn R;
  sn_hello : option ClientHelloInfo;
  sn_wg : WaitGroup
}.

(** The handshake run against a [readOnlyConn] with the hook
    [hello = argHello; wg.Done(); return nil, nil]. *)
Fixpoint runHandshake (hs : Handshake) (st : sniffing)
  : outcome (option error * sniffing) :=
  match hs with
  | hsReturn err => Returns (err, st)
  | hsRead n k =>
      let '(res, conn') := readOnlyConn_Read n (sn_conn st) in
      runHandshake (k res) (mkSniffing conn' (sn_hello st) (sn_wg st))
  | hsWrite p k =>
      let '(res, conn') := readOnlyConn_Write p (sn_conn st) in
      runHandshake (k res) (mkSniffing conn' (sn_hello st) (sn_wg st))
  | hsClose k =>
      let '(res, conn') := readOnlyConn_Close (sn_conn st) in
      runHandshake (k res) (mkSniffing conn' (sn_hello st) (sn_wg st))
  | hsLocalAddr k => runHandshake (k (readOnlyConn_LocalAddr (sn_conn st))) st
  | hsRemoteAddr k => runHandshake (k (readOnlyConn_RemoteAddr (sn_conn st))) st
  | hsSetDeadline t k =>
      let '(res, conn') := readOnlyConn_SetDeadline t (sn_conn st) in
      runHandshake (k res) (mkSniffing conn' (sn_hello st) (sn_wg st))
  | hsSetReadDeadline t k =>
      let '(res, conn') := readOnlyConn_SetReadDeadline t (sn_conn st) in
      runHandshake (k res) (mkSniffing conn' (sn_hello st) (sn_wg st))
  | hsSetWriteDeadline t k =>
      let '(res, conn') := readOnlyConn_SetWriteDeadline t (sn_conn st) in
      runHandshake (k res) (mkSniffing conn' (sn_hello st) (sn_wg st))
  | hsGetConfigForClient argHello k =>
      match WaitGroup_Done (sn_wg st) with
      | Returns wg' =>
          runHandshake (k (None, None)) (mkSniffing (sn_conn st) (Some argHello) wg')
      | BlocksForever => BlocksForever
      | Panics msg => Panics msg
      end
  end.

(** [readClientHello(reader)]: the result pair and the reader as the
    handshake left it. *)
Definition readClientHello (hs : Handshake) (rd : R)
  : outcome (result (option ClientHelloInfo) * R) :=
  match WaitGroup_Add 1 0 with
  | Returns wg =>
      match runHandshake hs (mkSniffing (mkReadOnlyConn rd) None wg) with
      | Returns (err, st) =>
          match WaitGroup_Wait (sn_wg st) with
          | Returns _ =>
              match sn_hello st with
              | None => Returns ((None, err), reader (sn_conn st))
              | Some hello => Returns ((Some hello, None), reader (sn_conn st))
              end
          | BlocksForever => BlocksForever
          | Panics msg => Panics msg
          end
      | BlocksForever => BlocksForever
      | Panics msg => Panics msg
      end
  | BlocksForever => BlocksForever
  | Panics msg => Panics msg
  end.

End ReadOnlyConn.

(** ** [peekClientHello] *)

Definition peekClientHello {R} `{Reader R} (hs : Handshake) (rd : R)
  : outcome ((option ClientHelloInfo * option Buffer * option error) * R) :=
  let peekedBytes : Buffer := [] in
  match readClientHello hs (mkTee rd peekedBytes) with
  | Returns ((hello, err), tee) =>
      match err with
      | Some e => Returns ((None, None, Some e), tee_r tee)
      | None => Returns ((hello, Some (tee_w tee), None), tee_r tee)
      end
  | BlocksForever => BlocksForever
  | Panics msg => Panics msg
  end.

(** ** [handleConnection] *)

(** What one call of [handleConnection] leaves behind: the two
    connections, the dials it made and what it logged. *)
Record proxied : Type := mkProxied {
  client : Conn;
  backend : option Conn;
  dialed : list (string * string);
  logged : list error
}.

Section SniProxy.

Variable unicodeLower : string -> string.
Variable config : Config.

(** [tls.Server(...).Handshake()], [time.Now()] and
    [net.DialTimeout(network, address, 5*time.Second)]. *)
Variable hs : Handshake.
Variable now : Time.
Variable dial : string -> string -> error + Conn.

(** The address [handleConnection] dials for a ClientHello. *)
Definition targetHost (clientHello : ClientHelloInfo) : string :=
  let targetHost := strings.ToLower unicodeLower (ServerName clientHello) in
  if String.eqb targetHost (Host config)
  then JoinHostPort targetHost "8443"
  else JoinHostPort targetHost "443".

(** The second goroutine: the peeked octets, then the live ones, then
    the half-close of the backend. *)
Definition clientToBackend (clientHelloBytes : Buffer) (clientConn backendConn : Conn)
  : Conn * Conn :=
  let '(_, backendConn, _) := Buffer_WriteTo clientHelloBytes backendConn in
  let '(_, backendConn, clientConn) := io_Copy backendConn clientConn in
  let '(_, backendConn) := Conn_CloseWrite backendConn in
  (clientConn, backendConn).

(** The first goroutine. *)
Definition backendToClient (clientConn backendConn : Conn) : Conn * Conn :=
  let '(_, clientConn, backendConn) := io_Copy clientConn backendConn in
  let '(_, clientConn) := Conn_CloseWrite clientConn in
  (clientConn, backendConn).

(** The two goroutines and [wg.Wait()]. One goroutine reads the client
    and writes the backend, the other reads the backend and writes the
    client: neither sees what the other changes, so the state they leave
    is that of running one after the other, in either order (lemma
    [relay_order_irrelevant]). *)
Definition relay (clientHelloBytes : Buffer) (clientConn backendConn : Conn)
  : Conn * Conn :=
  let '(clientConn, backendConn) :=
    clientToBackend clientHelloBytes clientConn backendConn in
  backendToClient clientConn backendConn.

(** The deferred calls: [backendConn.Close()], then [clientConn.Close()]. *)
Definition closeAll (w : proxied) : proxied :=
  {| client := snd (Conn_Close (client w));
     backend := (fun b => snd (Conn_Close b)) <$> backend w;
     dialed := dialed w;
     logged := logged w |}.

Definition handleConnection (clientConn : Conn) : outcome proxied :=
  match Conn_SetReadDeadline (Time_Add now (5 * Second)) clientConn with
  | (Some err, clientConn) =>
      Returns (closeAll (mkProxied clientConn None [] [err]))
  | (None, clientConn) =>
      match peekClientHello hs clientConn with
      | BlocksForever => BlocksForever
      | Panics msg => Panics msg
      | Returns ((_, _, Some err), clientConn) =>
          Returns (closeAll (mkProxied clientConn None [] [err]))
      | Returns ((clientHello, clientHelloBytes, None), clientConn) =>
          match Conn_SetReadDeadline zeroTime clientConn with
          | (Some err, clientConn) =>
              Returns (closeAll (mkProxied clientConn None [] [err]))
          | (None, clientConn) =>
              match clientHello, clientHelloBytes with
              | Some clientHello, Some clientHelloBytes =>
                  let target := targetHost clientHello in
                  match dial "tcp" target with
                  | inl err =>
                      Returns (closeAll
                        (mkProxied clientConn None [("tcp", target)] [err]))
                  | inr backendConn =>
                      let '(clientConn, backendConn) :=
                        relay clientHelloBytes clientConn backendConn in
                      Returns (closeAll
                        (mkProxied clientConn (Some backendConn)
                                   [("tcp", target)] []))
                  end
              | _, _ => Panics "invalid memory address or nil pointer dereference"
              end
          end
      end
  end.

End SniProxy.

(** ** [net/http]: the server side *)

(** An [http.ResponseWriter]: the header map the handler edits, the
    status and headers once they have been sent, and the body. *)
Record ResponseWriter : Type := mkResponseWriter {
  rw_header : gmap string string;
  rw_sent : option (Z * gmap string string);
  rw_body : list byte
}.

Definition StatusOK : Z := 200.
Definition StatusTooManyRequests : Z := 429.
Definition StatusInternalServerError : Z := 500.

Definition Header_Set (k v : string) (w : ResponseWriter) : ResponseWriter :=
  mkResponseWriter (<[k := v]> (rw_header w)) (rw_sent w) (rw_body w).

Definition Header_Del (k : string) (w : ResponseWriter) : ResponseWriter :=
  mkResponseWriter (delete k (rw_header w)) (rw_sent w) (rw_body w).

(** [w.WriteHeader(code)]: only the first call sends anything. *)
Definition WriteHeader (code : Z) (w : ResponseWriter) : ResponseWriter :=
  match rw_sent w with
  | Some _ => w
  | None => mkResponseWriter (rw_header w) (Some (code, rw_header w)) (rw_body w)
  end.

(** [w.Write(p)]: sends the header with status 200 first if none was sent. *)
Definition ResponseWriter_Write (p : list byte) (w : ResponseWriter) : ResponseWriter :=
  let w := WriteHeader StatusOK w in
  mkResponseWriter (rw_header w) (rw_sent w) (rw_body w ++ p).

(** [http.Error(w, error, code)]. *)
Definition http_Error (msg : string) (code : Z) (w : ResponseWriter) : ResponseWriter :=
  let w := Header_Del "Content-Length" w in
  let w := Header_Set "Content-Type" "text/plain; charset=utf-8" w in
  let w := Header_Set "X-Content-Type-Options" "nosniff" w in
  let w := WriteHeader code w in
  ResponseWriter_Write (bytes_of_string (msg +:+ String "010" EmptyString)) w.

(** The body of a request, as [io.ReadAll(r.Body)] finds it: the octets
    received and, when the body breaks off, the error that ended it. *)
Record Request : Type := mkRequest {
  Body : list byte;
  BodyErr : option error
}.

Definition io_ReadAll (r : Request) : result (list byte) := (Body r, BodyErr r).

(** ** [handleDoHRequest] and [handleDoTConnection] *)

Section FrontEnds.

Variable unicodeLower : string -> string.
Variable Unpack : list byte -> error + dns.Msg.
Variable NewRR : string -> error + dns.RR.
Variable Pack : dns.Msg -> error + list byte.
Variable upstream : PostCall -> PostReply.

(** The [rate.Limiter]: [limiter.Allow()] answers at once and updates
    the bucket. *)
Variable Limiter : Type.
Variable Allow : Limiter -> bool * Limiter.

Definition handleDoHRequest (limiter : Limiter) (it : list (string * string))
    (w : ResponseWriter) (r : Request) (net : list PostCall)
  : ResponseWriter * Limiter * list PostCall :=
  let '(ok, limiter) := Allow limiter in
  if negb ok then
    (http_Error "Rate limit exceeded" StatusTooManyRequests w, limiter, net)
  else
    match io_ReadAll r with
    | (_, Some _) =>
        (http_Error "Failed to read request body" StatusInternalServerError w,
         limiter, net)
    | (body, None) =>
        match processDNSQuery unicodeLower Unpack NewRR Pack upstream it body net with
        | ((_, Some _), net) =>
            (http_Error "Failed to pack DNS response" StatusInternalServerError w,
             limiter, net)
        | ((dnsResponse, None), net) =>
            let w := Header_Set "Content-Type" "application/dns-message" w in
            (ResponseWriter_Write dnsResponse w, limiter, net)
        end
    end.

(** What one call of [handleDoTConnection] leaves behind. *)
Record served : Type := mkServed {
  dot_conn : Conn;
  dot_limiter : Limiter;
  dot_net : list PostCall;
  dot_logged : list error
}.

Definition handleDoTConnection (it : list (string * string)) (conn : Conn)
    (limiter : Limiter) (net : list PostCall) : served :=
  (* defer conn.Close() *)
  let done (conn : Conn) (limiter : Limiter) (net : list PostCall)
           (log : list error) :=
    mkServed (snd (Conn_Close conn)) limiter net log in
  let '(ok, limiter) := Allow limiter in
  if negb ok then done conn limiter net []
  else
    match io_ReadFull 2 conn with
    | ((_, Some err), conn) => done conn limiter net [err]
    | ((lengthBuf, None), conn) =>
        let dnsMessageLength :=
          match lengthBuf with
          | b0 :: b1 :: _ => binary.BigEndian_Uint16 b0 b1
          | _ => 0
          end in
        match io_ReadFull (Z.to_nat dnsMessageLength) conn with
        | ((_, Some err), conn) => done conn limiter net [err]
        | ((buffer, None), conn) =>
            match processDNSQuery unicodeLower Unpack NewRR Pack upstream
                                  it buffer net with
            | ((_, Some err), net) => done conn limiter net [err]
            | ((response, None), net) =>
                let responseLength :=
                  binary.BigEndian_PutUint16 (uint16 (len response)) in
                match Write responseLength conn with
                | ((_, Some err), conn) => done conn limiter net [err]
                | ((_, None), conn) =>
                    match Write response conn with
                    | ((_, Some err), conn) => done conn limiter net [err]
                    | ((_, None), conn) => done conn limiter net []
                    end
                end
            end
        end
    end.

End FrontEnds.

Arguments handleDoHRequest _ _ _ _ _ {Limiter} _ _ _ _ _ _.
Arguments handleDoTConnection _ _ _ _ _ {Limiter} _ _ _ _ _.
Arguments mkServed {Limiter} _ _ _ _.
Arguments dot_conn {Limiter} _.
Arguments dot_limiter {Limiter} _.
Arguments dot_net {Limiter} _.
Arguments dot_logged {Limiter} _.

(** ** The wire format, for running the functions on concrete messages

    A section codec in the format of RFC 1035 as the library reads and
    writes it, and [NewRR] for the one text [processDNSQuery] builds.
    Scope: the type-specific fields of a record stay the octets of its
    rdata (the library parses them per type), names are packed without
    compression (a message that was just unpacked has [Compress] off),
    and [NewRR] knows the zone-file line [owner A address] only. The
    properties below that quantify over the codec do not depend on any
    of this; it serves the worked examples. *)

Module wire.

Definition ascii_of_Z (z : Z) : ascii := ascii_of_N (Z.to_N z).
Definition Z_of_ascii (c : ascii) : Z := Z.of_N (N_of_ascii c).

(** [isDomainNameLabelSpecial]: [.], space, ['], [@], [;], [(], [)],
    the double quote and the backslash. *)
Definition isDomainNameLabelSpecial (b : Z) : bool :=
  existsb (Z.eqb b) [46; 32; 39; 64; 59; 40; 41; 34; 92].

Definition backslash : ascii := ascii_of_Z 92.

(** [escapeByte(b)]: a backslash and three decimal digits. *)
Definition escapeByte (b : Z) : string :=
  String backslash
    (String (ascii_of_Z (48 + b / 100))
       (String (ascii_of_Z (48 + (b / 10) mod 10))
          (String (ascii_of_Z (48 + b mod 10)) EmptyString))).

(** One label in presentation format, followed by its dot. *)
Definition presentLabel (label : list byte) : string :=
  fold_right
    (fun b acc =>
       let z := byte_to_Z b in
       if isDomainNameLabelSpecial z then String backslash (String (ascii_of_Z z) acc)
       else if (z <? 32) || (126 <? z) then escapeByte z +:+ acc
       else String (ascii_of_Z z) acc)
    "." label.

Definition maxDomainNameWireOctets : Z := 255.
Definition maxCompressionPointers : nat := 126.

(** The loop of [UnpackDomainName(msg, off)]: [s] is the name so far,
    [off1] the offset after the first pointer, [ptr] the number of
    pointers followed. *)
Fixpoint UnpackDomainName_loop (fuel : nat) (msg : list byte) (s : string)
    (off off1 : nat) (budget : Z) (ptr : nat) : error + (string * nat) :=
  match fuel with
  | O => inl dns.ErrLongDomain
  | S fuel' =>
      match drop off msg with
      | [] => inl dns.ErrBuf
      | cb :: rest =>
          let c := byte_to_Z cb in
          let off := S off in
          if Z.land c 0xC0 =? 0x00 then
            if c =? 0 then
              let off1 := if (ptr =? 0)%nat then off else off1 in
              inr (if String.eqb s "" then "." else s, off1)
            else if (length msg <? off + Z.to_nat c)%nat then inl dns.ErrBuf
            else if budget - (c + 1) <=? 0 then inl dns.ErrLongDomain
            else
              UnpackDomainName_loop fuel' msg
                (s +:+ presentLabel (take (Z.to_nat c) rest))
                (off + Z.to_nat c)%nat off1 (budget - (c + 1)) ptr
          else if Z.land c 0xC0 =? 0xC0 then
            match rest with
            | [] => inl dns.ErrBuf
            | c1 :: _ =>
                let off := S off in
                let off1 := if (ptr =? 0)%nat then off else off1 in
                if (maxCompressionPointers <? S ptr)%nat
                then inl (errorString "dns: too many compression pointers")
                else
                  UnpackDomainName_loop fuel' msg s
                    (Z.to_nat (Z.lor (Z.shiftl (Z.lxor c 0xC0) 8) (byte_to_Z c1)))
                    off1 budget (S ptr)
            end
          else inl dns.ErrRdata
      end
  end.

Definition UnpackDomainName (msg : list byte) (off : nat) : error + (string * nat) :=
  UnpackDomainName_loop 256 msg "" off 0 maxDomainNameWireOctets 0.

Definition unpackUint32 (msg : list byte) (off : nat) : error + (Z * nat) :=
  match drop off msg with
  | b0 :: b1 :: b2 :: b3 :: _ => inr (binary.BigEndian_Uint32 b0 b1 b2 b3, (off + 4)%nat)
  | _ => inl (errorString "dns: overflow unpacking uint32")
  end.

(** [unpackQuestion(msg, off)]. *)
Definition unpackQuestion (msg : list byte) (off : nat) : error + (dns.Question * nat) :=
  match UnpackDomainName msg off with
  | inl e => inl e
  | inr (name, off) =>
      if (off =? length msg)%nat then inr (dns.mkQuestion name 0 0, off)
      else
        match dns.unpackUint16 msg off with
        | inl e => inl e
        | inr (qtype, off) =>
            if (off =? length msg)%nat then inr (dns.mkQuestion name qtype 0, off)
            else
              match dns.unpackUint16 msg off with
              | inl e => inl e
              | inr (qclass, off) => inr (dns.mkQuestion name qtype qclass, off)
              end
        end
  end.

(** The question loop of [Msg.unpack]. *)
Fixpoint unpackQuestions (count : nat) (msg : list byte) (off : nat)
  : error + (list dns.Question * nat) :=
  match count with
  | O => inr ([], off)
  | S count' =>
      match unpackQuestion msg off with
      | inl e => inl e
      | inr (q, off') =>
          if (off' =? off)%nat then inr ([], off')
          else
            match unpackQuestions count' msg off' with
            | inl e => inl e
            | inr (qs, off'') => inr (q :: qs, off'')
            end
      end
  end.

(** [UnpackRR(msg, off)]: the header, then [Rdlength] octets of rdata. *)
Definition UnpackRR (msg : list byte) (off : nat) : error + (dns.RR * nat) :=
  match UnpackDomainName msg off with
  | inl e => inl e
  | inr (name, off) =>
  match dns.unpackUint16 msg off with
  | inl e => inl e
  | inr (rrtype, off) =>
  match dns.unpackUint16 msg off with
  | inl e => inl e
  | inr (class, off) =>
  match unpackUint32 msg off with
  | inl e => inl e
  | inr (ttl, off) =>
  match dns.unpackUint16 msg off with
  | inl e => inl e
  | inr (rdlength, off) =>
      if (length msg <? off + Z.to_nat rdlength)%nat
      then inl (errorString "dns: bad rdlength")
      else inr (dns.mkRR (dns.mkRR_Header name rrtype class ttl rdlength)
                         (take (Z.to_nat rdlength) (drop off msg)),
                (off + Z.to_nat rdlength)%nat)
  end end end end end.

(** [unpackRRslice(l, msg, off)]. *)
Fixpoint unpackRRslice (l : nat) (msg : list byte) (off : nat)
  : error + (list dns.RR * nat) :=
  match l with
  | O => inr ([], off)
  | S l' =>
      if (off =? length msg)%nat then inr ([], off)
      else
        match UnpackRR msg off with
        | inl e => inl e
        | inr (r, off') =>
            match unpackRRslice l' msg off' with
            | inl e => inl e
            | inr (rs, off'') => inr (r :: rs, off'')
            end
        end
  end.

Definition unpackSections (dh : dns.Header) (msg : list byte) (off : nat)
  : error + (list dns.Question * list dns.RR * list dns.RR * list dns.RR) :=
  match unpackQuestions (Z.to_nat (dns.Qdcount dh)) msg off with
  | inl e => inl e
  | inr (q, off) =>
  match unpackRRslice (Z.to_nat (dns.Ancount dh)) msg off with
  | inl e => inl e
  | inr (an, off) =>
  match unpackRRslice (Z.to_nat (dns.Nscount dh)) msg off with
  | inl e => inl e
  | inr (ns, off) =>
  match unpackRRslice (Z.to_nat (dns.Arcount dh)) msg off with
  | inl e => inl e
  | inr (ex, _) => inr (q, an, ns, ex)
  end end end end.

Definition isDigit (c : ascii) : bool :=
  let z := Z_of_ascii c in (48 <=? z) && (z <=? 57).

(** The labels of a name in presentation format: [cur] is the label
    being read, in reverse. A backslash takes the next character as it
    is, or three digits as the code of an octet. *)
Fixpoint splitLabels (fuel : nat) (s : string) (cur : list byte)
  : error + list (list byte) :=
  match fuel with
  | O => inl dns.ErrRdata
  | S fuel' =>
      match s with
      | EmptyString => inl (errorString "dns: domain must be fully qualified")
      | String c s' =>
          if Z_of_ascii c =? 92 then
            match s' with
            | String d1 (String d2 (String d3 s3)) =>
                if isDigit d1 && isDigit d2 && isDigit d3 then
                  splitLabels fuel' s3
                    (byte_of_Z ((Z_of_ascii d1 - 48) * 100 + (Z_of_ascii d2 - 48) * 10
                                + (Z_of_ascii d3 - 48)) :: cur)
                else splitLabels fuel' (String d2 (String d3 s3)) (byte_of_Z (Z_of_ascii d1) :: cur)
            | String d1 s1 => splitLabels fuel' s1 (byte_of_Z (Z_of_ascii d1) :: cur)
            | EmptyString => inl dns.ErrRdata
            end
          else if Z_of_ascii c =? 46 then
            match cur with
            | [] => inl dns.ErrRdata
            | _ =>
                if (63 <? length cur)%nat then inl dns.ErrRdata
                else
                  match s' with
                  | EmptyString => inr [rev cur]
                  | _ =>
                      match splitLabels fuel' s' [] with
                      | inl e => inl e
                      | inr labels => inr (rev cur :: labels)
                      end
                  end
            end
          else splitLabels fuel' s' (byte_of_Z (Z_of_ascii c) :: cur)
      end
  end.

(** [packDomainName(s, ...)] without compression. *)
Definition packDomainName (s : string) : error + list byte :=
  if String.eqb s "" then inr []
  else if String.eqb s "." then inr [x00]
  else
    match splitLabels (S (String.length s)) s [] with
    | inl e => inl e
    | inr labels =>
        inr (concat (map (fun l => byte_of_Z (len l) :: l) labels) ++ [x00])
    end.

Definition packQuestion (q : dns.Question) : error + list byte :=
  match packDomainName (dns.QName q) with
  | inl e => inl e
  | inr name =>
      inr (name ++ binary.BigEndian_PutUint16 (dns.Qtype q)
                ++ binary.BigEndian_PutUint16 (dns.Qclass q))
  end.

(** [packRR]: the header with the length of the rdata, then the rdata. *)
Definition packRR (rr : dns.RR) : error + list byte :=
  match packDomainName (dns.Name (dns.Hdr rr)) with
  | inl e => inl e
  | inr name =>
      if 65535 <? len (dns.Rdata rr) then inl dns.ErrRdata
      else
        inr (name ++ binary.BigEndian_PutUint16 (dns.Rrtype (dns.Hdr rr))
                  ++ binary.BigEndian_PutUint16 (dns.Class (dns.Hdr rr))
                  ++ binary.BigEndian_PutUint32 (dns.Ttl (dns.Hdr rr))
                  ++ binary.BigEndian_PutUint16 (len (dns.Rdata rr))
                  ++ dns.Rdata rr)
  end.

Fixpoint packAll {A} (pack : A -> error + list byte) (l : list A) : error + list byte :=
  match l with
  | [] => inr []
  | x :: l' =>
      match pack x with
      | inl e => inl e
      | inr b =>
          match packAll pack l' with
          | inl e => inl e
          | inr bs => inr (b ++ bs)
          end
      end
  end.

Definition packSections (m : dns.Msg) : error + list byte :=
  match packAll packQuestion (dns.Questions m) with
  | inl e => inl e
  | inr q =>
  match packAll packRR (dns.Answer m) with
  | inl e => inl e
  | inr an =>
  match packAll packRR (dns.Ns m) with
  | inl e => inl e
  | inr ns =>
  match packAll packRR (dns.Extra m) with
  | inl e => inl e
  | inr ex => inr (q ++ an ++ ns ++ ex)
  end end end end.

Definition Unpack : list byte -> error + dns.Msg := dns.Unpack unpackSections.
Definition Pack : dns.Msg -> error + list byte := dns.Pack packSections.

(** The fields of a line: runs of characters other than space and
    tab; a backslash keeps the character after it in the field. *)
Fixpoint fields (s : string) (cur : string) : list string :=
  let flush (rest : list string) :=
    if String.eqb cur "" then rest else String.rev cur :: rest in
  match s with
  | EmptyString => flush []
  | String c s' =>
      if Z_of_ascii c =? 92 then
        match s' with
        | String d s'' => fields s'' (String d (String c cur))
        | EmptyString => flush [String c EmptyString]
        end
      else if (Z_of_ascii c =? 32) || (Z_of_ascii c =? 9) then flush (fields s' "")
      else fields s' (String c cur)
  end.

(** One decimal field of a dotted quad: one to three digits, no leading
    zero before another digit, at most 255. *)
Definition decimalOctet (s : string) : option Z :=
  let digits := map Z_of_ascii (list_ascii_of_string s) in
  if forallb (fun d => (48 <=? d) && (d <=? 57)) digits then
    match digits with
    | [a] => Some (a - 48)
    | [a; b] => if a =? 48 then None else Some ((a - 48) * 10 + (b - 48))
    | [a; b; c] =>
        if a =? 48 then None
        else
          let v := (a - 48) * 100 + (b - 48) * 10 + (c - 48) in
          if v <=? 255 then Some v else None
    | _ => None
    end
  else None.

Fixpoint splitDots (s : string) (cur : string) : list string :=
  match s with
  | EmptyString => [String.rev cur]
  | String c s' =>
      if Z_of_ascii c =? 46 then String.rev cur :: splitDots s' ""
      else splitDots s' (String c cur)
  end.

(** [net.ParseIP] on a token without a colon: a dotted quad. *)
Definition parseIPv4 (s : string) : option (list byte) :=
  match map decimalOctet (splitDots s "") with
  | [Some a; Some b; Some c; Some d] =>
      Some [byte_of_Z a; byte_of_Z b; byte_of_Z c; byte_of_Z d]
  | _ => None
  end.

Definition defaultTtl : Z := 3600.

(** [NewRR(s)] for [s] of the form [owner A address]: the owner must be
    a fully qualified name, and the address an IPv4 literal (a token
    holding a colon is refused before anything else). *)
Definition NewRR (s : string) : error + dns.RR :=
  match fields s "" with
  | [owner; typ; addr] =>
      if negb (String.eqb typ "A")
      then inl (errorString "dns: not the line of an A record")
      else
        match packDomainName owner with
        | inl _ => inl (errorString "dns: bad owner name")
        | inr _ =>
            if hasColon addr then inl (errorString "dns: bad A A")
            else
              match parseIPv4 addr with
              | None => inl (errorString "dns: bad A A")
              | Some ip =>
                  inr (dns.mkRR (dns.mkRR_Header owner dns.TypeA dns.ClassINET
                                                 defaultTtl 0) ip)
              end
        end
  | _ => inl (errorString "dns: not the line of an A record")
  end.

End wire.


(** ** A handshake to run: the first flight of a TLS server

    The shape of what [crypto/tls] does with its connection up to and
    just after the hook: it reads one record, takes it for a ClientHello,
    finds the server name, calls [GetConfigForClient], and then fails on
    its first write. Scope: the ClientHello is taken to fit one record,
    and of its extensions only server_name is read. The properties
    about sniffing hold for every [Handshake]; this one serves the
    worked examples. *)

Module tls.

Definition recordHeaderLen : nat := 5.
Definition recordTypeAlert : Z := 21.
Definition recordTypeHandshake : Z := 22.
Definition typeClientHello : Z := 1.
Definition maxCiphertext : Z := 16384 + 2048.
Definition MinRead : nat := 512.

Definition alert (description : string) : error :=
  errorString ("local error: tls: " +:+ description).

(** [c.sendAlert(err)]: the alert record is written, and the alert is
    the error of the handshake whatever the write did. *)
Definition sendAlert (code : Z) (description : string) : Handshake :=
  hsWrite [byte_of_Z recordTypeAlert; x03; x03; x00; x02; x02; byte_of_Z code]
          (fun _ => hsReturn (Some (alert description))).

(** [c.readFromUntil(c.conn, n)]: reads until [n] octets are buffered. *)
Fixpoint readFromUntil (fuel n : nat) (rawInput : list byte)
    (k : error + list byte -> Handshake) : Handshake :=
  if (n <=? length rawInput)%nat then k (inr rawInput)
  else
    match fuel with
    | O => k (inl io.ErrNoProgress)
    | S fuel' =>
        hsRead (n - length rawInput + MinRead)%nat
          (fun res =>
             match snd res with
             | None => readFromUntil fuel' n (rawInput ++ fst res) k
             | Some e =>
                 if (n <=? length (rawInput ++ fst res))%nat
                 then k (inr (rawInput ++ fst res))
                 else if bool_decide (e = io.EOF)
                      then k (inl (if rawInput ++ fst res is []
                                   then io.EOF else io.ErrUnexpectedEOF))
                      else k (inl e)
             end)
    end.

(** A big-endian number of [n] octets at the head of [b], and the rest. *)
Fixpoint readUint (n : nat) (acc : Z) (b : list byte) : option (Z * list byte) :=
  match n with
  | O => Some (acc, b)
  | S n' =>
      match b with
      | [] => None
      | x :: b' => readUint n' (acc * 256 + byte_to_Z x) b'
      end
  end.

(** A vector with a length prefix of [n] octets: its body and the rest. *)
Definition readVector (n : nat) (b : list byte) : option (list byte * list byte) :=
  match readUint n 0 b with
  | None => None
  | Some (l, b') =>
      if (Z.to_nat l <=? length b')%nat
      then Some (take (Z.to_nat l) b', drop (Z.to_nat l) b')
      else None
  end.

(** The host name of a server_name extension. *)
Definition serverNameOf (ext : list byte) : option string :=
  match readVector 2 ext with
  | Some (names, []) =>
      match names with
      | nameType :: names' =>
          if byte_to_Z nameType =? 0 then
            match readVector 2 names' with
            | Some (name, _) =>
                if (0 <? length name)%nat then Some (string_of_bytes name) else None
            | None => None
            end
          else None
      | [] => None
      end
  | _ => None
  end.

(** The server name among the extensions; no extension of that type
    leaves the name empty. *)
Fixpoint findServerName (fuel : nat) (exts : list byte) : option string :=
  match exts with
  | [] => Some ""
  | _ =>
      match fuel with
      | O => None
      | S fuel' =>
          match readUint 2 0 exts with
          | None => None
          | Some (extType, rest) =>
              match readVector 2 rest with
              | None => None
              | Some (body, rest') =>
                  if extType =? 0 then serverNameOf body
                  else findServerName fuel' rest'
              end
          end
      end
  end.

(** [clientHelloMsg.unmarshal], as far as the server name. *)
Definition unmarshalClientHello (body : list byte) : option ClientHelloInfo :=
  match readUint 2 0 body with
  | None => None
  | Some (_, b) =>
      if (length b <? 32)%nat then None
      else
        match readVector 1 (drop 32 b) with
        | None => None
        | Some (_, b) =>
            match readVector 2 b with
            | None => None
            | Some (_, b) =>
                match readVector 1 b with
                | None => None
                | Some (_, []) => Some (mkClientHelloInfo "")
                | Some (_, b) =>
                    match readVector 2 b with
                    | Some (exts, []) =>
                        mkClientHelloInfo <$> findServerName (length exts) exts
                    | _ => None
                    end
                end
            end
        end
  end.

(** [tls.Server(conn, config).Handshake()]. *)
Definition serverHandshake (fuel : nat) : Handshake :=
  readFromUntil fuel recordHeaderLen []
    (fun r =>
       match r with
       | inl e => hsReturn (Some e)
       | inr raw =>
           match raw with
           | typ :: _ :: _ :: n1 :: n0 :: _ =>
               let n := binary.BigEndian_Uint16 n1 n0 in
               if negb (byte_to_Z typ =? recordTypeHandshake) then
                 sendAlert 10 "first record does not look like a TLS handshake"
               else if maxCiphertext <? n then sendAlert 22 "record overflow"
               else
                 readFromUntil fuel (recordHeaderLen + Z.to_nat n) raw
                   (fun r =>
                      match r with
                      | inl e => hsReturn (Some e)
                      | inr raw =>
                          let data := take (Z.to_nat n) (drop recordHeaderLen raw) in
                          match data with
                          | msgType :: rest =>
                              if negb (byte_to_Z msgType =? typeClientHello)
                              then sendAlert 10 "unexpected message"
                              else
                                match readVector 3 rest with
                                | Some (body, []) =>
                                    match unmarshalClientHello body with
                                    | Some hello =>
                                        hsGetConfigForClient hello
                                          (fun r =>
                                             match snd r with
                                             | Some e => sendAlert 80 "internal error"
                                             | None =>
                                                 sendAlert 80 "no certificates configured"
                                             end)
                                    | None => sendAlert 50 "error decoding message"
                                    end
                                | _ => sendAlert 10 "unexpected message"
                                end
                          | [] => sendAlert 10 "unexpected message"
                          end
                      end)
           | _ => hsReturn (Some io.ErrUnexpectedEOF)
           end
       end).

(** A ClientHello in one record, naming [serverName]: what a client
    sends first. *)
Definition uintBytes (n : nat) (v : Z) : list byte :=
  map (fun i => byte_of_Z (Z.shiftr v (8 * Z.of_nat i))) (rev (seq 0 n)).

Definition vector (n : nat) (body : list byte) : list byte :=
  uintBytes n (len body) ++ body.

Definition clientHello (serverName : string) : list byte :=
  let sni := vector 2 (x00 :: vector 2 (bytes_of_string serverName)) in
  let exts := uintBytes 2 0 ++ vector 2 sni in
  let body :=
    [x03; x03] ++ repeat x00 32 ++ vector 1 [] ++ vector 2 [x13; x01] ++
    vector 1 [x00] ++ vector 2 exts in
  let msg := byte_of_Z typeClientHello :: vector 3 body in
  [byte_of_Z recordTypeHandshake; x03; x01] ++ vector 2 msg.

End tls.

(** ** Vocabulary of the properties *)

(** [c'] is [c] after some reads: only [incoming] differs. *)
Definition afterReads (c c' : Conn) : Prop :=
  incomingEnd c' = incomingEnd c /\ outgoing c' = outgoing c /\
  writeFault c' = writeFault c /\ readDeadline c' = readDeadline c /\
  writeDeadline c' = writeDeadline c /\ closedWrite c' = closedWrite c /\
  closed c' = closed c.

(** [c'] is [c] after some writes: only [outgoing] and [writeFault] differ. *)
Definition afterWrites (c c' : Conn) : Prop :=
  incoming c' = incoming c /\ incomingEnd c' = incomingEnd c /\
  readDeadline c' = readDeadline c /\ writeDeadline c' = writeDeadline c /\
  closedWrite c' = closedWrite c /\ closed c' = closed c.

(** A connection that takes whatever is written to it. *)
Definition accepts (c : Conn) : Prop :=
  closed c = false /\ closedWrite c = false /\ writeFault c = None.


(** [c0] offers the same reads as [c], or the same writes. *)
Definition sameReads (c c0 : Conn) : Prop :=
  incoming c0 = incoming c /\ incomingEnd c0 = incomingEnd c /\ closed c0 = closed c.

Definition sameWrites (c c0 : Conn) : Prop :=
  outgoing c0 = outgoing c /\ writeFault c0 = writeFault c /\
  closed c0 = closed c /\ closedWrite c0 = closedWrite c.

(** The error of a read that was cut short after [got]: the error that
    ended the stream, with [io.EOF] turned into [io.ErrUnexpectedEOF]
    once something had been read. *)
Definition cutShort (got : list byte) (ended : option error) : error :=
  let e := default io.EOF ended in
  if (0 <? length got)%nat && bool_decide (e = io.EOF)
  then io.ErrUnexpectedEOF else e.

(** The response a handler has sent: its status, its content type and
    its body. *)
Definition responded (w : ResponseWriter) (status : Z) (contentType : string)
    (body : list byte) : Prop :=
  exists headers,
    rw_sent w = Some (status, headers) /\
    headers !! "Content-Type" = Some contentType /\
    rw_body w = body.

(** The writer a handler is given: nothing set, nothing sent. *)
Definition newResponseWriter : ResponseWriter := mkResponseWriter ∅ None [].

(** ** Worked examples: a node and its traffic *)

Module Example.

(** The configuration of section 8 of the specification. *)
Definition config : Config :=
  {| Host := "node.example.org";
     Domains := {[ "example.com" := "10.0.0.5" ]} |}.

(** The same node with an IPv6 address in its table. *)
Definition config6 : Config :=
  {| Host := "node.example.org";
     Domains := {[ "example.com" := "2001:db8::5" ]} |}.

(** A table with the empty key, for an IPv4 and for an IPv6 address. *)
Definition configAny : Config :=
  {| Host := "node.example.org";
     Domains := {[ "" := "10.0.0.9" ]} |}.

Definition configAny6 : Config :=
  {| Host := "node.example.org";
     Domains := {[ "" := "2001:db8::9" ]} |}.

(** A standard query for the A records of a name given by its labels:
    identifier [0x1234], recursion desired, one question. *)
Definition query (labels : list string) : list byte :=
  [x12; x34; x01; x00; x00; x01; x00; x00; x00; x00; x00; x00] ++
  concat (map (fun l => byte_of_Z (Z.of_nat (String.length l)) :: bytes_of_string l)
              labels) ++
  [x00; x00; x01; x00; x01].

(** An upstream that cannot be reached, one that answers with the
    given octets, and one whose answer is as long as 65536 octets. *)
Definition unreachable : PostCall -> PostReply :=
  fun _ => PostFailed (errorString "dial tcp 1.1.1.1:443: connect: network is unreachable").

Definition answering (body : list byte) : PostCall -> PostReply :=
  fun _ => PostResponded 200 body None.

Definition oversized : list byte := repeat x00 (Z.to_nat 65536).

(** A token bucket while no time passes: each admission takes a token. *)
Definition Bucket : Type := nat.

Definition Bucket_Allow (tokens : Bucket) : bool * Bucket :=
  match tokens with
  | O => (false, O)
  | S n => (true, n)
  end.

(** A connection just accepted or just dialled: the peer will send the
    given pieces and then end the stream. *)
Definition connected (segments : list (list byte)) : Conn :=
  mkConn segments None [] None zeroTime zeroTime false false.

(** A DoT frame: the length in two octets, then the message. *)
Definition frame (msg : list byte) : list byte :=
  binary.BigEndian_PutUint16 (len msg) ++ msg.

(** A network in which every name can be dialled and the backend takes
    whatever it is sent, saying nothing itself. *)
Definition reachable : string -> string -> error + Conn :=
  fun _ _ => inr (connected []).

Definition now : Time := instant 0.

End Example.

(** * Properties *)

(** ** Octets and 16-bit fields *)

Lemma byte_to_Z_range (b : byte) : 0 <= byte_to_Z b < 256.
Proof.
  unfold byte_to_Z. pose proof (Byte.to_N_bounded b). lia.
Qed.

Lemma byte_to_of_Z (z : Z) : byte_to_Z (byte_of_Z z) = z mod 256.
Proof.
  unfold byte_to_Z, byte_of_Z.
  pose proof (Z.mod_pos_bound z 256 ltac:(lia)) as Hz.
  destruct (Byte.of_N (Z.to_N (z mod 256))) as [b|] eqn:Hb.
  - apply Byte.to_of_N in Hb. rewrite Hb. lia.
  - apply Byte.of_N_None_iff in Hb. lia.
Qed.

Lemma byte_of_to_Z (b : byte) : byte_of_Z (byte_to_Z b) = b.
Proof.
  unfold byte_of_Z. pose proof (byte_to_Z_range b) as Hb.
  rewrite Z.mod_small by lia. unfold byte_to_Z.
  rewrite N2Z.id, Byte.of_to_N. reflexivity.
Qed.

(** [lo | hi<<8] adds up when [lo] is one octet. *)
Lemma lor_shiftl_8 (lo hi : Z) :
  0 <= lo < 256 -> 0 <= hi -> Z.lor lo (Z.shiftl hi 8) = lo + hi * 256.
Proof.
  intros Hlo Hhi. rewrite Z.shiftl_mul_pow2 by lia.
  rewrite <- Z.add_nocarry_lor; [reflexivity|].
  apply Z.bits_inj'. intros n Hn. rewrite Z.land_spec, Z.bits_0.
  destruct (Z.lt_ge_cases n 8) as [Hlt|Hge].
  - rewrite Z.mul_pow2_bits_low by lia. apply andb_false_r.
  - replace (Z.testbit lo n) with false; [reflexivity|].
    symmetry. destruct (Z.eq_dec lo 0) as [->|Hne]; [apply Z.bits_0|].
    apply Z.bits_above_log2; [lia|].
    apply Z.lt_le_trans with 8; [|lia].
    apply Z.log2_lt_pow2; [lia|]. change (2 ^ 8) with 256. lia.
Qed.

Lemma Uint16_range (b0 b1 : byte) : 0 <= binary.BigEndian_Uint16 b0 b1 < 65536.
Proof.
  unfold binary.BigEndian_Uint16.
  pose proof (byte_to_Z_range b0). pose proof (byte_to_Z_range b1).
  rewrite lor_shiftl_8 by lia. lia.
Qed.

(** A 16-bit value written by [PutUint16] is read back by [Uint16]. *)
Lemma Uint16_PutUint16 (v : Z) :
  0 <= v < 65536 ->
  exists b0 b1, binary.BigEndian_PutUint16 v = [b0; b1] /\
                binary.BigEndian_Uint16 b0 b1 = v.
Proof.
  intros Hv. unfold binary.BigEndian_PutUint16. eexists _, _. split; [reflexivity|].
  unfold binary.BigEndian_Uint16.
  rewrite !byte_to_of_Z, Z.shiftr_div_pow2 by lia. change (2 ^ 8) with 256.
  assert (0 <= v / 256 < 256)
    by (split; [apply Z.div_pos; lia | apply Z.div_lt_upper_bound; lia]).
  rewrite (Z.mod_small (v / 256)) by lia.
  rewrite lor_shiftl_8 by (try apply Z.mod_pos_bound; lia).
  pose proof (Z.div_mod v 256 ltac:(lia)). lia.
Qed.

(** And the two octets [PutUint16] writes are the ones [Uint16] was read from. *)
Lemma PutUint16_Uint16 (b0 b1 : byte) :
  binary.BigEndian_PutUint16 (binary.BigEndian_Uint16 b0 b1) = [b0; b1].
Proof.
  unfold binary.BigEndian_PutUint16, binary.BigEndian_Uint16.
  pose proof (byte_to_Z_range b0) as H0. pose proof (byte_to_Z_range b1) as H1.
  rewrite lor_shiftl_8 by lia.
  rewrite Z.shiftr_div_pow2 by lia. change (2 ^ 8) with 256.
  replace ((byte_to_Z b1 + byte_to_Z b0 * 256) / 256) with (byte_to_Z b0)
    by (apply Z.div_unique with (r := byte_to_Z b1); lia).
  rewrite byte_of_to_Z. f_equal. f_equal.
  rewrite <- (byte_of_to_Z b1) at 2. unfold byte_of_Z.
  rewrite Z_mod_plus_full. reflexivity.
Qed.

(** ** [strings] *)

Lemma append_String (c : ascii) (s t : string) :
  String c s +:+ t = String c (s +:+ t).
Proof. reflexivity. Qed.

Lemma append_empty_l (t : string) : "" +:+ t = t.
Proof. reflexivity. Qed.

Lemma HasPrefix_spec (s p : string) :
  strings.HasPrefix s p = true <-> exists t, s = p +:+ t.
Proof.
  revert s. induction p as [|c p IH]; intros s; simpl.
  - split; [intros _; exists s; reflexivity | intros _; destruct s; reflexivity].
  - destruct s as [|d s]; simpl.
    + split; [discriminate | intros [t Ht]; discriminate].
    + destruct (ascii_dec d c) as [->|Hne].
      * rewrite IH. split; intros [t Ht]; exists t;
          rewrite ?append_String in *; congruence.
      * split; [discriminate | intros [t Ht]; rewrite append_String in Ht; congruence].
Qed.

Lemma Contains_nil (sub : string) :
  strings.Contains "" sub = strings.HasPrefix "" sub.
Proof. simpl. apply orb_false_r. Qed.

Lemma Contains_String (c : ascii) (s sub : string) :
  strings.Contains (String c s) sub =
  strings.HasPrefix (String c s) sub || strings.Contains s sub.
Proof. reflexivity. Qed.

(** [Contains] is the substring relation. *)
Lemma Contains_spec (s sub : string) :
  strings.Contains s sub = true <-> exists a b, s = a +:+ sub +:+ b.
Proof.
  induction s as [|c s IH].
  - rewrite Contains_nil, HasPrefix_spec. split.
    + intros [t Ht]. exists "", t. exact Ht.
    + intros [a [b Hab]]. destruct a; [exists b; exact Hab | discriminate].
  - rewrite Contains_String, orb_true_iff, HasPrefix_spec, IH. split.
    + intros [[t Ht] | [a [b Hab]]].
      * exists "", t. exact Ht.
      * exists (String c a), b. rewrite append_String. congruence.
    + intros [a [b Hab]]. destruct a as [|d a].
      * left. exists b. exact Hab.
      * right. exists a, b. rewrite append_String in Hab. congruence.
Qed.

Lemma Contains_empty (s : string) : strings.Contains s "" = true.
Proof. destruct s; reflexivity. Qed.

Lemma ToLower_empty (unicodeLower : string -> string) :
  strings.ToLower unicodeLower "" = "".
Proof. reflexivity. Qed.

(** On ASCII text [ToLower] keeps the length and changes upper-case
    letters only. *)
Lemma mapASCII_length (f : ascii -> ascii) (s : string) :
  String.length (strings.mapASCII f s) = String.length s.
Proof. induction s; simpl; congruence. Qed.

(** ** [findValueByKeyContains] *)

Section FindValueProps.
Variable unicodeLower : string -> string.

Local Abbreviation find := (findValueByKeyContains unicodeLower).
Local Abbreviation matches := (keyMatches unicodeLower).

(** The first entry of the iteration whose key matches wins. *)
Lemma find_first_match (pre post : list (string * string)) (key value name : string) :
  Forall (fun kv => matches name kv.1 = false) pre ->
  matches name key = true ->
  find (pre ++ (key, value) :: post) name = (value, true).
Proof.
  unfold keyMatches. induction pre as [|[k v] pre IH]; intros Hpre Hkey; simpl.
  - rewrite Hkey. reflexivity.
  - inversion Hpre as [|? ? Hk Hrest]; subst. simpl in Hk. rewrite Hk.
    apply IH; assumption.
Qed.

Lemma find_no_match (it : list (string * string)) (name : string) :
  Forall (fun kv => matches name kv.1 = false) it ->
  find it name = ("", false).
Proof.
  unfold keyMatches. induction it as [|[k v] it IH]; intros Hit; simpl.
  - reflexivity.
  - inversion Hit as [|? ? Hk Hrest]; subst. simpl in Hk. rewrite Hk. auto.
Qed.

(** Every answer of the search, read backwards. *)
Lemma find_inv (it : list (string * string)) (name value : string) (ok : bool) :
  find it name = (value, ok) ->
  (ok = true /\ exists pre key post,
      it = pre ++ (key, value) :: post /\
      Forall (fun kv => matches name kv.1 = false) pre /\
      matches name key = true) \/
  (ok = false /\ value = "" /\ Forall (fun kv => matches name kv.1 = false) it).
Proof.
  unfold keyMatches. revert value ok. induction it as [|[k v] it IH]; intros value ok; simpl.
  - intros [= <- <-]. right. auto.
  - destruct (strings.Contains _ _) eqn:Hk.
    + intros [= <- <-]. left. split; [reflexivity|].
      exists [], k, it. auto.
    + intros Hfind. destruct (IH _ _ Hfind) as [[-> (pre & key & post & -> & Hpre & Hkey)] | (-> & -> & Hall)].
      * left. split; [reflexivity|]. exists ((k, v) :: pre), key, post.
        split; [reflexivity|]. split; [constructor; assumption | assumption].
      * right. split; [reflexivity|]. split; [reflexivity|]. constructor; assumption.
Qed.

(** An entry that matches anywhere in the iteration makes the search succeed. *)
Lemma find_some_match (it : list (string * string)) (name key value : string) :
  (key, value) ∈ it -> matches name key = true ->
  exists v, find it name = (v, true).
Proof.
  intros Hin Hkey. destruct (find it name) as [v ok] eqn:Hfind.
  destruct (find_inv _ _ _ _ Hfind) as [[-> _] | (-> & _ & Hall)].
  - exists v. reflexivity.
  - rewrite Forall_forall in Hall. specialize (Hall _ Hin). simpl in Hall. congruence.
Qed.

End FindValueProps.

(** What a [range] over the table visits is what the table holds. *)
Lemma ranges_elem_of (m : gmap string string) (it : list (string * string)) (k v : string) :
  ranges m it -> ((k, v) ∈ it <-> m !! k = Some v).
Proof.
  unfold ranges. intros Hperm. rewrite Hperm. apply elem_of_map_to_list.
Qed.

Lemma ranges_map_to_list (m : gmap string string) : ranges m (map_to_list m).
Proof. unfold ranges. reflexivity. Qed.

(** ** [processDNSQuery] *)

Section ResolverProps.

Variable unicodeLower : string -> string.
Variable Unpack : list byte -> error + dns.Msg.
Variable NewRR : string -> error + dns.RR.
Variable Pack : dns.Msg -> error + list byte.
Variable upstream : PostCall -> PostReply.

Local Abbreviation resolve :=
  (processDNSQuery unicodeLower Unpack NewRR Pack upstream).

(** The local branch: the record is built and the message packed, with
    no request sent upstream. *)
Lemma processDNSQuery_matched (it : list (string * string)) (query : list byte)
    (net : list PostCall) (msg : dns.Msg) (q0 : dns.Question)
    (qs : list dns.Question) (ip : string) :
  Unpack query = inr msg ->
  dns.Questions msg = q0 :: qs ->
  findValueByKeyContains unicodeLower it (dns.QName q0) = (ip, true) ->
  resolve it query net =
    (match NewRR (dns.QName q0 +:+ " A " +:+ ip) with
     | inl err => ([], Some err)
     | inr rr =>
         match Pack (appendAnswer msg rr) with
         | inl err => ([], Some err)
         | inr packed => (packed, None)
         end
     end, net).
Proof.
  intros Hmsg Hq Hfind. unfold processDNSQuery. rewrite Hmsg, Hq, Hfind.
  destruct (NewRR _) as [err|rr]; [reflexivity|].
  destruct (Pack _) as [err|packed]; reflexivity.
Qed.

(** The forwarding branch: one request, and the reply as it came. *)
Lemma processDNSQuery_unmatched (it : list (string * string)) (query : list byte)
    (net : list PostCall) (msg : dns.Msg) (q0 : dns.Question)
    (qs : list dns.Question) (v : string) :
  Unpack query = inr msg ->
  dns.Questions msg = q0 :: qs ->
  findValueByKeyContains unicodeLower it (dns.QName q0) = (v, false) ->
  resolve it query net =
    (match upstream (upstreamCall query) with
     | PostFailed err => ([], Some err)
     | PostResponded _ body bodyErr => (body, bodyErr)
     end, net ++ [upstreamCall query]).
Proof.
  intros Hmsg Hq Hfind. unfold processDNSQuery. rewrite Hmsg, Hq, Hfind.
  destruct (upstream _); reflexivity.
Qed.

(** A query that does not unpack, or that has no question, fails
    without any request. *)
Lemma processDNSQuery_rejects (it : list (string * string)) (query : list byte)
    (net : list PostCall) :
  (forall msg, Unpack query = inr msg -> dns.Questions msg = []) ->
  exists err, resolve it query net = (([], Some err), net).
Proof.
  intros Hno. unfold processDNSQuery. destruct (Unpack query) as [err|msg] eqn:Hmsg.
  - exists err. reflexivity.
  - rewrite (Hno msg eq_refl). eexists. reflexivity.
Qed.

(** Requests are only ever added, and at most one per query. *)
Lemma processDNSQuery_net (it : list (string * string)) (query : list byte)
    (net : list PostCall) :
  snd (resolve it query net) = net \/
  snd (resolve it query net) = net ++ [upstreamCall query].
Proof.
  unfold processDNSQuery. destruct (Unpack query) as [err|msg]; [left; reflexivity|].
  destruct (dns.Questions msg) as [|q0 qs]; [left; reflexivity|].
  destruct (findValueByKeyContains _ _ _) as [ip [|]].
  - left. destruct (NewRR _); [reflexivity|]. destruct (Pack _); reflexivity.
  - right. destruct (upstream _); reflexivity.
Qed.

End ResolverProps.

(** C1, as amended. When the lower-cased name of the first question
    contains the lower-cased key of an entry of the table, and no entry
    visited before it matches, [processDNSQuery] works locally and sends
    nothing upstream: it builds the record the library parses from the
    line [name A address] for that entry's address, appends it to the
    answers of the unpacked query and returns the packed message; when
    the line does not parse, or the message does not pack, it fails with
    that error instead. *)
Theorem processDNSQuery_override_answers_locally
    (unicodeLower : string -> string)
    (Unpack : list byte -> error + dns.Msg) (NewRR : string -> error + dns.RR)
    (Pack : dns.Msg -> error + list byte) (upstream : PostCall -> PostReply)
    (config : Config) (it pre post : list (string * string)) (key addr : string)
    (query : list byte) (net : list PostCall)
    (msg : dns.Msg) (q0 : dns.Question) (qs : list dns.Question) :
  ranges (Domains config) it ->
  Unpack query = inr msg ->
  dns.Questions msg = q0 :: qs ->
  it = pre ++ (key, addr) :: post ->
  Forall (fun kv => keyMatches unicodeLower (dns.QName q0) kv.1 = false) pre ->
  keyMatches unicodeLower (dns.QName q0) key = true ->
  let run := processDNSQuery unicodeLower Unpack NewRR Pack upstream it query net in
  let line := dns.QName q0 +:+ " A " +:+ addr in
  Domains config !! key = Some addr /\
  snd run = net /\
  (forall rr packed,
      NewRR line = inr rr -> Pack (appendAnswer msg rr) = inr packed ->
      fst run = (packed, None) /\
      dns.Answer (appendAnswer msg rr) = dns.Answer msg ++ [rr] /\
      dns.hdr (appendAnswer msg rr) = dns.hdr msg /\
      dns.Questions (appendAnswer msg rr) = dns.Questions msg) /\
  (forall err, NewRR line = inl err -> fst run = ([], Some err)) /\
  (forall rr err,
      NewRR line = inr rr -> Pack (appendAnswer msg rr) = inl err ->
      fst run = ([], Some err)).
Proof.
  intros Hit Hmsg Hq -> Hpre Hkey run line.
  assert (Hfind : findValueByKeyContains unicodeLower
                    (pre ++ (key, addr) :: post) (dns.QName q0) = (addr, true))
    by (apply find_first_match; assumption).
  assert (Hrun : run = _) by (apply (processDNSQuery_matched _ _ _ _ _ _ _ _ _ _ _ _ Hmsg Hq Hfind)).
  fold line in Hrun. split.
  { apply (ranges_elem_of _ _ _ _ Hit), elem_of_app. right. apply elem_of_cons. left. reflexivity. }
  rewrite Hrun. split; [reflexivity|]. split; [|split].
  - intros rr packed -> ->. repeat split; reflexivity.
  - intros err ->. reflexivity.
  - intros rr err -> ->. reflexivity.
Qed.

(** C6. When no key of the table matches the name of the first
    question, [processDNSQuery] sends exactly one request: a POST of the
    query octets as they came to [https://1.1.1.1/dns-query] with the
    DNS-message content type. It returns the octets of the reply's body
    as they came, and fails when the request fails (or the body breaks
    off), without a second request. *)
Theorem processDNSQuery_forwards_unmatched
    (unicodeLower : string -> string)
    (Unpack : list byte -> error + dns.Msg) (NewRR : string -> error + dns.RR)
    (Pack : dns.Msg -> error + list byte) (upstream : PostCall -> PostReply)
    (config : Config) (it : list (string * string))
    (query : list byte) (net : list PostCall)
    (msg : dns.Msg) (q0 : dns.Question) (qs : list dns.Question) :
  ranges (Domains config) it ->
  Unpack query = inr msg ->
  dns.Questions msg = q0 :: qs ->
  (forall key addr, Domains config !! key = Some addr ->
                    keyMatches unicodeLower (dns.QName q0) key = false) ->
  let run := processDNSQuery unicodeLower Unpack NewRR Pack upstream it query net in
  let call := {| post_url := "https://1.1.1.1/dns-query";
                 post_contentType := "application/dns-message";
                 post_body := query |} in
  snd run = net ++ [call] /\
  (forall status body bodyErr,
      upstream call = PostResponded status body bodyErr -> fst run = (body, bodyErr)) /\
  (forall err, upstream call = PostFailed err -> fst run = ([], Some err)).
Proof.
  intros Hit Hmsg Hq Hnone run call.
  assert (Hall : Forall (fun kv => keyMatches unicodeLower (dns.QName q0) kv.1 = false) it).
  { apply Forall_forall. intros [k v] Hin. simpl.
    apply (Hnone k v), (ranges_elem_of _ _ _ _ Hit), Hin. }
  assert (Hrun : run = _)
    by (apply (processDNSQuery_unmatched _ _ _ _ _ _ _ _ _ _ _ _ Hmsg Hq
                 (find_no_match _ _ _ Hall))).
  change (upstreamCall query) with call in Hrun. rewrite Hrun.
  split; [reflexivity|]. split.
  - intros status body bodyErr ->. reflexivity.
  - intros err ->. reflexivity.
Qed.

(** C9, as amended. With the empty string among the keys of the table,
    the search succeeds for the first question of every query that
    unpacks, in every order of iteration: the query is handled by the
    local branch, with the address of an entry whose key matches, and
    nothing is sent upstream, whatever the upstream would have said. The
    query is answered when the line [name A address] parses and the
    message packs, and fails with that error otherwise. *)
Theorem processDNSQuery_empty_key_never_forwards
    (unicodeLower : string -> string)
    (Unpack : list byte -> error + dns.Msg) (NewRR : string -> error + dns.RR)
    (Pack : dns.Msg -> error + list byte) (upstream : PostCall -> PostReply)
    (config : Config) (it : list (string * string)) (addr0 : string)
    (query : list byte) (net : list PostCall)
    (msg : dns.Msg) (q0 : dns.Question) (qs : list dns.Question) :
  Domains config !! "" = Some addr0 ->
  ranges (Domains config) it ->
  Unpack query = inr msg ->
  dns.Questions msg = q0 :: qs ->
  let run := processDNSQuery unicodeLower Unpack NewRR Pack upstream it query net in
  exists key addr,
    Domains config !! key = Some addr /\
    keyMatches unicodeLower (dns.QName q0) key = true /\
    findValueByKeyContains unicodeLower it (dns.QName q0) = (addr, true) /\
    snd run = net /\
    (forall upstream',
        processDNSQuery unicodeLower Unpack NewRR Pack upstream' it query net = run) /\
    (forall rr packed,
        NewRR (dns.QName q0 +:+ " A " +:+ addr) = inr rr ->
        Pack (appendAnswer msg rr) = inr packed ->
        fst run = (packed, None)) /\
    (forall err,
        NewRR (dns.QName q0 +:+ " A " +:+ addr) = inl err ->
        fst run = ([], Some err)) /\
    (forall rr err,
        NewRR (dns.QName q0 +:+ " A " +:+ addr) = inr rr ->
        Pack (appendAnswer msg rr) = inl err ->
        fst run = ([], Some err)).
Proof.
  intros Hempty Hit Hmsg Hq run.
  assert (Hin : ("", addr0) ∈ it) by (apply (ranges_elem_of _ _ _ _ Hit), Hempty).
  assert (Hm : keyMatches unicodeLower (dns.QName q0) "" = true)
    by (unfold keyMatches; rewrite ToLower_empty; apply Contains_empty).
  destruct (find_some_match unicodeLower _ _ _ _ Hin Hm) as [addr Hfind].
  destruct (find_inv _ _ _ _ _ Hfind) as [[_ (pre & key & post & Hsplit & _ & Hkey)] | [Hf _]];
    [|discriminate].
  exists key, addr. split.
  { apply (ranges_elem_of _ _ _ _ Hit). rewrite Hsplit.
    apply elem_of_app. right. apply elem_of_cons. left. reflexivity. }
  split; [exact Hkey|]. split; [exact Hfind|].
  assert (Hrun : run = _) by (apply (processDNSQuery_matched _ _ _ _ _ _ _ _ _ _ _ _ Hmsg Hq Hfind)).
  rewrite Hrun. split; [reflexivity|]. split; [|split; [|split]].
  - intros upstream'.
    apply (processDNSQuery_matched _ _ _ _ upstream' _ _ _ _ _ _ _ Hmsg Hq Hfind).
  - intros rr packed -> ->. reflexivity.
  - intros err ->. reflexivity.
  - intros rr err -> ->. reflexivity.
Qed.

(** ** The header of a message through [Unpack] and [Pack] *)

(** One flag of the header word, read by [setHdr] and put back by [Pack]. *)
Lemma flag_bitSet (bits k : Z) :
  0 <= k ->
  dns.flag (dns.bitSet bits (Z.shiftl 1 k)) (Z.shiftl 1 k) = Z.land bits (Z.shiftl 1 k).
Proof.
  intros Hk. unfold dns.flag, dns.bitSet.
  destruct (Z.eqb_spec (Z.land bits (Z.shiftl 1 k)) 0) as [H0|Hne]; simpl.
  - symmetry. exact H0.
  - rewrite Z.shiftl_1_l in *. symmetry. apply Z.bits_inj'. intros n Hn.
    rewrite Z.land_spec, Z.pow2_bits_eqb by lia.
    destruct (Z.eqb_spec k n) as [->|Hkn]; [|apply andb_false_r].
    rewrite andb_true_r. destruct (Z.testbit bits n) eqn:Hb; [reflexivity|].
    exfalso. apply Hne. apply Z.bits_inj'. intros i Hi.
    rewrite Z.land_spec, Z.pow2_bits_eqb, Z.bits_0 by lia.
    destruct (Z.eqb_spec n i) as [->|]; [rewrite Hb; reflexivity | apply andb_false_r].
Qed.

Lemma testbit_land_flag (bits k n : Z) :
  0 <= k -> 0 <= n ->
  Z.testbit (Z.land bits (Z.shiftl 1 k)) n = Z.testbit bits n && (k =? n).
Proof.
  intros Hk Hn. rewrite Z.land_spec, Z.shiftl_1_l, Z.pow2_bits_eqb by lia. reflexivity.
Qed.

(** The extended rcode of an OPT record leaves the four low bits alone. *)
Lemma land_ExtendedRcode (rc : Z) (opt : dns.RR) :
  Z.land (Z.lor rc (dns.ExtendedRcode opt)) 15 = Z.land rc 15.
Proof.
  unfold dns.ExtendedRcode. apply Z.bits_inj'. intros n Hn.
  rewrite !Z.land_spec, Z.lor_spec. change 15 with (Z.ones 4).
  rewrite Z.testbit_ones_nonneg by lia.
  destruct (Z.ltb_spec n 4) as [Hlt|Hge]; [|rewrite !andb_false_r; reflexivity].
  rewrite Z.shiftl_spec_low by lia. rewrite orb_false_r. reflexivity.
Qed.

(** [Pack] rebuilds the header word that [setHdr] took apart. *)
Lemma headerBits_setHdr (dh : dns.Header) (rc : Z) :
  0 <= dns.Bits dh < 65536 ->
  Z.land rc 15 = Z.land (dns.Bits dh) 15 ->
  dns.headerBits (dns.withRcode (dns.setHdr dh) rc) = dns.Bits dh.
Proof.
  intros Hb Hrc. unfold dns.headerBits, dns.withRcode, dns.setHdr. simpl.
  set (B := dns.Bits dh) in *.
  unfold dns._QR, dns._AA, dns._TC, dns._RD, dns._RA, dns._Z, dns._AD, dns._CD.
  rewrite !flag_bitSet by lia. rewrite Hrc.
  assert (Hop : 0 <= Z.land (Z.shiftr B 11) 15 <= 15).
  { change 15 with (Z.ones 4) at 1 2. rewrite Z.land_ones by lia.
    pose proof (Z.mod_pos_bound (Z.shiftr B 11) (2 ^ 4) ltac:(lia)).
    change (Z.ones 4) with 15. change (2 ^ 4) with 16 in *. lia. }
  assert (Hrc4 : 0 <= Z.land B 15 <= 15).
  { change 15 with (Z.ones 4) at 1 2. rewrite Z.land_ones by lia.
    pose proof (Z.mod_pos_bound B (2 ^ 4) ltac:(lia)).
    change (Z.ones 4) with 15. change (2 ^ 4) with 16 in *. lia. }
  unfold uint16.
  rewrite (Z.mod_small (Z.land (Z.shiftr B 11) 15)) by lia.
  rewrite (Z.mod_small (Z.shiftl _ 11))
    by (rewrite Z.shiftl_mul_pow2 by lia; change (2 ^ 11) with 2048; lia).
  rewrite (Z.mod_small (Z.land B 15)) by lia.
  apply Z.bits_inj'. intros n Hn.
  rewrite !Z.lor_spec, !testbit_land_flag by lia.
  destruct (Z.ltb_spec n 16) as [Hlt|Hge].
  - destruct n as [|p|p]; [| |lia].
    + rewrite ?Z.shiftl_spec, ?Z.land_spec, ?Z.shiftr_spec by lia; simpl;
        rewrite ?andb_true_r, ?andb_false_r, ?orb_false_r; reflexivity.
    + do 4 (try destruct p as [p|p|]); try lia;
        rewrite ?Z.shiftl_spec, ?Z.land_spec, ?Z.shiftr_spec by lia; simpl;
        rewrite ?andb_true_r, ?andb_false_r, ?orb_false_r; reflexivity.
  - assert (HB : Z.testbit B n = false).
    { destruct (Z.eq_dec B 0) as [->|Hne]; [apply Z.bits_0|].
      apply Z.bits_above_log2; [lia|].
      apply Z.lt_le_trans with 16; [|lia].
      apply Z.log2_lt_pow2; [lia|]. change (2 ^ 16) with 65536. lia. }
    rewrite HB. rewrite Z.shiftl_spec, !Z.land_spec by lia. rewrite HB. simpl.
    rewrite Z.shiftr_spec by lia. replace (n - 11 + 11) with n by lia. rewrite HB.
    reflexivity.
Qed.

Lemma Rcode_setHdr (dh : dns.Header) :
  dns.setHdr dh = dns.withRcode (dns.setHdr dh) (Z.land (dns.Bits dh) 15).
Proof. reflexivity. Qed.

(** A header that unpacks was read from the first twelve octets. *)
Lemma unpackMsgHdr_inv (msg : list byte) (dh : dns.Header) (off : nat) :
  dns.unpackMsgHdr msg 0 = inr (dh, off) ->
  exists b0 b1 b2 b3 rest,
    msg = b0 :: b1 :: b2 :: b3 :: rest /\
    dns.hId dh = binary.BigEndian_Uint16 b0 b1 /\
    dns.Bits dh = binary.BigEndian_Uint16 b2 b3.
Proof.
  unfold dns.unpackMsgHdr, dns.unpackUint16.
  destruct msg as [|b0 [|b1 [|b2 [|b3 rest]]]]; simpl; try discriminate.
  repeat (destruct (drop _ _) as [|? [|? ?]]; try discriminate).
  intros [= <- _]. exists b0, b1, b2, b3, rest. auto.
Qed.

Lemma inr_inj {A B : Type} (x y : B) : @inr A B x = inr y -> x = y.
Proof. intros Heq. injection Heq as ->. reflexivity. Qed.

Lemma take4_packHeader (m : dns.Msg) (body : list byte) :
  take 4 (dns.packHeader (dns.headerOf m) ++ body) =
    binary.BigEndian_PutUint16 (dns.Id (dns.hdr m)) ++
    binary.BigEndian_PutUint16 (dns.headerBits (dns.hdr m)).
Proof. reflexivity. Qed.

Section HeaderProps.

Variable unpackSections :
  dns.Header -> list byte -> nat ->
  error + (list dns.Question * list dns.RR * list dns.RR * list dns.RR).
Variable packSections : dns.Msg -> error + list byte.

(** The identifier and the header word of an unpacked message. *)
Lemma Unpack_header (msg : list byte) (m : dns.Msg) :
  dns.Unpack unpackSections msg = inr m ->
  exists b0 b1 b2 b3 rest,
    msg = b0 :: b1 :: b2 :: b3 :: rest /\
    dns.Id (dns.hdr m) = binary.BigEndian_Uint16 b0 b1 /\
    dns.headerBits (dns.hdr m) = binary.BigEndian_Uint16 b2 b3.
Proof.
  unfold dns.Unpack. destruct (dns.unpackMsgHdr msg 0) as [e|[dh off]] eqn:Hh; [discriminate|].
  destruct (unpackMsgHdr_inv _ _ _ Hh) as (b0 & b1 & b2 & b3 & rest & -> & Hid & Hbits).
  pose proof (Uint16_range b2 b3) as Hr. rewrite <- Hbits in Hr.
  intros Hm. exists b0, b1, b2, b3, rest. split; [reflexivity|].
  assert (Hplain : dns.headerBits (dns.setHdr dh) = dns.Bits dh)
    by (rewrite Rcode_setHdr; apply headerBits_setHdr;
        [exact Hr | rewrite <- Z.land_assoc; reflexivity]).
  destruct (_ =? _)%nat.
  - injection Hm as <-. simpl. rewrite Hplain. auto.
  - destruct (unpackSections dh _ off) as [e|[[[q an] ns] ex]]; [discriminate|].
    destruct (dns.IsEdns0 _) as [[i opt]|].
    + injection Hm as <-. simpl. split; [exact Hid|]. rewrite <- Hbits.
      apply headerBits_setHdr; [exact Hr|]. rewrite land_ExtendedRcode. simpl.
      rewrite <- Z.land_assoc. reflexivity.
    + injection Hm as <-. simpl. rewrite Hplain. auto.
Qed.

(** What [Pack] returns starts with the identifier and the header word
    of the message. *)
Lemma Pack_header (m : dns.Msg) (packed : list byte) :
  dns.Pack packSections m = inr packed ->
  take 4 packed =
    binary.BigEndian_PutUint16 (dns.Id (dns.hdr m)) ++
    binary.BigEndian_PutUint16 (dns.headerBits (dns.hdr m)).
Proof.
  unfold dns.Pack. destruct (_ || _); [discriminate|].
  assert (Hpacked : forall m',
             dns.hdr m' = dns.hdr m ->
             match packSections m' with
             | inl e => inl e
             | inr body => inr (dns.packHeader (dns.headerOf m') ++ body)
             end = inr packed ->
             take 4 packed =
               binary.BigEndian_PutUint16 (dns.Id (dns.hdr m)) ++
               binary.BigEndian_PutUint16 (dns.headerBits (dns.hdr m))).
  { intros m' Hhdr. destruct (packSections m') as [e|body]; [discriminate|].
    intros Heq. apply inr_inj in Heq. subst packed.
    rewrite <- Hhdr. apply take4_packHeader. }
  destruct (dns.IsEdns0 m) as [[i opt]|].
  - apply Hpacked. reflexivity.
  - destruct (_ <? _); [discriminate|]. apply Hpacked. reflexivity.
Qed.

End HeaderProps.

(** C10. A query that is answered from the table comes back as the
    unpacked query, packed again with the one record appended to its
    answers and nothing else changed: its header, its questions, its
    authority and additional records and its compression flag are those
    of the unpacked query, and nothing is sent upstream. The first four
    octets of the response, the identifier and the word of flags (the
    query/response bit among them), are those of the query. *)
Theorem processDNSQuery_override_keeps_header
    (unicodeLower : string -> string)
    (unpackSections :
       dns.Header -> list byte -> nat ->
       error + (list dns.Question * list dns.RR * list dns.RR * list dns.RR))
    (packSections : dns.Msg -> error + list byte)
    (NewRR : string -> error + dns.RR) (upstream : PostCall -> PostReply)
    (it : list (string * string)) (query : list byte) (net : list PostCall)
    (msg : dns.Msg) (q0 : dns.Question) (qs : list dns.Question) (ip : string)
    (response : list byte) (net' : list PostCall) :
  dns.Unpack unpackSections query = inr msg ->
  dns.Questions msg = q0 :: qs ->
  findValueByKeyContains unicodeLower it (dns.QName q0) = (ip, true) ->
  processDNSQuery unicodeLower (dns.Unpack unpackSections) NewRR
                  (dns.Pack packSections) upstream it query net
    = ((response, None), net') ->
  exists rr,
    NewRR (dns.QName q0 +:+ " A " +:+ ip) = inr rr /\
    dns.Pack packSections (appendAnswer msg rr) = inr response /\
    dns.Answer (appendAnswer msg rr) = dns.Answer msg ++ [rr] /\
    dns.hdr (appendAnswer msg rr) = dns.hdr msg /\
    take 4 response = take 4 query /\
    dns.Questions (appendAnswer msg rr) = dns.Questions msg /\
    dns.Ns (appendAnswer msg rr) = dns.Ns msg /\
    dns.Extra (appendAnswer msg rr) = dns.Extra msg /\
    dns.Compress (appendAnswer msg rr) = dns.Compress msg /\
    dns.Pack packSections
      {| dns.hdr := dns.hdr msg; dns.Compress := dns.Compress msg;
         dns.Questions := dns.Questions msg;
         dns.Answer := dns.Answer msg ++ [rr];
         dns.Ns := dns.Ns msg; dns.Extra := dns.Extra msg |} = inr response /\
    net' = net.
Proof.
  intros Hmsg Hq Hfind Hrun.
  rewrite (processDNSQuery_matched _ _ _ _ _ _ _ _ _ _ _ _ Hmsg Hq Hfind) in Hrun.
  destruct (NewRR _) as [err|rr]; [discriminate|].
  destruct (dns.Pack packSections (appendAnswer msg rr)) as [err|packed] eqn:Hpack;
    [discriminate|].
  injection Hrun as -> <-. exists rr.
  split; [reflexivity|]. split; [exact Hpack|]. split; [reflexivity|].
  split; [reflexivity|].
  split; [|split; [reflexivity|]; split; [reflexivity|]; split; [reflexivity|];
           split; [reflexivity|]; split; [exact Hpack | reflexivity]].
  rewrite (Pack_header _ _ _ Hpack).
  change (dns.hdr (appendAnswer msg rr)) with (dns.hdr msg).
  destruct (Unpack_header _ _ _ Hmsg) as (b0 & b1 & b2 & b3 & rest & -> & -> & ->).
  rewrite !PutUint16_Uint16. reflexivity.
Qed.

(** ** Connections *)

Lemma afterReads_refl (c : Conn) : afterReads c c.
Proof. unfold afterReads. auto 10. Qed.

Lemma afterReads_trans (c1 c2 c3 : Conn) :
  afterReads c1 c2 -> afterReads c2 c3 -> afterReads c1 c3.
Proof. unfold afterReads. intuition congruence. Qed.

Lemma afterWrites_refl (c : Conn) : afterWrites c c.
Proof. unfold afterWrites. auto 10. Qed.

Lemma afterWrites_trans (c1 c2 c3 : Conn) :
  afterWrites c1 c2 -> afterWrites c2 c3 -> afterWrites c1 c3.
Proof. unfold afterWrites. intuition congruence. Qed.

(** A read hands over a prefix of what is unread and touches nothing
    else; a read that asks for something and reports no error makes the
    connection strictly smaller. *)
Lemma Conn_Read_spec (n : nat) (c c' : Conn) (p : list byte) (err : option error) :
  Read n c = ((p, err), c') ->
  unread c = p ++ unread c' /\ afterReads c c' /\
  (length p <= n)%nat /\
  (err = None -> n <> 0%nat -> (readsLeft c' < readsLeft c)%nat) /\
  (err <> None -> p = [] /\ c' = c /\ (closed c = false -> incoming c = [])).
Proof.
  unfold Read, Conn_Reader, readsLeft, unread. destruct (closed c) eqn:Hcl.
  { intros [= <- <- <-]. repeat split; auto using afterReads_refl; simpl; try lia; discriminate. }
  destruct (incoming c) as [|seg rest] eqn:Hin.
  { destruct (incomingEnd c); intros [= <- <- <-]; rewrite Hin;
      repeat split; auto using afterReads_refl; simpl; try lia; discriminate. }
  assert (Hlen : (length (take n seg) <= n)%nat) by (rewrite length_take; lia).
  assert (Hseg : length seg = (length (take n seg) + length (drop n seg))%nat)
    by (rewrite <- (take_drop n seg) at 1; apply length_app).
  destruct (drop n seg) as [|b seg'] eqn:Hdrop; intros [= <- <- <-]; simpl.
  - split.
    { rewrite <- (take_drop n seg) at 1. rewrite Hdrop, app_nil_r. reflexivity. }
    split; [unfold afterReads; simpl; auto 10|]. split; [exact Hlen|].
    split; [|intros H; contradiction H; reflexivity].
    intros _ _. rewrite length_app. lia.
  - split.
    { rewrite <- (take_drop n seg) at 1. rewrite Hdrop, <- app_assoc. reflexivity. }
    split; [unfold afterReads; simpl; auto 10|]. split; [exact Hlen|].
    split; [|intros H; contradiction H; reflexivity].
    intros _ Hn. rewrite !length_app. simpl in *.
    assert (length (take n seg) <> 0)%nat; [|lia].
    destruct n as [|n]; [congruence|]. destruct seg; [discriminate|]. simpl. lia.
Qed.

(** A write appends a prefix of its argument and touches nothing else. *)
Lemma Conn_Write_spec (p : list byte) (c c' : Conn) (n : nat) (err : option error) :
  Write p c = ((n, err), c') ->
  afterWrites c c' /\ outgoing c' = outgoing c ++ take n p /\
  (err = None -> n = length p) /\
  (accepts c -> n = length p /\ err = None /\ accepts c').
Proof.
  unfold Write, Conn_Writer, accepts.
  destruct (closed c) eqn:Hcl; simpl.
  { intros [= <- <- <-]. rewrite app_nil_r.
    repeat split; auto using afterWrites_refl; try discriminate; intuition discriminate. }
  destruct (closedWrite c) eqn:Hcw; simpl.
  { intros [= <- <- <-]. rewrite app_nil_r.
    repeat split; auto using afterWrites_refl; try discriminate; intuition discriminate. }
  destruct (writeFault c) as [[quota e]|] eqn:Hwf.
  - destruct (Nat.leb_spec (length p) quota) as [Hle|Hgt]; intros [= <- <- <-]; simpl.
    + rewrite firstn_all. unfold afterWrites. simpl.
      repeat split; auto; intuition discriminate.
    + unfold afterWrites. simpl. repeat split; auto; intuition discriminate.
  - intros [= <- <- <-]. simpl. rewrite firstn_all. unfold afterWrites. simpl.
    repeat split; auto.
Qed.

Lemma copyBufferSize_pos : copyBufferSize <> 0%nat.
Proof. unfold copyBufferSize. lia. Qed.

Lemma accepts_afterReads (c c' : Conn) : afterReads c c' -> accepts c -> accepts c'.
Proof. unfold afterReads, accepts. intuition congruence. Qed.

(** [io.Copy]: what it does to the two connections. Whatever happens,
    the destination receives a prefix of what the source had unread; a
    destination that takes everything receives all of it. *)
Lemma copyBuffer_loop_spec (fuel : nat) :
  forall (written : nat) (dst src dst' src' : Conn) (res : result nat),
    copyBuffer_loop fuel written dst src = Some (res, dst', src') ->
    afterReads src src' /\ afterWrites dst dst' /\
    exists sent,
      outgoing dst' = outgoing dst ++ sent /\
      (exists rest, unread src = sent ++ rest) /\
      (accepts dst -> closed src = false ->
       sent = unread src /\ accepts dst' /\ incoming src' = []).
Proof.
  induction fuel as [|fuel IH]; intros written dst src dst' src' res; simpl; [discriminate|].
  destruct (Read copyBufferSize src) as [[p er] src1] eqn:Hread.
  apply Conn_Read_spec in Hread.
  destruct Hread as (Hun & Hfr & _ & _ & Herr).
  assert (Hcont : forall written1 dst1,
             afterWrites dst dst1 ->
             (exists sent1, outgoing dst1 = outgoing dst ++ sent1 /\ sent1 = p /\
                            (accepts dst -> accepts dst1)) ->
             match er with
             | Some e =>
                 if bool_decide (e = io.EOF) then Some ((written1, None), dst1, src1)
                 else Some ((written1, Some e), dst1, src1)
             | None => copyBuffer_loop fuel written1 dst1 src1
             end = Some (res, dst', src') ->
             afterReads src src' /\ afterWrites dst dst' /\
             exists sent,
               outgoing dst' = outgoing dst ++ sent /\
               (exists rest, unread src = sent ++ rest) /\
               (accepts dst -> closed src = false ->
                sent = unread src /\ accepts dst' /\ incoming src' = [])).
  { intros written1 dst1 Hw1 (sent1 & Hout1 & -> & Hacc1) Hres.
    destruct er as [e|].
    - destruct (Herr ltac:(discriminate)) as (-> & -> & Hempty).
      assert (Hdone : dst' = dst1 /\ src' = src)
        by (destruct (bool_decide _); injection Hres as _ <- <-; auto).
      destruct Hdone as [-> ->]. split; [apply afterReads_refl|]. split; [exact Hw1|].
      exists []. split; [exact Hout1|]. split; [exists (unread src); reflexivity|].
      intros Ha Hcl. unfold unread. rewrite (Hempty Hcl). auto.
    - apply IH in Hres. destruct Hres as (Hfr' & Hw' & sent & Hout & [rest Hrest] & Hall).
      split; [eapply afterReads_trans; eassumption|].
      split; [eapply afterWrites_trans; eassumption|].
      exists (p ++ sent). split; [rewrite Hout, Hout1, app_assoc; reflexivity|].
      split; [exists rest; rewrite Hun, Hrest, app_assoc; reflexivity|].
      intros Ha Hcl. destruct Hall as (-> & Ha' & Hin).
      + apply Hacc1, Ha.
      + destruct Hfr as (_ & _ & _ & _ & _ & _ & ->). exact Hcl.
      + rewrite Hun. auto. }
  destruct p as [|b p].
  - apply Hcont; [apply afterWrites_refl|].
    exists []. rewrite app_nil_r. auto.
  - destruct (Write (b :: p) dst) as [[nw ew] dst1] eqn:Hwrite.
    apply Conn_Write_spec in Hwrite. destruct Hwrite as (Hw1 & Hout1 & Hfull & Hacc).
    destruct ew as [e|].
    + intros [= <- <- <-]. split; [exact Hfr|]. split; [exact Hw1|].
      exists (take nw (b :: p)). split; [exact Hout1|]. split.
      * exists (drop nw (b :: p) ++ unread src1).
        rewrite Hun, app_assoc, take_drop. reflexivity.
      * intros Ha _. destruct (Hacc Ha) as (_ & Hno & _). discriminate.
    + rewrite (Hfull eq_refl), Nat.eqb_refl. apply Hcont; [exact Hw1|].
      exists (b :: p). rewrite Hout1, (Hfull eq_refl), firstn_all.
      split; [reflexivity|]. split; [reflexivity|]. intros Ha. apply (Hacc Ha).
Qed.

(** The fuel [io.Copy] is given is enough. *)
Lemma copyBuffer_loop_total (fuel : nat) :
  forall (written : nat) (dst src : Conn),
    (readsLeft src <= fuel)%nat ->
    is_Some (copyBuffer_loop fuel written dst src).
Proof.
  induction fuel as [|fuel IH]; intros written dst src Hfuel.
  { unfold readsLeft in Hfuel. lia. }
  simpl. destruct (Read copyBufferSize src) as [[p er] src1] eqn:Hread.
  apply Conn_Read_spec in Hread. destruct Hread as (_ & _ & _ & Hless & _).
  assert (Hcont : forall written1 dst1,
             is_Some match er with
                     | Some e =>
                         if bool_decide (e = io.EOF)
                         then Some ((written1, None), dst1, src1)
                         else Some ((written1, Some e), dst1, src1)
                     | None => copyBuffer_loop fuel written1 dst1 src1
                     end).
  { intros written1 dst1. destruct er as [e|].
    - destruct (bool_decide _); eexists; reflexivity.
    - apply IH. specialize (Hless eq_refl copyBufferSize_pos). lia. }
  destruct p as [|b p]; [apply Hcont|].
  destruct (Write (b :: p) dst) as [[nw ew] dst1].
  destruct ew as [e|]; [eexists; reflexivity|].
  destruct (_ =? _)%nat; [apply Hcont | eexists; reflexivity].
Qed.

Lemma io_Copy_spec (dst src dst' src' : Conn) (res : result nat) :
  io_Copy dst src = (res, dst', src') ->
  afterReads src src' /\ afterWrites dst dst' /\
  exists sent,
    outgoing dst' = outgoing dst ++ sent /\
    (exists rest, unread src = sent ++ rest) /\
    (accepts dst -> closed src = false ->
     sent = unread src /\ accepts dst' /\ incoming src' = []).
Proof.
  unfold io_Copy.
  destruct (copyBuffer_loop_total (readsLeft src) 0 dst src (Nat.le_refl _)) as [r Hr].
  rewrite Hr. destruct r as [[res0 dst0] src0]. intros [= <- <- <-].
  eapply copyBuffer_loop_spec. exact Hr.
Qed.

(** [buf.WriteTo(dst)]. *)
Lemma Buffer_WriteTo_spec (b b' : Buffer) (dst dst' : Conn) (res : result nat) :
  Buffer_WriteTo b dst = (res, dst', b') ->
  afterWrites dst dst' /\
  exists sent,
    outgoing dst' = outgoing dst ++ sent /\
    (exists rest, b = sent ++ rest) /\
    (accepts dst -> sent = b /\ accepts dst').
Proof.
  unfold Buffer_WriteTo. destruct b as [|x b].
  - intros [= <- <- <-]. split; [apply afterWrites_refl|].
    exists []. rewrite app_nil_r. split; [reflexivity|]. split; [exists []; reflexivity|]. auto.
  - destruct (Write (x :: b) dst) as [[m e] dst1] eqn:Hwrite.
    apply Conn_Write_spec in Hwrite. destruct Hwrite as (Hw & Hout & Hfull & Hacc).
    assert (Hgoal : afterWrites dst dst1 /\
                    exists sent, outgoing dst1 = outgoing dst ++ sent /\
                      (exists rest, x :: b = sent ++ rest) /\
                      (accepts dst -> sent = x :: b /\ accepts dst1)).
    { split; [exact Hw|]. exists (take m (x :: b)). split; [exact Hout|].
      split; [exists (drop m (x :: b)); rewrite take_drop; reflexivity|].
      intros Ha. destruct (Hacc Ha) as (-> & _ & Ha'). rewrite firstn_all. auto. }
    destruct e as [e|]; [intros [= <- <- <-]; exact Hgoal|].
    destruct (_ =? _)%nat; intros [= <- <- <-]; exact Hgoal.
Qed.

(** ** Sniffing the ClientHello *)

Section SniffProps.
Context {R : Type} {HR : Reader R} {HC : MaybeCloser R}.

(** The wait group only goes down, by one per call of the hook, and
    every call of the hook leaves a captured hello behind. *)
Lemma runHandshake_hook (hs : Handshake) :
  forall (st st' : sniffing (R := R)) (err : option error),
    runHandshake hs st = Returns (err, st') ->
    sn_wg st' <= sn_wg st /\
    (sn_wg st' = sn_wg st -> sn_hello st' = sn_hello st) /\
    (sn_wg st' < sn_wg st -> sn_hello st' <> None).
Proof.
  induction hs as [err0|n k IH|p k IH|k IH|k IH|k IH|t k IH|t k IH|t k IH|argHello k IH];
    intros st st' err Hrun; simpl in Hrun.
  - injection Hrun as <- <-. split; [lia|]. split; [reflexivity|lia].
  - destruct (readOnlyConn_Read n (sn_conn st)) as [res conn'].
    apply IH in Hrun. exact Hrun.
  - apply IH in Hrun. exact Hrun.
  - destruct (readOnlyConn_Close (sn_conn st)) as [res conn'].
    apply IH in Hrun. exact Hrun.
  - apply IH in Hrun. exact Hrun.
  - apply IH in Hrun. exact Hrun.
  - apply IH in Hrun. exact Hrun.
  - apply IH in Hrun. exact Hrun.
  - apply IH in Hrun. exact Hrun.
  - unfold WaitGroup_Done, WaitGroup_Add in Hrun.
    destruct (sn_wg st + -1 <? 0); [discriminate|].
    apply IH in Hrun. simpl in Hrun. destruct Hrun as (Hle & Heq & Hlt).
    split; [lia|]. split; [lia|]. intros _.
    destruct (Z.eq_dec (sn_wg st') (sn_wg st + -1)) as [Hsame|Hless].
    + rewrite (Heq Hsame). discriminate.
    + apply Hlt. lia.
Qed.

(** [readClientHello] has one way to return: with a hello and no error. *)
Lemma readClientHello_returns (hs : Handshake) (rd rd' : R)
    (res : result (option ClientHelloInfo)) :
  readClientHello hs rd = Returns (res, rd') ->
  exists hello, res = (Some hello, None).
Proof.
  unfold readClientHello.
  change (WaitGroup_Add 1 0) with (Returns (A := WaitGroup) 1). cbv iota beta.
  destruct (runHandshake hs _) as [[err st]| |msg] eqn:Hrun; try discriminate.
  apply runHandshake_hook in Hrun. simpl in Hrun. destruct Hrun as (_ & _ & Hlt).
  unfold WaitGroup_Wait. destruct (Z.eqb_spec (sn_wg st) 0) as [Hz|Hne]; [|discriminate].
  destruct (sn_hello st) as [hello|] eqn:Hh.
  - intros [= <- _]. exists hello. reflexivity.
  - exfalso. apply Hlt; [lia | reflexivity].
Qed.

(** A handshake that ends without the hook having run leaves the
    caller of [readClientHello] in [wg.Wait()]. *)
Lemma readClientHello_blocks (hs : Handshake) (rd : R) (err : option error)
    (st : sniffing (R := R)) :
  runHandshake hs (mkSniffing (mkReadOnlyConn rd) None 1) = Returns (err, st) ->
  sn_hello st = None ->
  readClientHello hs rd = BlocksForever.
Proof.
  intros Hrun Hnone. unfold readClientHello.
  change (WaitGroup_Add 1 0) with (Returns (A := WaitGroup) 1). cbv iota beta.
  rewrite Hrun.
  apply runHandshake_hook in Hrun. simpl in Hrun. destruct Hrun as (Hle & _ & Hlt).
  unfold WaitGroup_Wait. destruct (Z.eqb_spec (sn_wg st) 0) as [Hz|Hne]; [|reflexivity].
  exfalso. apply Hlt; [lia | exact Hnone].
Qed.

End SniffProps.

(** What the tee does to the client connection and to the side buffer. *)
Lemma tee_Read_spec (n : nat) (t t' : teeReader Conn Buffer)
    (res : result (list byte)) :
  Read n t = (res, t') ->
  afterReads (tee_r t) (tee_r t') /\
  unread (tee_r t) = fst res ++ unread (tee_r t') /\
  tee_w t' = tee_w t ++ fst res.
Proof.
  unfold Read at 1, teeReader_Reader.
  destruct (Read n (tee_r t)) as [[p err] r'] eqn:Hread.
  apply Conn_Read_spec in Hread. destruct Hread as (Hun & Hfr & _).
  destruct p as [|b p].
  - intros [= <- <-]. simpl. rewrite app_nil_r. auto.
  - unfold Write, Buffer_Writer. intros [= <- <-]. simpl. auto.
Qed.

(** The handshake reads the client through the tee and changes nothing
    else: the side buffer grows by exactly the octets taken off the
    connection. *)
Lemma runHandshake_tee (hs : Handshake) :
  forall (st st' : sniffing (R := teeReader Conn Buffer)) (err : option error),
    runHandshake hs st = Returns (err, st') ->
    let t := reader (sn_conn st) in
    let t' := reader (sn_conn st') in
    afterReads (tee_r t) (tee_r t') /\
    exists consumed,
      tee_w t' = tee_w t ++ consumed /\
      unread (tee_r t) = consumed ++ unread (tee_r t').
Proof.
  induction hs as [err0|n k IH|p k IH|k IH|k IH|k IH|t0 k IH|t0 k IH|t0 k IH|argHello k IH];
    intros st st' err Hrun; simpl in Hrun.
  - injection Hrun as <- <-. split; [apply afterReads_refl|].
    exists []. rewrite !app_nil_r. auto.
  - unfold readOnlyConn_Read in Hrun.
    destruct (Read n (reader (sn_conn st))) as [res r'] eqn:Hread.
    apply tee_Read_spec in Hread. destruct Hread as (Hfr & Hun & Hw).
    apply IH in Hrun. simpl in Hrun. destruct Hrun as (Hfr' & consumed & Hw' & Hun').
    split; [eapply afterReads_trans; eassumption|].
    exists (fst res ++ consumed). rewrite Hw', Hw, Hun, Hun', !app_assoc. auto.
  - apply IH in Hrun. exact Hrun.
  - apply IH in Hrun. exact Hrun.
  - apply IH in Hrun. exact Hrun.
  - apply IH in Hrun. exact Hrun.
  - apply IH in Hrun. exact Hrun.
  - apply IH in Hrun. exact Hrun.
  - apply IH in Hrun. exact Hrun.
  - destruct (WaitGroup_Done (sn_wg st)); try discriminate.
    apply IH in Hrun. exact Hrun.
Qed.

(** [peekClientHello] returns a hello together with the octets it took
    off the connection, or an error; either way only [incoming] of the
    connection has changed. *)
Lemma peekClientHello_spec (hs : Handshake) (c c' : Conn)
    (res : option ClientHelloInfo * option Buffer * option error) :
  peekClientHello hs c = Returns (res, c') ->
  afterReads c c' /\
  exists hello peeked,
    res = (Some hello, Some peeked, None) /\ unread c = peeked ++ unread c'.
Proof.
  unfold peekClientHello.
  destruct (readClientHello hs _) as [[[hello err] tee]| |msg] eqn:Hread;
    try discriminate.
  destruct (readClientHello_returns _ _ _ _ Hread) as [h Hres]. injection Hres as -> ->.
  intros [= <- <-].
  unfold readClientHello in Hread.
  change (WaitGroup_Add 1 0) with (Returns (A := WaitGroup) 1) in Hread.
  cbv iota beta in Hread.
  destruct (runHandshake hs _) as [[err st]| |msg] eqn:Hrun; try discriminate.
  apply runHandshake_tee in Hrun. simpl in Hrun. destruct Hrun as (Hfr & consumed & Hw & Hun).
  destruct (WaitGroup_Wait _); try discriminate.
  destruct (sn_hello st); injection Hread as _ Htee; subst tee;
    (split; [exact Hfr|]); exists h, consumed; rewrite Hw; auto.
Qed.

(** ** [handleConnection] *)

Lemma Conn_SetReadDeadline_open (t : Time) (c : Conn) :
  closed c = false ->
  exists c', Conn_SetReadDeadline t c = (None, c') /\
             incoming c' = incoming c /\ closed c' = false /\
             outgoing c' = outgoing c.
Proof.
  intros Hcl. unfold Conn_SetReadDeadline. rewrite Hcl. eexists. split; [reflexivity|].
  simpl. auto.
Qed.

Lemma Conn_Close_outgoing (c : Conn) : outgoing (snd (Conn_Close c)) = outgoing c.
Proof. unfold Conn_Close. destruct (closed c); reflexivity. Qed.

Lemma Conn_CloseWrite_outgoing (c : Conn) :
  outgoing (snd (Conn_CloseWrite c)) = outgoing c.
Proof. unfold Conn_CloseWrite. destruct (closed c); reflexivity. Qed.

(** The goroutine that serves the backend writes the peeked octets and
    then the live ones; a backend that takes everything has received
    both, in this order, when it is done. *)
Lemma clientToBackend_spec (peeked : Buffer) (clientConn backendConn c' b' : Conn) :
  clientToBackend peeked clientConn backendConn = (c', b') ->
  afterReads clientConn c' /\
  (accepts backendConn -> closed clientConn = false ->
   outgoing b' = outgoing backendConn ++ peeked ++ unread clientConn).
Proof.
  unfold clientToBackend.
  destruct (Buffer_WriteTo peeked backendConn) as [[r1 b1] buf1] eqn:Hw.
  destruct (io_Copy b1 clientConn) as [[r2 b2] c2] eqn:Hc.
  destruct (Conn_CloseWrite b2) as [e3 b3] eqn:Hcw.
  intros [= <- <-].
  apply Buffer_WriteTo_spec in Hw. destruct Hw as (_ & sent1 & Hout1 & _ & Hall1).
  apply io_Copy_spec in Hc. destruct Hc as (Hfr & _ & sent2 & Hout2 & _ & Hall2).
  split; [exact Hfr|]. intros Ha Hcl.
  destruct (Hall1 Ha) as [-> Ha1]. destruct (Hall2 Ha1 Hcl) as (-> & _ & _).
  change b3 with (snd (e3, b3)). rewrite <- Hcw, Conn_CloseWrite_outgoing.
  rewrite Hout2, Hout1, app_assoc. reflexivity.
Qed.

(** The other goroutine writes nothing to the backend. *)
Lemma backendToClient_spec (clientConn backendConn c' b' : Conn) :
  backendToClient clientConn backendConn = (c', b') ->
  outgoing b' = outgoing backendConn.
Proof.
  unfold backendToClient.
  destruct (io_Copy clientConn backendConn) as [[r c1] b1] eqn:Hc.
  destruct (Conn_CloseWrite c1) as [e c2]. intros [= _ <-].
  apply io_Copy_spec in Hc. destruct Hc as ((_ & Hout & _) & _). exact Hout.
Qed.

Section SniProxyProps.

Variable unicodeLower : string -> string.
Variable config : Config.
Variable hs : Handshake.
Variable now : Time.
Variable dial : string -> string -> error + Conn.

Local Abbreviation handle := (handleConnection unicodeLower config hs now dial).

(** Once the ClientHello has been sniffed, [handleConnection] dials the
    address computed from its server name, and relays when the dial
    succeeds. *)
Lemma handleConnection_sniffed (clientConn conn1 : Conn)
    (hello : ClientHelloInfo) (peeked : Buffer) :
  closed clientConn = false ->
  peekClientHello hs
    (snd (Conn_SetReadDeadline (Time_Add now (5 * Second)) clientConn))
    = Returns ((Some hello, Some peeked, None), conn1) ->
  unread clientConn = peeked ++ unread conn1 /\
  exists conn2,
    incoming conn2 = incoming conn1 /\ closed conn2 = false /\
    handle clientConn =
      match dial "tcp" (targetHost unicodeLower config hello) with
      | inl err =>
          Returns (closeAll (mkProxied conn2 None
                     [("tcp", targetHost unicodeLower config hello)] [err]))
      | inr backendConn =>
          let '(c, b) := relay peeked conn2 backendConn in
          Returns (closeAll (mkProxied c (Some b)
                     [("tcp", targetHost unicodeLower config hello)] []))
      end.
Proof.
  intros Hcl Hpeek.
  destruct (Conn_SetReadDeadline_open (Time_Add now (5 * Second)) _ Hcl)
    as (c1 & Hset & Hin1 & Hcl1 & _).
  rewrite Hset in Hpeek. simpl in Hpeek.
  destruct (peekClientHello_spec _ _ _ _ Hpeek) as (Hfr & h & p & Hres & Hun).
  injection Hres as <- <-.
  assert (Hcl' : closed conn1 = false)
    by (destruct Hfr as (_ & _ & _ & _ & _ & _ & ->); exact Hcl1).
  destruct (Conn_SetReadDeadline_open zeroTime _ Hcl') as (c2 & Hset2 & Hin2 & Hcl2 & _).
  split.
  { unfold unread in *. rewrite <- Hin1. exact Hun. }
  exists c2. split; [exact Hin2|]. split; [exact Hcl2|].
  unfold handleConnection. rewrite Hset, Hpeek, Hset2.
  destruct (dial _ _) as [err|backendConn]; [reflexivity|].
  destruct (relay _ _ _). reflexivity.
Qed.

End SniProxyProps.

(** C2, as amended. For a connection whose ClientHello has been
    sniffed, [handleConnection] makes one dial, over TCP: when the
    lower-cased server name equals the configured host, to that host name
    on port 8443 (not to 127.0.0.1); otherwise to the lower-cased server
    name on port 443. *)
Theorem handleConnection_dials_by_server_name
    (unicodeLower : string -> string) (config : Config) (hs : Handshake)
    (now : Time) (dial : string -> string -> error + Conn)
    (clientConn conn1 : Conn) (hello : ClientHelloInfo) (peeked : Buffer) :
  closed clientConn = false ->
  peekClientHello hs
    (snd (Conn_SetReadDeadline (Time_Add now (5 * Second)) clientConn))
    = Returns ((Some hello, Some peeked, None), conn1) ->
  let name := strings.ToLower unicodeLower (ServerName hello) in
  exists w,
    handleConnection unicodeLower config hs now dial clientConn = Returns w /\
    dialed w =
      [("tcp", if decide (name = Host config)
               then JoinHostPort (Host config) "8443"
               else JoinHostPort name "443")].
Proof.
  intros Hcl Hpeek name.
  destruct (handleConnection_sniffed unicodeLower config hs now dial _ _ _ _ Hcl Hpeek)
    as (_ & conn2 & _ & _ & Hrun).
  assert (Htarget : targetHost unicodeLower config hello =
                    if decide (name = Host config)
                    then JoinHostPort (Host config) "8443"
                    else JoinHostPort name "443").
  { unfold targetHost. fold name. destruct (String.eqb_spec name (Host config)) as [Heq|Hne].
    - rewrite decide_True by exact Heq. rewrite Heq. reflexivity.
    - rewrite decide_False by exact Hne. reflexivity. }
  rewrite Hrun. destruct (dial _ _) as [err|backendConn].
  - eexists. split; [reflexivity|]. simpl. rewrite Htarget. reflexivity.
  - destruct (relay _ _ _) as [c b]. eexists. split; [reflexivity|].
    simpl. rewrite Htarget. reflexivity.
Qed.

(** C3. For a connection whose ClientHello has been sniffed and whose
    backend has been dialled and takes what it is sent, the octets
    written to the backend are the octets taken off the client while
    sniffing followed by the octets read from it afterwards: together,
    the client's stream as it was sent. *)
Theorem handleConnection_relays_client_stream
    (unicodeLower : string -> string) (config : Config) (hs : Handshake)
    (now : Time) (dial : string -> string -> error + Conn)
    (clientConn conn1 backendConn : Conn) (hello : ClientHelloInfo)
    (peeked : Buffer) :
  closed clientConn = false ->
  peekClientHello hs
    (snd (Conn_SetReadDeadline (Time_Add now (5 * Second)) clientConn))
    = Returns ((Some hello, Some peeked, None), conn1) ->
  dial "tcp" (targetHost unicodeLower config hello) = inr backendConn ->
  accepts backendConn ->
  exists w b,
    handleConnection unicodeLower config hs now dial clientConn = Returns w /\
    backend w = Some b /\
    outgoing b = outgoing backendConn ++ peeked ++ unread conn1 /\
    peeked ++ unread conn1 = unread clientConn.
Proof.
  intros Hcl Hpeek Hdial Ha.
  destruct (handleConnection_sniffed unicodeLower config hs now dial _ _ _ _ Hcl Hpeek)
    as (Hun & conn2 & Hin2 & Hcl2 & Hrun).
  rewrite Hdial in Hrun.
  destruct (relay peeked conn2 backendConn) as [c b] eqn:Hrelay.
  exists (closeAll (mkProxied c (Some b)
            [("tcp", targetHost unicodeLower config hello)] [])),
         (snd (Conn_Close b)).
  split; [exact Hrun|]. split; [reflexivity|]. split; [|symmetry; exact Hun].
  rewrite Conn_Close_outgoing. unfold relay in Hrelay.
  destruct (clientToBackend peeked conn2 backendConn) as [c1 b1] eqn:Hcb.
  apply backendToClient_spec in Hrelay. rewrite Hrelay.
  apply clientToBackend_spec in Hcb. destruct Hcb as [_ Hout].
  rewrite (Hout Ha Hcl2). unfold unread. rewrite Hin2. reflexivity.
Qed.

(** C5, at its failing input: a client that connects and ends the
    stream without sending anything. The handshake sees the end of the
    stream and fails with [io.EOF]; the hook has not run, so
    [readClientHello] stays in [wg.Wait()] instead of returning that
    failure, and [handleConnection] with it. *)
Theorem readClientHello_blocks_on_ended_stream :
  runHandshake (tls.serverHandshake 64)
    (mkSniffing (mkReadOnlyConn (Example.connected [])) None 1)
    = Returns (Some io.EOF,
               mkSniffing (mkReadOnlyConn (Example.connected [])) None 1) /\
  readClientHello (tls.serverHandshake 64) (Example.connected []) = BlocksForever /\
  handleConnection id Example.config (tls.serverHandshake 64) Example.now
                   Example.reachable (Example.connected []) = BlocksForever.
Proof. vm_compute. auto. Qed.

(** X1. [readClientHello] returns no failure, whatever the handshake
    and the stream: it returns a hello, or it does not return. *)
Theorem readClientHello_never_returns_failure
    {R : Type} {HR : Reader R} {HC : MaybeCloser R} (hs : Handshake) (rd : R) :
  match readClientHello hs rd with
  | Returns (res, _) => exists hello, res = (Some hello, None)
  | BlocksForever => True
  | Panics _ => True
  end.
Proof.
  destruct (readClientHello hs rd) as [[res rd']| |msg] eqn:Hread; [|exact I|exact I].
  eapply readClientHello_returns. exact Hread.
Qed.

(** C8. The adapter's [Write] reports [io.ErrClosedPipe] with nothing
    written, for every argument, and its three deadline setters report
    success and change nothing; and whatever handshake is run against
    the adapter wrapped around a client's connection, when it is over
    nothing has been written to the client and its deadlines and closed
    flags are as they were: only octets have been read. *)
Theorem readOnlyConn_sends_nothing
    (hs : Handshake) (p : list byte) (t : Time)
    (conn : readOnlyConn (teeReader Conn Buffer))
    (st : sniffing (R := teeReader Conn Buffer)) :
  readOnlyConn_Write p conn = ((0%nat, Some io.ErrClosedPipe), conn) /\
  readOnlyConn_SetDeadline t conn = (None, conn) /\
  readOnlyConn_SetReadDeadline t conn = (None, conn) /\
  readOnlyConn_SetWriteDeadline t conn = (None, conn) /\
  match runHandshake hs st with
  | Returns (_, st') =>
      let c := tee_r (reader (sn_conn st)) in
      let c' := tee_r (reader (sn_conn st')) in
      outgoing c' = outgoing c /\ writeFault c' = writeFault c /\
      readDeadline c' = readDeadline c /\ writeDeadline c' = writeDeadline c /\
      closedWrite c' = closedWrite c /\ closed c' = closed c
  | BlocksForever => True
  | Panics _ => True
  end.
Proof.
  repeat (split; [reflexivity|]).
  destruct (runHandshake hs st) as [[err st']| |msg] eqn:Hrun; [|exact I|exact I].
  apply runHandshake_tee in Hrun. destruct Hrun as [Hfr _].
  unfold afterReads in Hfr. simpl. intuition.
Qed.

(** ** The two goroutines of the relay do not interfere *)

Lemma setIncoming_id (c : Conn) : setIncoming c (incoming c) = c.
Proof. destruct c. reflexivity. Qed.

Lemma setOutgoing_id (c : Conn) : setOutgoing c (outgoing c) (writeFault c) = c.
Proof. destruct c. reflexivity. Qed.

(** A read looks at the reading side of a connection only. *)
Lemma Conn_Read_local (n : nat) (c c' c0 : Conn) (res : result (list byte)) :
  Read n c = (res, c') -> sameReads c c0 ->
  Read n c0 = (res, setIncoming c0 (incoming c')).
Proof.
  unfold Read, Conn_Reader. intros Hread (Hin & Hend & Hcl). rewrite Hcl, Hin, Hend.
  destruct (closed c).
  { injection Hread as <- <-. rewrite <- Hin, setIncoming_id. reflexivity. }
  destruct (incoming c) as [|seg rest] eqn:Hc.
  { destruct (incomingEnd c); injection Hread as <- <-;
      rewrite Hc, <- Hin, setIncoming_id; reflexivity. }
  destruct (drop n seg); injection Hread as <- <-; reflexivity.
Qed.

(** A write looks at the writing side only. *)
Lemma Conn_Write_local (p : list byte) (c c' c0 : Conn) (res : result nat) :
  Write p c = (res, c') -> sameWrites c c0 ->
  Write p c0 = (res, setOutgoing c0 (outgoing c') (writeFault c')).
Proof.
  unfold Write, Conn_Writer. intros Hwrite (Hout & Hwf & Hcl & Hcw).
  rewrite Hcl, Hcw, Hwf, Hout.
  destruct (closed c || closedWrite c).
  { injection Hwrite as <- <-. rewrite <- Hout, <- Hwf, setOutgoing_id. reflexivity. }
  destruct (writeFault c) as [[quota e]|].
  - destruct (_ <=? _)%nat; injection Hwrite as <- <-; reflexivity.
  - injection Hwrite as <- <-. reflexivity.
Qed.

Lemma sameReads_setIncoming (c c0 c' : Conn) :
  sameReads c c0 -> afterReads c c' -> sameReads c' (setIncoming c0 (incoming c')).
Proof. unfold sameReads, afterReads. simpl. intuition congruence. Qed.

Lemma sameWrites_setOutgoing (c c0 c' : Conn) :
  sameWrites c c0 -> afterWrites c c' ->
  sameWrites c' (setOutgoing c0 (outgoing c') (writeFault c')).
Proof. unfold sameWrites, afterWrites. simpl. intuition congruence. Qed.

(** [io.Copy] looks at the reading side of its source and at the
    writing side of its destination, and changes nothing else. *)
Lemma copyBuffer_loop_local (fuel : nat) :
  forall (written : nat) (dst src dst' src' dst0 src0 : Conn) (res : result nat),
    copyBuffer_loop fuel written dst src = Some (res, dst', src') ->
    sameWrites dst dst0 -> sameReads src src0 ->
    copyBuffer_loop fuel written dst0 src0 =
      Some (res, setOutgoing dst0 (outgoing dst') (writeFault dst'),
            setIncoming src0 (incoming src')).
Proof.
  induction fuel as [|fuel IH]; intros written dst src dst' src' dst0 src0 res Hrun Hw Hr;
    simpl in *; [discriminate|].
  destruct (Read copyBufferSize src) as [[p er] src1] eqn:Hread.
  rewrite (Conn_Read_local _ _ _ _ _ Hread Hr).
  apply Conn_Read_spec in Hread. destruct Hread as (_ & Hfr & _).
  pose proof (sameReads_setIncoming _ _ _ Hr Hfr) as Hr1.
  assert (Hcont : forall written1 dst1 dst01,
             sameWrites dst1 dst01 ->
             match er with
             | Some e =>
                 if bool_decide (e = io.EOF) then Some ((written1, None), dst1, src1)
                 else Some ((written1, Some e), dst1, src1)
             | None => copyBuffer_loop fuel written1 dst1 src1
             end = Some (res, dst', src') ->
             match er with
             | Some e =>
                 if bool_decide (e = io.EOF)
                 then Some ((written1, None), dst01, setIncoming src0 (incoming src1))
                 else Some ((written1, Some e), dst01, setIncoming src0 (incoming src1))
             | None =>
                 copyBuffer_loop fuel written1 dst01 (setIncoming src0 (incoming src1))
             end = Some (res, setOutgoing dst01 (outgoing dst') (writeFault dst'),
                         setIncoming src0 (incoming src'))).
  { intros written1 dst1 dst01 Hw1 Hres. destruct er as [e|].
    - destruct Hw1 as (Hout & Hwf & _).
      destruct (bool_decide _); injection Hres as <- <- <-;
        rewrite <- Hout, <- Hwf, setOutgoing_id; reflexivity.
    - rewrite (IH _ _ _ _ _ _ _ _ Hres Hw1 Hr1). reflexivity. }
  destruct p as [|b p].
  - apply (Hcont _ _ _ Hw Hrun).
  - destruct (Write (b :: p) dst) as [[nw ew] dst1] eqn:Hwrite.
    rewrite (Conn_Write_local _ _ _ _ _ Hwrite Hw).
    apply Conn_Write_spec in Hwrite. destruct Hwrite as (Hfw & _).
    pose proof (sameWrites_setOutgoing _ _ _ Hw Hfw) as Hw1.
    destruct ew as [e|].
    + injection Hrun as <- <- <-. reflexivity.
    + destruct (_ =? _)%nat.
      * rewrite (Hcont _ _ _ Hw1 Hrun). reflexivity.
      * injection Hrun as <- <- <-. reflexivity.
Qed.

Lemma io_Copy_local (dst src dst' src' dst0 src0 : Conn) (res : result nat) :
  io_Copy dst src = (res, dst', src') ->
  sameWrites dst dst0 -> sameReads src src0 ->
  io_Copy dst0 src0 =
    (res, setOutgoing dst0 (outgoing dst') (writeFault dst'),
     setIncoming src0 (incoming src')).
Proof.
  unfold io_Copy. intros Hrun Hw Hr.
  assert (Hfuel : readsLeft src0 = readsLeft src)
    by (unfold readsLeft, unread; destruct Hr as (-> & _); reflexivity).
  rewrite Hfuel.
  destruct (copyBuffer_loop_total (readsLeft src) 0 dst src (Nat.le_refl _)) as [r Hsome].
  rewrite Hsome in Hrun. subst r.
  rewrite (copyBuffer_loop_local _ _ _ _ _ _ _ _ _ Hsome Hw Hr). reflexivity.
Qed.

Lemma Buffer_WriteTo_local (b : Buffer) (dst dst' dst0 : Conn) (b' : Buffer)
    (res : result nat) :
  Buffer_WriteTo b dst = (res, dst', b') -> sameWrites dst dst0 ->
  Buffer_WriteTo b dst0 =
    (res, setOutgoing dst0 (outgoing dst') (writeFault dst'), b').
Proof.
  unfold Buffer_WriteTo. intros Hrun Hw. destruct b as [|x b].
  { destruct Hw as (Hout & Hwf & _). injection Hrun as <- <- <-.
    rewrite <- Hout, <- Hwf, setOutgoing_id. reflexivity. }
  destruct (Write (x :: b) dst) as [[m e] dst1] eqn:Hwrite.
  rewrite (Conn_Write_local _ _ _ _ _ Hwrite Hw).
  destruct e as [e|]; [injection Hrun as <- <- <-; reflexivity|].
  destruct (_ =? _)%nat; injection Hrun as <- <- <-; reflexivity.
Qed.

(** X2. Run in either order, the two goroutines leave the same two
    connections behind: each looks at and changes one side of each
    connection only, and the sequential [relay] stands for their
    interleavings. *)
Theorem relay_order_irrelevant (peeked : Buffer) (clientConn backendConn : Conn) :
  relay peeked clientConn backendConn =
    (let '(c, b) := backendToClient clientConn backendConn in
     clientToBackend peeked c b).
Proof.
  unfold relay, clientToBackend, backendToClient.
  destruct (Buffer_WriteTo peeked backendConn) as [[r1 b1] buf1] eqn:Hw.
  destruct (io_Copy b1 clientConn) as [[r2 b2] c2] eqn:Hcb.
  destruct (io_Copy clientConn backendConn) as [[r3 c3] b3] eqn:Hbc.
  pose proof (Buffer_WriteTo_spec _ _ _ _ _ Hw) as (Hfw1 & _).
  pose proof (io_Copy_spec _ _ _ _ _ Hcb) as (Hfr2 & Hfw2 & _).
  pose proof (io_Copy_spec _ _ _ _ _ Hbc) as (Hfr3 & Hfw3 & _).
  (* backendToClient after clientToBackend *)
  assert (Hafter : io_Copy c2 (snd (Conn_CloseWrite b2)) =
                   (r3, setOutgoing c2 (outgoing c3) (writeFault c3),
                    setIncoming (snd (Conn_CloseWrite b2)) (incoming b3))).
  { apply (io_Copy_local _ _ _ _ _ _ _ Hbc).
    - destruct Hfr2 as (? & ? & ? & ? & ? & ? & ?). unfold sameWrites. auto.
    - destruct Hfw1 as (? & ? & ? & ? & ? & ?). destruct Hfw2 as (? & ? & ? & ? & ? & ?).
      unfold sameReads, Conn_CloseWrite. destruct (closed b2) eqn:Hc; simpl;
        intuition congruence. }
  (* clientToBackend after backendToClient *)
  assert (Hw' : Buffer_WriteTo peeked b3 =
                (r1, setOutgoing b3 (outgoing b1) (writeFault b1), buf1)).
  { apply (Buffer_WriteTo_local _ _ _ _ _ _ Hw).
    destruct Hfr3 as (? & ? & ? & ? & ? & ? & ?). unfold sameWrites. auto. }
  assert (Hcb' : io_Copy (setOutgoing b3 (outgoing b1) (writeFault b1))
                         (snd (Conn_CloseWrite c3)) =
                 (r2, setOutgoing (setOutgoing b3 (outgoing b1) (writeFault b1))
                                  (outgoing b2) (writeFault b2),
                  setIncoming (snd (Conn_CloseWrite c3)) (incoming c2))).
  { apply (io_Copy_local _ _ _ _ _ _ _ Hcb).
    - destruct Hfr3 as (? & ? & ? & ? & ? & ? & ?).
      destruct Hfw1 as (? & ? & ? & ? & ? & ?).
      unfold sameWrites. simpl. intuition congruence.
    - destruct Hfw3 as (? & ? & ? & ? & ? & ?).
      unfold sameReads, Conn_CloseWrite. destruct (closed c3) eqn:Hc; simpl;
        intuition congruence. }
  destruct (Conn_CloseWrite b2) as [e4 b4] eqn:Hcw2. simpl in Hafter. rewrite Hafter.
  destruct (Conn_CloseWrite c3) as [e5 c5] eqn:Hcw3. simpl in Hcb'. rewrite Hw', Hcb'.
  unfold Conn_CloseWrite in *.
  destruct Hfr2 as (Hie2 & Ho2 & Hwf2 & Hrd2 & Hwd2 & Hcw2' & Hc2).
  destruct Hfw2 as (Hi2 & Hie2' & Hrd2' & Hwd2' & Hcw2'' & Hc2').
  destruct Hfw1 as (Hi1 & Hie1 & Hrd1 & Hwd1 & Hcw1 & Hc1).
  destruct Hfr3 as (Hie3 & Ho3 & Hwf3 & Hrd3 & Hwd3 & Hcw3' & Hc3).
  destruct Hfw3 as (Hi3 & Hie3' & Hrd3' & Hwd3' & Hcw3'' & Hc3').
  destruct clientConn as [ci cie co cwf crd cwd ccw ccl],
           backendConn as [bi bie bo bwf brd bwd bcw bcl],
           b1, b2, c2, c3, b3; simpl in *; subst.
  destruct ccl, bcl; simpl in *;
    injection Hcw2 as <- <-; injection Hcw3 as <- <-; reflexivity.
Qed.

(** ** [io.ReadFull] *)

Lemma ReadAtLeast_loop_spec (fuel : nat) :
  forall (min : nat) (acc : list byte) (c c' : Conn) (buf : list byte)
         (err : option error),
    ReadAtLeast_loop fuel min acc c = Some ((buf, err), c') ->
    (length acc <= min)%nat ->
    afterReads c c' /\
    exists got,
      buf = acc ++ got /\ unread c = got ++ unread c' /\
      (length buf <= min)%nat /\ (err = None -> length buf = min).
Proof.
  induction fuel as [|fuel IH]; intros min acc c c' buf err Hrun Hacc.
  - simpl in Hrun. destruct (Nat.ltb_spec (length acc) min) as [Hlt|Hge]; [discriminate|].
    injection Hrun as <- <- <-. split; [apply afterReads_refl|].
    exists []. rewrite app_nil_r. repeat split; auto; lia.
  - simpl in Hrun. destruct (Nat.ltb_spec (length acc) min) as [Hlt|Hge].
    + destruct (Read (min - length acc)%nat c) as [[p e] c1] eqn:Hread.
      apply Conn_Read_spec in Hread. destruct Hread as (Hun & Hfr & Hlen & _ & _).
      assert (Hacc' : (length (acc ++ p) <= min)%nat) by (rewrite length_app; lia).
      destruct e as [e|].
      * assert (Hdone : buf = acc ++ p /\ c' = c1 /\
                        (err = None -> length (acc ++ p) = min)).
        { destruct (Nat.leb_spec min (length (acc ++ p))) as [Hfull|Hshort].
          - injection Hrun as <- <- <-. split; [reflexivity|]. split; [reflexivity|]. lia.
          - destruct (_ && _); injection Hrun as <- <- <-; repeat split; discriminate. }
        destruct Hdone as (-> & -> & Hfull). split; [exact Hfr|].
        exists p. auto.
      * apply IH in Hrun; [|exact Hacc'].
        destruct Hrun as (Hfr' & got & -> & Hun' & Hle & Hfull).
        split; [eapply afterReads_trans; eassumption|].
        exists (p ++ got). rewrite Hun, Hun', !app_assoc. auto.
    + injection Hrun as <- <- <-. split; [apply afterReads_refl|].
      exists []. rewrite app_nil_r. repeat split; auto; lia.
Qed.

(** The fuel [io.ReadFull] is given is enough. *)
Lemma ReadAtLeast_loop_total (fuel : nat) :
  forall (min : nat) (acc : list byte) (c : Conn),
    (readsLeft c <= fuel)%nat ->
    is_Some (ReadAtLeast_loop fuel min acc c).
Proof.
  induction fuel as [|fuel IH]; intros min acc c Hfuel.
  { unfold readsLeft in Hfuel. lia. }
  simpl. destruct (Nat.ltb_spec (length acc) min) as [Hlt|Hge]; [|eexists; reflexivity].
  destruct (Read (min - length acc)%nat c) as [[p e] c1] eqn:Hread.
  apply Conn_Read_spec in Hread. destruct Hread as (_ & _ & _ & Hless & _).
  destruct e as [e|].
  - destruct (_ <=? _)%nat; [eexists; reflexivity|].
    destruct (_ && _); eexists; reflexivity.
  - apply IH. specialize (Hless eq_refl). lia.
Qed.

(** [io.ReadFull] takes its octets off the front of what is unread,
    and, when it reports no error, has filled its buffer. *)
Lemma io_ReadFull_spec (n : nat) (c c' : Conn) (buf : list byte) (err : option error) :
  io_ReadFull n c = ((buf, err), c') ->
  afterReads c c' /\ unread c = buf ++ unread c' /\
  (err = None -> length buf = n).
Proof.
  unfold io_ReadFull.
  destruct (ReadAtLeast_loop_total (readsLeft c) n [] c (Nat.le_refl _)) as [r Hr].
  rewrite Hr. destruct r as [[buf0 err0] c0]. intros [= <- <- <-].
  apply ReadAtLeast_loop_spec in Hr; [|simpl; lia].
  destruct Hr as (Hfr & got & -> & Hun & _ & Hfull). auto.
Qed.

(** With enough octets on the way, [io.ReadFull] returns exactly the
    first [n] of them, however they are cut into pieces. *)
Lemma io_ReadFull_available (n : nat) (c : Conn) (wanted rest : list byte) :
  closed c = false ->
  unread c = wanted ++ rest -> length wanted = n ->
  exists c', io_ReadFull n c = ((wanted, None), c') /\
             unread c' = rest /\ afterReads c c'.
Proof.
  intros Hcl Hun Hlen. unfold io_ReadFull.
  destruct (ReadAtLeast_loop_total (readsLeft c) n [] c (Nat.le_refl _)) as [r Hr].
  rewrite Hr. destruct r as [[buf err] c'].
  assert (Hgen : forall fuel acc c0 buf err c',
             ReadAtLeast_loop fuel n acc c0 = Some ((buf, err), c') ->
             closed c0 = false -> (length acc <= n)%nat ->
             (n <= length acc + length (unread c0))%nat -> err = None).
  { clear. induction fuel as [|fuel IH]; intros acc c0 buf err c' Hrun Hcl Hacc Hav;
      simpl in Hrun; destruct (Nat.ltb_spec (length acc) n) as [Hlt|Hge];
      try discriminate; try (injection Hrun as _ <- _; reflexivity).
    destruct (Read (n - length acc)%nat c0) as [[p e] c1] eqn:Hread.
    apply Conn_Read_spec in Hread. destruct Hread as (Hun & Hfr & Hlen & _ & Herr).
    destruct e as [e|].
    - destruct (Herr ltac:(discriminate)) as (_ & _ & Hempty).
      unfold unread in Hav. rewrite (Hempty Hcl) in Hav. simpl in Hav. lia.
    - eapply IH; [exact Hrun| | |].
      + destruct Hfr as (_ & _ & _ & _ & _ & _ & ->). exact Hcl.
      + rewrite length_app. lia.
      + rewrite length_app. rewrite Hun, length_app in Hav. lia. }
  assert (err = None) as ->.
  { eapply Hgen; [exact Hr|exact Hcl|simpl; lia|]. rewrite Hun, length_app. simpl. lia. }
  apply ReadAtLeast_loop_spec in Hr; [|simpl; lia].
  destruct Hr as (Hfr & got & -> & Hun' & _ & Hfull). simpl in *.
  specialize (Hfull eq_refl). rewrite Hun in Hun'.
  assert (Hsplit : wanted = got /\ rest = unread c').
  { apply app_inj_1 in Hun'; [exact Hun' | lia]. }
  destruct Hsplit as [<- ->]. exists c'. auto.
Qed.

(** ** [handleDoTConnection] and [handleDoHRequest] *)

(** What the handler writes once the resolver has succeeded: the
    length of the response cut to 16 bits, then the response. *)
Lemma handleDoTConnection_writes
    (unicodeLower : string -> string)
    (Unpack : list byte -> error + dns.Msg) (NewRR : string -> error + dns.RR)
    (Pack : dns.Msg -> error + list byte) (upstream : PostCall -> PostReply)
    (Limiter : Type) (Allow : Limiter -> bool * Limiter)
    (it : list (string * string)) (conn conn1 conn2 : Conn)
    (limiter limiter1 : Limiter) (net net' : list PostCall)
    (b0 b1 : byte) (buffer response : list byte) :
  Allow limiter = (true, limiter1) ->
  io_ReadFull 2 conn = (([b0; b1], None), conn1) ->
  io_ReadFull (Z.to_nat (binary.BigEndian_Uint16 b0 b1)) conn1
    = ((buffer, None), conn2) ->
  processDNSQuery unicodeLower Unpack NewRR Pack upstream it buffer net
    = ((response, None), net') ->
  accepts conn ->
  let s := handleDoTConnection unicodeLower Unpack NewRR Pack upstream
                               Allow it conn limiter net in
  outgoing (dot_conn s) =
    outgoing conn ++ binary.BigEndian_PutUint16 (uint16 (len response)) ++ response /\
  dot_logged s = [] /\ dot_net s = net'.
Proof.
  intros Hallow Hlen Hbuf Hquery Ha s.
  apply io_ReadFull_spec in Hlen as Hlen'.
  destruct Hlen' as ((_ & Ho1 & Hw1 & _ & _ & Hcw1 & Hc1) & _).
  apply io_ReadFull_spec in Hbuf as Hbuf'.
  destruct Hbuf' as ((_ & Ho2 & Hw2 & _ & _ & Hcw2 & Hc2) & _).
  assert (Ha2 : accepts conn2).
  { destruct Ha as (Hc & Hcw & Hwf). unfold accepts. intuition congruence. }
  set (prefix := binary.BigEndian_PutUint16 (uint16 (len response))).
  destruct (Write prefix conn2) as [[n3 e3] conn3] eqn:Hwr1.
  apply Conn_Write_spec in Hwr1 as Hwr1'. destruct Hwr1' as (_ & Ho3 & _ & Hacc3).
  destruct (Hacc3 Ha2) as (-> & -> & Ha3).
  destruct (Write response conn3) as [[n4 e4] conn4] eqn:Hwr2.
  apply Conn_Write_spec in Hwr2 as Hwr2'. destruct Hwr2' as (_ & Ho4 & _ & Hacc4).
  destruct (Hacc4 Ha3) as (-> & -> & _).
  subst s. unfold handleDoTConnection.
  rewrite Hallow. simpl negb. cbv iota. rewrite Hlen, Hbuf, Hquery.
  fold prefix. rewrite Hwr1, Hwr2.
  cbn [dot_conn dot_logged dot_net].
  rewrite Conn_Close_outgoing, Ho4, Ho3, !firstn_all, Ho2, Ho1, <- app_assoc.
  auto.
Qed.

(** X24. Within the range of the length field: in a DoT exchange in
    which the client has sent a framed query, [processDNSQuery] succeeds
    on it with a response of at most 65535 octets, and the connection
    takes what is written to it, the handler writes two octets that
    decode, big-endian, to the length of the response, and then the
    response. *)
Theorem handleDoTConnection_frames_response
    (unicodeLower : string -> string)
    (Unpack : list byte -> error + dns.Msg) (NewRR : string -> error + dns.RR)
    (Pack : dns.Msg -> error + list byte) (upstream : PostCall -> PostReply)
    (Limiter : Type) (Allow : Limiter -> bool * Limiter)
    (it : list (string * string)) (conn : Conn)
    (limiter limiter1 : Limiter) (net net' : list PostCall)
    (query rest response : list byte) :
  Allow limiter = (true, limiter1) ->
  len query <= 65535 ->
  unread conn = binary.BigEndian_PutUint16 (len query) ++ query ++ rest ->
  processDNSQuery unicodeLower Unpack NewRR Pack upstream it query net
    = ((response, None), net') ->
  len response <= 65535 ->
  accepts conn ->
  let s := handleDoTConnection unicodeLower Unpack NewRR Pack upstream
                               Allow it conn limiter net in
  exists p0 p1,
    outgoing (dot_conn s) = outgoing conn ++ [p0; p1] ++ response /\
    binary.BigEndian_Uint16 p0 p1 = len response /\
    dot_logged s = [] /\ dot_net s = net'.
Proof.
  intros Hallow Hqsize Hun Hquery Hsize Ha s.
  destruct (Uint16_PutUint16 (len query)) as (b0 & b1 & Hput & Hget).
  { unfold len in *. lia. }
  rewrite Hput in Hun.
  destruct (io_ReadFull_available 2 conn [b0; b1] (query ++ rest))
    as (conn1 & Hlen & Hun1 & Hfr1); [apply Ha | exact Hun | reflexivity |].
  destruct (io_ReadFull_available (Z.to_nat (binary.BigEndian_Uint16 b0 b1))
              conn1 query rest)
    as (conn2 & Hbuf & _ & _).
  { destruct Hfr1 as (_ & _ & _ & _ & _ & _ & ->). apply Ha. }
  { exact Hun1. }
  { rewrite Hget. unfold len. lia. }
  destruct (handleDoTConnection_writes _ _ _ _ _ _ _ _ _ _ _ _ _ _ _ _ _ _ _
              Hallow Hlen Hbuf Hquery Ha) as (Hout & Hlog & Hnet).
  fold s in Hout, Hlog, Hnet.
  destruct (Uint16_PutUint16 (len response)) as (p0 & p1 & Hput' & Hget').
  { unfold len in *. lia. }
  exists p0, p1. unfold uint16 in Hout.
  rewrite Z.mod_small, Hput' in Hout by (unfold len in *; lia). auto.
Qed.

(** C7, as amended. On a fresh writer: when the limiter denies, the
    handler answers 429 with the plain-text body [Rate limit exceeded]
    and a newline; when the body cannot be read, or the resolver fails,
    it answers 500 with the plain-text body [Failed to read request body]
    or [Failed to pack DNS response] and a newline; otherwise it answers
    200 with the resolver's octets as they are and the content type
    [application/dns-message]. *)
Theorem handleDoHRequest_responds
    (unicodeLower : string -> string)
    (Unpack : list byte -> error + dns.Msg) (NewRR : string -> error + dns.RR)
    (Pack : dns.Msg -> error + list byte) (upstream : PostCall -> PostReply)
    (Limiter : Type) (Allow : Limiter -> bool * Limiter)
    (limiter : Limiter) (it : list (string * string)) (r : Request)
    (net : list PostCall) :
  let '(w, _, net') :=
    handleDoHRequest unicodeLower Unpack NewRR Pack upstream Allow
                     limiter it newResponseWriter r net in
  let plain := "text/plain; charset=utf-8" in
  let line (s : string) := bytes_of_string (s +:+ String (ascii_of_nat 10) "") in
  if fst (Allow limiter) then
    match BodyErr r with
    | Some _ =>
        responded w 500 plain (line "Failed to read request body") /\ net' = net
    | None =>
        match processDNSQuery unicodeLower Unpack NewRR Pack upstream
                              it (Body r) net with
        | ((_, Some _), net1) =>
            responded w 500 plain (line "Failed to pack DNS response") /\ net' = net1
        | ((dnsResponse, None), net1) =>
            responded w 200 "application/dns-message" dnsResponse /\ net' = net1
        end
    end
  else responded w 429 plain (line "Rate limit exceeded") /\ net' = net.
Proof.
  unfold handleDoHRequest, io_ReadAll, responded.
  destruct (Allow limiter) as [[|] limiter1]; cbn [fst negb].
  - destruct r as [body [e|]]; cbn [BodyErr Body].
    + split; [|reflexivity]. eexists. split; [reflexivity|]. split; [vm_compute; reflexivity | reflexivity].
    + destruct (processDNSQuery _ _ _ _ _ _ _ _) as [[resp [e|]] net1].
      * split; [|reflexivity]. eexists. split; [reflexivity|]. split; [vm_compute; reflexivity | reflexivity].
      * split; [|reflexivity]. eexists. split; [reflexivity|]. split; [vm_compute; reflexivity | reflexivity].
  - split; [|reflexivity]. eexists. split; [reflexivity|]. split; [vm_compute; reflexivity | reflexivity].
Qed.
(** * Further properties *)

(** ** [findValueByKeyContains]: what the search finds *)

Lemma isASCII_app (a b : string) :
  strings.isASCII (a +:+ b) = strings.isASCII a && strings.isASCII b.
Proof.
  induction a as [|c a IH]; [reflexivity|].
  rewrite append_String. simpl. rewrite IH, andb_assoc. reflexivity.
Qed.

Lemma mapASCII_app (f : ascii -> ascii) (a b : string) :
  strings.mapASCII f (a +:+ b) = strings.mapASCII f a +:+ strings.mapASCII f b.
Proof.
  induction a as [|c a IH]; [reflexivity|].
  rewrite append_String. simpl. rewrite IH, append_String. reflexivity.
Qed.

(** X3. The search reports a match exactly when some key of the table
    matches the name; the value it returns is then the value of a key
    that matches, and the empty string otherwise. *)
Theorem findValueByKeyContains_finds_matching_entries
    (unicodeLower : string -> string) (m : gmap string string)
    (it : list (string * string)) (name : string) :
  ranges m it ->
  let found := findValueByKeyContains unicodeLower it name in
  (snd found = true <->
   exists key value, m !! key = Some value /\ keyMatches unicodeLower name key = true) /\
  (snd found = true ->
   exists key, m !! key = Some (fst found) /\ keyMatches unicodeLower name key = true) /\
  (snd found = false -> fst found = "").
Proof.
  intros Hit found.
  destruct found as [value ok] eqn:Hfind. subst found. simpl.
  destruct (find_inv _ _ _ _ _ Hfind)
    as [[-> (pre & key & post & -> & _ & Hkey)] | (-> & -> & Hall)].
  - assert (Hin : m !! key = Some value).
    { apply (ranges_elem_of _ _ _ _ Hit), elem_of_app. right.
      apply elem_of_cons. left. reflexivity. }
    split; [|split].
    + split; [intros _; exists key, value; auto | reflexivity].
    + intros _. exists key. auto.
    + discriminate.
  - split; [|split].
    + split; [discriminate|]. intros (key & value & Hin & Hkey).
      apply (ranges_elem_of _ _ _ _ Hit) in Hin.
      rewrite Forall_forall in Hall. specialize (Hall _ Hin). simpl in Hall. congruence.
    + discriminate.
    + reflexivity.
Qed.

(** X4. Which of several matching keys wins is up to the order of the
    iteration: every entry whose key matches is the answer in some order;
    and when all the entries whose keys match carry the same value, that
    value is the answer in every order. *)
Theorem findValueByKeyContains_order
    (unicodeLower : string -> string) (m : gmap string string)
    (name key value : string) :
  m !! key = Some value ->
  keyMatches unicodeLower name key = true ->
  (exists it, ranges m it /\
              findValueByKeyContains unicodeLower it name = (value, true)) /\
  ((forall key' value', m !! key' = Some value' ->
                        keyMatches unicodeLower name key' = true -> value' = value) ->
   forall it, ranges m it ->
              findValueByKeyContains unicodeLower it name = (value, true)).
Proof.
  intros Hin Hkey. split.
  - apply elem_of_map_to_list in Hin.
    apply list_elem_of_split in Hin as (l1 & l2 & Hsplit).
    exists ((key, value) :: l1 ++ l2). split.
    + unfold ranges. rewrite Hsplit. apply Permutation_middle.
    + apply (find_first_match unicodeLower [] (l1 ++ l2)); [constructor | exact Hkey].
  - intros Hsame it Hit.
    destruct (findValueByKeyContains unicodeLower it name) as [v ok] eqn:Hfind.
    destruct (find_inv _ _ _ _ _ Hfind)
      as [[-> (pre & key' & post & -> & _ & Hkey')] | (-> & -> & Hall)].
    + f_equal. apply (Hsame key'); [|exact Hkey'].
      apply (ranges_elem_of _ _ _ _ Hit), elem_of_app. right.
      apply elem_of_cons. left. reflexivity.
    + apply (ranges_elem_of _ _ _ _ Hit) in Hin.
      rewrite Forall_forall in Hall. specialize (Hall _ Hin). simpl in Hall. congruence.
Qed.

(** X5. A key matches wherever it occurs in the name, in any mix of
    upper and lower case: on ASCII text, a name that holds the letters of
    a key of the table anywhere, inside a label or across labels, is
    found, whatever else the table holds. *)
Theorem findValueByKeyContains_matches_anywhere
    (unicodeLower : string -> string) (it : list (string * string))
    (key value before occurrence after : string) :
  (key, value) ∈ it ->
  strings.isASCII key = true ->
  strings.isASCII (before +:+ occurrence +:+ after) = true ->
  strings.mapASCII strings.lowerASCII occurrence
    = strings.mapASCII strings.lowerASCII key ->
  snd (findValueByKeyContains unicodeLower it (before +:+ occurrence +:+ after)) = true.
Proof.
  intros Hin Hk Hname Hocc.
  assert (Hm : keyMatches unicodeLower (before +:+ occurrence +:+ after) key = true).
  { unfold keyMatches, strings.ToLower. rewrite Hk, Hname, !mapASCII_app, Hocc.
    apply Contains_spec. eexists _, _. reflexivity. }
  destruct (find_some_match unicodeLower _ _ _ _ Hin Hm) as [v ->]. reflexivity.
Qed.

(** ** [processDNSQuery]: what goes upstream *)

(** X6. A request goes upstream exactly when the query unpacks, has a
    question, and no key of the iteration matches the name of the first
    one; it is then the one request for this query, added after those
    sent before. In every other case nothing is sent. *)
Theorem processDNSQuery_requests_upstream
    (unicodeLower : string -> string)
    (Unpack : list byte -> error + dns.Msg) (NewRR : string -> error + dns.RR)
    (Pack : dns.Msg -> error + list byte) (upstream : PostCall -> PostReply)
    (it : list (string * string)) (query : list byte) (net : list PostCall) :
  let run := processDNSQuery unicodeLower Unpack NewRR Pack upstream it query net in
  let forwarded :=
    exists msg q0 qs,
      Unpack query = inr msg /\ dns.Questions msg = q0 :: qs /\
      snd (findValueByKeyContains unicodeLower it (dns.QName q0)) = false in
  (forwarded -> snd run = net ++ [upstreamCall query]) /\
  (~ forwarded -> snd run = net).
Proof.
  intros run forwarded. subst run forwarded. unfold processDNSQuery.
  destruct (Unpack query) as [err|msg] eqn:Hmsg.
  { split; [intros (? & ? & ? & [=] & _) | reflexivity]. }
  destruct (dns.Questions msg) as [|q0 qs] eqn:Hq.
  { split; [|reflexivity]. intros (? & ? & ? & [= <-] & Hq' & _). congruence. }
  destruct (findValueByKeyContains _ _ _) as [ip [|]] eqn:Hfind.
  - split.
    + intros (? & ? & ? & [= <-] & Hq' & Hno). rewrite Hq in Hq'.
      injection Hq' as <- <-. rewrite Hfind in Hno. discriminate.
    + intros _. destruct (NewRR _); [reflexivity|]. destruct (Pack _); reflexivity.
  - split.
    + intros _. destruct (upstream _); reflexivity.
    + intros Hnot. contradiction Hnot. exists msg, q0, qs. rewrite Hfind. auto.
Qed.

(** X7. Whatever the layout of the sections: a query shorter than the
    twelve octets of a header does not unpack, and one that is a header
    and nothing more unpacks to a message without questions. Either way
    [processDNSQuery] fails and sends nothing upstream. *)
Theorem processDNSQuery_rejects_short_query
    (unicodeLower : string -> string)
    (unpackSections : dns.Header -> list byte -> nat ->
                      error + (list dns.Question * list dns.RR * list dns.RR * list dns.RR))
    (NewRR : string -> error + dns.RR)
    (Pack : dns.Msg -> error + list byte) (upstream : PostCall -> PostReply)
    (it : list (string * string)) (query : list byte) (net : list PostCall) :
  (length query <= 12)%nat ->
  exists err,
    processDNSQuery unicodeLower (dns.Unpack unpackSections) NewRR Pack upstream
                    it query net = (([], Some err), net) /\
    ((length query < 12)%nat -> dns.Unpack unpackSections query = inl err) /\
    (length query = 12%nat ->
     err = errorString "no DNS question found in the request").
Proof.
  intros Hlen. unfold processDNSQuery.
  destruct (Nat.eq_dec (length query) 12%nat) as [H12|Hshort].
  - do 12 (destruct query as [|? query]; [discriminate|]).
    destruct query; [|discriminate].
    eexists. split; [reflexivity|]. split; [simpl; lia | reflexivity].
  - assert (Hfail : exists err, dns.Unpack unpackSections query = inl err).
    { do 12 (destruct query as [|? query]; [eexists; reflexivity|]).
      simpl in Hlen, Hshort. lia. }
    destruct Hfail as [err Herr]. rewrite Herr. exists err.
    split; [reflexivity|]. split; [reflexivity | intros; lia].
Qed.

(** ** The counts in the header of a local answer *)

Lemma counts_packHeader (m : dns.Msg) (body : list byte) :
  take 8 (drop 4 (dns.packHeader (dns.headerOf m) ++ body)) =
    binary.BigEndian_PutUint16 (uint16 (len (dns.Questions m))) ++
    binary.BigEndian_PutUint16 (uint16 (len (dns.Answer m))) ++
    binary.BigEndian_PutUint16 (uint16 (len (dns.Ns m))) ++
    binary.BigEndian_PutUint16 (uint16 (len (dns.Extra m))).
Proof. reflexivity. Qed.

(** What [Pack] returns announces, after the identifier and the header
    word, the lengths of the four sections of the message. *)
Lemma Pack_counts (packSections : dns.Msg -> error + list byte)
    (m : dns.Msg) (packed : list byte) :
  dns.Pack packSections m = inr packed ->
  take 8 (drop 4 packed) =
    binary.BigEndian_PutUint16 (uint16 (len (dns.Questions m))) ++
    binary.BigEndian_PutUint16 (uint16 (len (dns.Answer m))) ++
    binary.BigEndian_PutUint16 (uint16 (len (dns.Ns m))) ++
    binary.BigEndian_PutUint16 (uint16 (len (dns.Extra m))).
Proof.
  unfold dns.Pack. destruct (_ || _); [discriminate|].
  assert (Hpacked : forall m',
             dns.Questions m' = dns.Questions m -> dns.Answer m' = dns.Answer m ->
             dns.Ns m' = dns.Ns m -> len (dns.Extra m') = len (dns.Extra m) ->
             match packSections m' with
             | inl e => inl e
             | inr body => inr (dns.packHeader (dns.headerOf m') ++ body)
             end = inr packed ->
             take 8 (drop 4 packed) =
               binary.BigEndian_PutUint16 (uint16 (len (dns.Questions m))) ++
               binary.BigEndian_PutUint16 (uint16 (len (dns.Answer m))) ++
               binary.BigEndian_PutUint16 (uint16 (len (dns.Ns m))) ++
               binary.BigEndian_PutUint16 (uint16 (len (dns.Extra m)))).
  { intros m' Hq Han Hns Hex. destruct (packSections m') as [e|body]; [discriminate|].
    intros Heq. apply inr_inj in Heq. subst packed.
    rewrite counts_packHeader, Hq, Han, Hns, Hex. reflexivity. }
  destruct (dns.IsEdns0 m) as [[i opt]|].
  - apply Hpacked; try reflexivity. unfold len. simpl. rewrite length_insert. reflexivity.
  - destruct (_ <? _); [discriminate|]. apply Hpacked; reflexivity.
Qed.

(** X8. In a response that is answered from the table, the four
    counts of the header are those of the unpacked query with the count
    of answers raised by one, each cut to 16 bits: whatever the layout of
    the sections, the header announces the record that was appended. *)
Theorem processDNSQuery_override_counts_answer
    (unicodeLower : string -> string)
    (Unpack : list byte -> error + dns.Msg)
    (packSections : dns.Msg -> error + list byte)
    (NewRR : string -> error + dns.RR) (upstream : PostCall -> PostReply)
    (it : list (string * string)) (query : list byte) (net : list PostCall)
    (msg : dns.Msg) (q0 : dns.Question) (qs : list dns.Question) (ip : string)
    (response : list byte) (net' : list PostCall) :
  Unpack query = inr msg ->
  dns.Questions msg = q0 :: qs ->
  findValueByKeyContains unicodeLower it (dns.QName q0) = (ip, true) ->
  processDNSQuery unicodeLower Unpack NewRR (dns.Pack packSections) upstream
                  it query net = ((response, None), net') ->
  take 8 (drop 4 response) =
    binary.BigEndian_PutUint16 (uint16 (len (dns.Questions msg))) ++
    binary.BigEndian_PutUint16 (uint16 (len (dns.Answer msg) + 1)) ++
    binary.BigEndian_PutUint16 (uint16 (len (dns.Ns msg))) ++
    binary.BigEndian_PutUint16 (uint16 (len (dns.Extra msg))).
Proof.
  intros Hmsg Hq Hfind Hrun.
  rewrite (processDNSQuery_matched _ _ _ _ _ _ _ _ _ _ _ _ Hmsg Hq Hfind) in Hrun.
  destruct (NewRR _) as [err|rr]; [discriminate|].
  destruct (dns.Pack packSections (appendAnswer msg rr)) as [err|packed] eqn:Hpack;
    [discriminate|].
  injection Hrun as -> _. rewrite (Pack_counts _ _ _ Hpack).
  unfold appendAnswer, len. simpl. rewrite length_app. simpl.
  replace (Z.of_nat (length (dns.Answer msg) + 1)) with (Z.of_nat (length (dns.Answer msg)) + 1)
    by lia.
  reflexivity.
Qed.
(** ** [io.ReadFull] on a stream that ends early *)

Lemma ReadAtLeast_loop_short (fuel : nat) :
  forall (min : nat) (acc : list byte) (c : Conn),
    (readsLeft c <= fuel)%nat -> closed c = false ->
    (length acc + length (unread c) < min)%nat ->
    exists c',
      ReadAtLeast_loop fuel min acc c
        = Some ((acc ++ unread c, Some (cutShort (acc ++ unread c) (incomingEnd c))), c') /\
      afterReads c c' /\ unread c' = [].
Proof.
  induction fuel as [|fuel IH]; intros min acc c Hfuel Hcl Hshort.
  { unfold readsLeft in Hfuel. lia. }
  simpl. destruct (Nat.ltb_spec (length acc) min) as [Hlt|Hge]; [|lia].
  destruct (Read (min - length acc)%nat c) as [[p e] c1] eqn:Hread.
  pose proof (Conn_Read_spec _ _ _ _ _ Hread) as (Hun & Hfr & Hlen & Hless & Herr).
  destruct e as [e|].
  - destruct (Herr ltac:(discriminate)) as (-> & -> & Hempty).
    specialize (Hempty Hcl).
    assert (He : e = default io.EOF (incomingEnd c)).
    { unfold Read, Conn_Reader in Hread. rewrite Hcl, Hempty in Hread.
      destruct (incomingEnd c); injection Hread as <-; reflexivity. }
    unfold unread. rewrite Hempty. simpl. rewrite !app_nil_r.
    destruct (Nat.leb_spec min (length acc)) as [Hfull|_]; [lia|].
    exists c. split; [|split; [apply afterReads_refl | unfold unread; rewrite Hempty; reflexivity]].
    unfold cutShort. rewrite <- He. destruct (_ && _); reflexivity.
  - destruct (IH min (acc ++ p) c1) as (c' & Hrun & Hfr' & Hdone).
    + specialize (Hless eq_refl). lia.
    + destruct Hfr as (_ & _ & _ & _ & _ & _ & ->). exact Hcl.
    + rewrite length_app. rewrite Hun, length_app in Hshort. lia.
    + exists c'. rewrite Hrun, Hun, <- app_assoc.
      destruct Hfr as (-> & _). split; [reflexivity|].
      split; [|exact Hdone].
      eapply afterReads_trans; [|exact Hfr'].
      apply Conn_Read_spec in Hread. apply Hread.
Qed.

Lemma io_ReadFull_short (n : nat) (c : Conn) :
  closed c = false -> (length (unread c) < n)%nat ->
  exists c',
    io_ReadFull n c = ((unread c, Some (cutShort (unread c) (incomingEnd c))), c') /\
    afterReads c c' /\ unread c' = [].
Proof.
  intros Hcl Hshort. unfold io_ReadFull.
  destruct (ReadAtLeast_loop_short (readsLeft c) n [] c (Nat.le_refl _) Hcl)
    as (c' & -> & Hfr & Hdone); [simpl; lia|].
  exists c'. auto.
Qed.

(** ** [handleDoTConnection]: every way a connection can go *)

Lemma Conn_Close_closed (c : Conn) : closed (snd (Conn_Close c)) = true.
Proof. unfold Conn_Close. destruct (closed c) eqn:Hc; simpl; auto. Qed.

Lemma Conn_Close_incoming (c : Conn) : incoming (snd (Conn_Close c)) = incoming c.
Proof. unfold Conn_Close. destruct (closed c); reflexivity. Qed.

Section FrontEndProps.

Variable unicodeLower : string -> string.
Variable Unpack : list byte -> error + dns.Msg.
Variable NewRR : string -> error + dns.RR.
Variable Pack : dns.Msg -> error + list byte.
Variable upstream : PostCall -> PostReply.
Variable Limiter : Type.
Variable Allow : Limiter -> bool * Limiter.

Local Abbreviation resolve :=
  (processDNSQuery unicodeLower Unpack NewRR Pack upstream).
Local Abbreviation serveDoT :=
  (handleDoTConnection unicodeLower Unpack NewRR Pack upstream Allow).

(** The handler once the limiter has admitted the connection and the
    frame of a query is on its way: it has read the frame, and goes on
    with the resolver. *)
Lemma handleDoTConnection_framed (it : list (string * string)) (conn : Conn)
    (limiter limiter1 : Limiter) (net : list PostCall) (query rest : list byte) :
  Allow limiter = (true, limiter1) ->
  closed conn = false ->
  len query <= 65535 ->
  unread conn = binary.BigEndian_PutUint16 (len query) ++ query ++ rest ->
  exists conn2,
    afterReads conn conn2 /\ unread conn2 = rest /\
    serveDoT it conn limiter net =
      match resolve it query net with
      | ((_, Some err), net') => mkServed (snd (Conn_Close conn2)) limiter1 net' [err]
      | ((response, None), net') =>
          match Write (binary.BigEndian_PutUint16 (uint16 (len response))) conn2 with
          | ((_, Some err), conn3) => mkServed (snd (Conn_Close conn3)) limiter1 net' [err]
          | ((_, None), conn3) =>
              match Write response conn3 with
              | ((_, Some err), conn4) =>
                  mkServed (snd (Conn_Close conn4)) limiter1 net' [err]
              | ((_, None), conn4) => mkServed (snd (Conn_Close conn4)) limiter1 net' []
              end
          end
      end.
Proof.
  intros Hallow Hcl Hsize Hun.
  destruct (Uint16_PutUint16 (len query)) as (b0 & b1 & Hput & Hget).
  { unfold len in *. lia. }
  rewrite Hput in Hun.
  destruct (io_ReadFull_available 2 conn [b0; b1] (query ++ rest))
    as (conn1 & Hlen & Hun1 & Hfr1); [exact Hcl | exact Hun | reflexivity |].
  destruct (io_ReadFull_available (Z.to_nat (binary.BigEndian_Uint16 b0 b1))
              conn1 query rest)
    as (conn2 & Hbuf & Hun2 & Hfr2).
  { destruct Hfr1 as (_ & _ & _ & _ & _ & _ & ->). exact Hcl. }
  { exact Hun1. }
  { rewrite Hget. unfold len. lia. }
  exists conn2. split; [eapply afterReads_trans; eassumption|]. split; [exact Hun2|].
  unfold handleDoTConnection. rewrite Hallow. simpl negb. cbv iota.
  rewrite Hlen, Hbuf. reflexivity.
Qed.

(** X9. Whatever arrives on a DoT connection, the handler asks the
    limiter once, sends at most one request upstream, only adds to what
    has been written to the client, and leaves the connection closed.
    When the limiter turns the connection away, nothing is read,
    written, sent upstream or logged. *)
Theorem handleDoTConnection_invariants (it : list (string * string)) (conn : Conn)
    (limiter : Limiter) (net : list PostCall) :
  let s := serveDoT it conn limiter net in
  closed (dot_conn s) = true /\
  dot_limiter s = snd (Allow limiter) /\
  (dot_net s = net \/ exists query, dot_net s = net ++ [upstreamCall query]) /\
  (exists sent, outgoing (dot_conn s) = outgoing conn ++ sent) /\
  (fst (Allow limiter) = false ->
   incoming (dot_conn s) = incoming conn /\ outgoing (dot_conn s) = outgoing conn /\
   dot_net s = net /\ dot_logged s = []).
Proof.
  intros s. subst s. unfold handleDoTConnection.
  destruct (Allow limiter) as [[|] limiter1]; cbn [negb fst snd].
  2:{ cbn [dot_conn dot_limiter dot_net dot_logged].
      rewrite Conn_Close_closed, Conn_Close_outgoing, Conn_Close_incoming.
      repeat split; auto. exists []. rewrite app_nil_r. reflexivity. }
  assert (Hdone : forall c l n log,
             (exists sent, outgoing c = outgoing conn ++ sent) ->
             (n = net \/ exists query, n = net ++ [upstreamCall query]) ->
             let s := mkServed (snd (Conn_Close c)) l n log in
             l = limiter1 ->
             closed (dot_conn s) = true /\ dot_limiter s = limiter1 /\
             (dot_net s = net \/ exists query, dot_net s = net ++ [upstreamCall query]) /\
             (exists sent, outgoing (dot_conn s) = outgoing conn ++ sent) /\
             (true = false ->
              incoming (dot_conn s) = incoming conn /\
              outgoing (dot_conn s) = outgoing conn /\
              dot_net s = net /\ dot_logged s = [])).
  { intros c l n log Hout Hnet s ->. subst s. cbn [dot_conn dot_limiter dot_net dot_logged].
    rewrite Conn_Close_closed, Conn_Close_outgoing. repeat split; auto; discriminate. }
  assert (Hnil : exists sent, outgoing conn = outgoing conn ++ sent)
    by (exists []; rewrite app_nil_r; reflexivity).
  destruct (io_ReadFull 2 conn) as [[lengthBuf e1] conn1] eqn:Hlen.
  apply io_ReadFull_spec in Hlen. destruct Hlen as ((_ & Ho1 & _) & _).
  destruct e1 as [e1|]; [apply Hdone; [rewrite Ho1| |]; auto|].
  destruct (io_ReadFull _ conn1) as [[buffer e2] conn2] eqn:Hbuf.
  apply io_ReadFull_spec in Hbuf. destruct Hbuf as ((_ & Ho2 & _) & _).
  rewrite Ho1 in Ho2.
  destruct e2 as [e2|]; [apply Hdone; [rewrite Ho2| |]; auto|].
  pose proof (processDNSQuery_net unicodeLower Unpack NewRR Pack upstream it buffer net)
    as Hnet.
  destruct (resolve it buffer net) as [[response e3] net']. simpl in Hnet.
  assert (Hnet' : net' = net \/ exists query, net' = net ++ [upstreamCall query])
    by (destruct Hnet; [left | right; exists buffer]; assumption).
  destruct e3 as [e3|]; [apply Hdone; [rewrite Ho2| |]; auto|].
  destruct (Write _ conn2) as [[n3 e4] conn3] eqn:Hw1.
  apply Conn_Write_spec in Hw1. destruct Hw1 as (_ & Ho3 & _).
  rewrite Ho2 in Ho3.
  destruct e4 as [e4|]; [apply Hdone; [eexists; exact Ho3| |]; auto|].
  destruct (Write response conn3) as [[n4 e5] conn4] eqn:Hw2.
  apply Conn_Write_spec in Hw2. destruct Hw2 as (_ & Ho4 & _).
  rewrite Ho3, <- app_assoc in Ho4.
  destruct e5 as [e5|]; apply Hdone; try (eexists; exact Ho4); auto.
Qed.

(** X10. A client that ends the stream inside a frame, before the two
    octets of the length or before the octets they announce, gets no
    answer: nothing is written and nothing is sent upstream; the handler
    logs the error of the read that was cut short (the end of the stream,
    unexpected once a part had arrived) and closes the connection. *)
Theorem handleDoTConnection_truncated_frame (it : list (string * string))
    (conn : Conn) (limiter limiter1 : Limiter) (net : list PostCall) :
  Allow limiter = (true, limiter1) ->
  closed conn = false ->
  let s := serveDoT it conn limiter net in
  ((length (unread conn) < 2)%nat ->
   dot_logged s = [cutShort (unread conn) (incomingEnd conn)] /\
   outgoing (dot_conn s) = outgoing conn /\ dot_net s = net /\
   closed (dot_conn s) = true) /\
  (forall b0 b1 part,
     unread conn = b0 :: b1 :: part ->
     (length part < Z.to_nat (binary.BigEndian_Uint16 b0 b1))%nat ->
     dot_logged s = [cutShort part (incomingEnd conn)] /\
     outgoing (dot_conn s) = outgoing conn /\ dot_net s = net /\
     closed (dot_conn s) = true).
Proof.
  intros Hallow Hcl s. subst s. unfold handleDoTConnection.
  rewrite Hallow. simpl negb. cbv iota. split.
  - intros Hshort.
    destruct (io_ReadFull_short 2 conn Hcl Hshort) as (c' & -> & Hfr & _).
    cbn [dot_conn dot_logged dot_net].
    rewrite Conn_Close_closed, Conn_Close_outgoing.
    destruct Hfr as (_ & -> & _). auto.
  - intros b0 b1 part Hun Hshort.
    destruct (io_ReadFull_available 2 conn [b0; b1] part)
      as (conn1 & -> & Hun1 & Hfr1); [exact Hcl | exact Hun | reflexivity |].
    assert (Hcl1 : closed conn1 = false)
      by (destruct Hfr1 as (_ & _ & _ & _ & _ & _ & ->); exact Hcl).
    rewrite <- Hun1 in Hshort.
    destruct (io_ReadFull_short _ conn1 Hcl1 Hshort) as (c' & -> & Hfr & _).
    cbn [dot_conn dot_logged dot_net].
    rewrite Conn_Close_closed, Conn_Close_outgoing, Hun1.
    destruct Hfr as (_ & -> & _). destruct Hfr1 as (-> & -> & _). auto.
Qed.

(** X11. When the resolver fails on the query of a DoT exchange, the
    client is sent nothing, not even an error response: the handler logs
    the resolver's error and closes the connection. *)
Theorem handleDoTConnection_silent_on_failure (it : list (string * string))
    (conn : Conn) (limiter limiter1 : Limiter) (net net' : list PostCall)
    (query rest response : list byte) (err : error) :
  Allow limiter = (true, limiter1) ->
  closed conn = false ->
  len query <= 65535 ->
  unread conn = binary.BigEndian_PutUint16 (len query) ++ query ++ rest ->
  resolve it query net = ((response, Some err), net') ->
  let s := serveDoT it conn limiter net in
  outgoing (dot_conn s) = outgoing conn /\
  dot_logged s = [err] /\ dot_net s = net' /\ closed (dot_conn s) = true.
Proof.
  intros Hallow Hcl Hsize Hun Hquery s.
  destruct (handleDoTConnection_framed it conn limiter limiter1 net query rest
              Hallow Hcl Hsize Hun) as (conn2 & Hfr & _ & Hrun).
  subst s. rewrite Hrun, Hquery. cbn [dot_conn dot_logged dot_net].
  rewrite Conn_Close_closed, Conn_Close_outgoing.
  destruct Hfr as (_ & -> & _). auto.
Qed.

(** X12. A DoT connection serves one query: once the first frame has
    been read and resolved, whatever the client sent after it is left
    unread and the connection is closed, whether or not the response
    could be written. *)
Theorem handleDoTConnection_serves_one_query (it : list (string * string))
    (conn : Conn) (limiter limiter1 : Limiter) (net : list PostCall)
    (query rest : list byte) :
  Allow limiter = (true, limiter1) ->
  closed conn = false ->
  len query <= 65535 ->
  unread conn = binary.BigEndian_PutUint16 (len query) ++ query ++ rest ->
  let s := serveDoT it conn limiter net in
  unread (dot_conn s) = rest /\ closed (dot_conn s) = true /\
  dot_net s = snd (resolve it query net).
Proof.
  intros Hallow Hcl Hsize Hun s.
  destruct (handleDoTConnection_framed it conn limiter limiter1 net query rest
              Hallow Hcl Hsize Hun) as (conn2 & _ & Hrest & Hrun).
  subst s. rewrite Hrun. clear Hrun.
  assert (Hdone : forall c (l : Limiter) n log,
             incoming c = incoming conn2 ->
             let s := mkServed (snd (Conn_Close c)) l n log in
             unread (dot_conn s) = rest /\ closed (dot_conn s) = true /\ dot_net s = n).
  { intros c l n log Hin s. subst s. cbn [dot_conn dot_net].
    rewrite Conn_Close_closed. unfold unread in *.
    rewrite Conn_Close_incoming, Hin. auto. }
  destruct (resolve it query net) as [[response e] net']. cbn [snd].
  destruct e as [e|]; [apply Hdone; reflexivity|].
  destruct (Write _ conn2) as [[n3 e4] conn3] eqn:Hw1.
  apply Conn_Write_spec in Hw1. destruct Hw1 as ((Hi3 & _) & _).
  destruct e4 as [e4|]; [apply Hdone; exact Hi3|].
  destruct (Write response conn3) as [[n4 e5] conn4] eqn:Hw2.
  apply Conn_Write_spec in Hw2. destruct Hw2 as ((Hi4 & _) & _).
  rewrite Hi3 in Hi4.
  destruct e5 as [e5|]; apply Hdone; exact Hi4.
Qed.

(** X13. The two octets in front of a DoT response are the length of
    the response cut to 16 bits, whatever that length is: they decode to
    the length modulo 65536, and the whole response follows them. *)
Theorem handleDoTConnection_prefix_wraps (it : list (string * string))
    (conn : Conn) (limiter limiter1 : Limiter) (net net' : list PostCall)
    (query rest response : list byte) :
  Allow limiter = (true, limiter1) ->
  len query <= 65535 ->
  unread conn = binary.BigEndian_PutUint16 (len query) ++ query ++ rest ->
  resolve it query net = ((response, None), net') ->
  accepts conn ->
  let s := serveDoT it conn limiter net in
  exists p0 p1,
    outgoing (dot_conn s) = outgoing conn ++ [p0; p1] ++ response /\
    binary.BigEndian_Uint16 p0 p1 = len response mod 65536 /\
    dot_logged s = [].
Proof.
  intros Hallow Hsize Hun Hquery Ha s.
  destruct (handleDoTConnection_framed it conn limiter limiter1 net query rest
              Hallow (proj1 Ha) Hsize Hun) as (conn2 & Hfr & _ & Hrun).
  subst s. rewrite Hrun, Hquery. clear Hrun.
  pose proof (accepts_afterReads _ _ Hfr Ha) as Ha2.
  destruct (Uint16_PutUint16 (uint16 (len response))) as (p0 & p1 & Hput & Hget).
  { unfold uint16. apply Z.mod_pos_bound. lia. }
  rewrite Hput.
  destruct (Write [p0; p1] conn2) as [[n3 e3] conn3] eqn:Hw1.
  apply Conn_Write_spec in Hw1. destruct Hw1 as (_ & Ho3 & _ & Hacc3).
  destruct (Hacc3 Ha2) as (-> & -> & Ha3).
  destruct (Write response conn3) as [[n4 e4] conn4] eqn:Hw2.
  apply Conn_Write_spec in Hw2. destruct Hw2 as (_ & Ho4 & _ & Hacc4).
  destruct (Hacc4 Ha3) as (-> & -> & _).
  exists p0, p1. cbn [dot_conn dot_logged].
  rewrite Conn_Close_outgoing, Ho4, Ho3, !firstn_all, <- app_assoc.
  destruct Hfr as (_ & -> & _). auto.
Qed.

(** ** [handleDoHRequest] *)

Local Abbreviation serveDoH :=
  (handleDoHRequest unicodeLower Unpack NewRR Pack upstream Allow).

(** X14. Every DoH request costs one call of the limiter, whatever
    becomes of it, and at most one request upstream, which carries the
    body of the DoH request as it came; a request that is turned away, or
    whose body cannot be read, sends nothing upstream. *)
Theorem handleDoHRequest_invariants (limiter : Limiter)
    (it : list (string * string)) (w : ResponseWriter) (r : Request)
    (net : list PostCall) :
  let '(_, limiter', net') := serveDoH limiter it w r net in
  limiter' = snd (Allow limiter) /\
  (net' = net \/ net' = net ++ [upstreamCall (Body r)]) /\
  (fst (Allow limiter) = false \/ BodyErr r <> None -> net' = net).
Proof.
  unfold handleDoHRequest, io_ReadAll.
  destruct (Allow limiter) as [[|] limiter1]; cbn [negb fst snd].
  2:{ split; [reflexivity|]. split; [left; reflexivity | reflexivity]. }
  destruct (BodyErr r) as [e|] eqn:He.
  { split; [reflexivity|]. split; [left; reflexivity | reflexivity]. }
  pose proof (processDNSQuery_net unicodeLower Unpack NewRR Pack upstream it (Body r) net)
    as Hnet.
  destruct (resolve it (Body r) net) as [[response [e|]] net']; simpl in Hnet;
    (split; [reflexivity|]); (split; [exact Hnet|]);
    intros [Hf|Hf]; [discriminate | contradiction Hf; reflexivity
                    | discriminate | contradiction Hf; reflexivity].
Qed.

End FrontEndProps.

(** ** [handleConnection]: the other direction, and the ways out *)

Lemma Conn_CloseWrite_spec (c : Conn) :
  let c' := snd (Conn_CloseWrite c) in
  incoming c' = incoming c /\ incomingEnd c' = incomingEnd c /\
  outgoing c' = outgoing c /\ writeFault c' = writeFault c /\
  readDeadline c' = readDeadline c /\ writeDeadline c' = writeDeadline c /\
  closed c' = closed c.
Proof. unfold Conn_CloseWrite. destruct (closed c) eqn:Hc; simpl; auto 10. Qed.

(** What the goroutine that serves the backend leaves of the backend's
    reading side: it has not read from it. *)
Lemma clientToBackend_backend (peeked : Buffer) (clientConn backendConn c' b' : Conn) :
  clientToBackend peeked clientConn backendConn = (c', b') ->
  incoming b' = incoming backendConn /\ incomingEnd b' = incomingEnd backendConn /\
  closed b' = closed backendConn.
Proof.
  unfold clientToBackend.
  destruct (Buffer_WriteTo peeked backendConn) as [[r1 b1] buf1] eqn:Hw.
  destruct (io_Copy b1 clientConn) as [[r2 b2] c2] eqn:Hc.
  destruct (Conn_CloseWrite b2) as [e3 b3] eqn:Hcw.
  intros [= <- <-].
  apply Buffer_WriteTo_spec in Hw. destruct Hw as ((Hi1 & He1 & _ & _ & _ & Hc1) & _).
  apply io_Copy_spec in Hc. destruct Hc as (_ & (Hi2 & He2 & _ & _ & _ & Hc2) & _).
  pose proof (Conn_CloseWrite_spec b2) as (Hi3 & He3 & _ & _ & _ & _ & Hc3).
  rewrite Hcw in Hi3, He3, Hc3. simpl in Hi3, He3, Hc3.
  split; [congruence|]. split; congruence.
Qed.

(** The relay, seen from the client: its reading side is as the
    goroutine that serves the backend left it, its deadlines and its
    closed flag are untouched, and what has been written to it is a
    prefix of what the backend sent, all of it when the client takes what
    it is sent. *)
Lemma relay_client (peeked : Buffer) (clientConn backendConn c' b' : Conn) :
  relay peeked clientConn backendConn = (c', b') ->
  readDeadline c' = readDeadline clientConn /\
  closed c' = closed clientConn /\
  exists sent,
    outgoing c' = outgoing clientConn ++ sent /\
    (exists rest, unread backendConn = sent ++ rest) /\
    (accepts clientConn -> closed backendConn = false -> sent = unread backendConn).
Proof.
  unfold relay.
  destruct (clientToBackend peeked clientConn backendConn) as [c1 b1] eqn:Hcb.
  pose proof (clientToBackend_backend _ _ _ _ _ Hcb) as (Hib & _ & Hclb).
  apply clientToBackend_spec in Hcb. destruct Hcb as [Hfr _].
  unfold backendToClient.
  destruct (io_Copy c1 b1) as [[r c2] b2] eqn:Hc.
  destruct (Conn_CloseWrite c2) as [e c3] eqn:Hcw. intros [= <- <-].
  apply io_Copy_spec in Hc.
  destruct Hc as (_ & (_ & _ & Hrd2 & _ & _ & Hcl2) & sent & Hout & Hpre & Hall).
  pose proof (Conn_CloseWrite_spec c2) as (_ & _ & Ho3 & _ & Hrd3 & _ & Hcl3).
  rewrite Hcw in Ho3, Hrd3, Hcl3. simpl in Ho3, Hrd3, Hcl3.
  pose proof Hfr as (_ & Ho1 & _ & Hrd1 & _ & _ & Hcl1).
  split; [congruence|]. split; [congruence|].
  exists sent. unfold unread in *. rewrite Hib in Hpre, Hall.
  split; [congruence|]. split; [exact Hpre|].
  intros Ha Hclosed. apply Hall; [eapply accepts_afterReads; eassumption | congruence].
Qed.

Lemma closeAll_closed (w : proxied) :
  closed (client (closeAll w)) = true /\
  (forall b, backend (closeAll w) = Some b -> closed b = true) /\
  dialed (closeAll w) = dialed w /\ logged (closeAll w) = logged w.
Proof.
  unfold closeAll. simpl. split; [apply Conn_Close_closed|]. split; [|auto].
  intros b. destruct (backend w) as [b0|]; simpl; [|discriminate].
  intros [= <-]. apply Conn_Close_closed.
Qed.

Section SniProxyMore.

Variable unicodeLower : string -> string.
Variable config : Config.
Variable hs : Handshake.
Variable now : Time.
Variable dial : string -> string -> error + Conn.

Local Abbreviation handle := (handleConnection unicodeLower config hs now dial).
Local Abbreviation sniffed clientConn :=
  (peekClientHello hs
     (snd (Conn_SetReadDeadline (Time_Add now (5 * Second)) clientConn))).

(** The connection [handleConnection] goes on with once the ClientHello
    has been sniffed: the client's connection with the sniffed octets
    taken off and the read deadline cleared. *)
Lemma handleConnection_after_sniff (clientConn conn1 : Conn)
    (hello : ClientHelloInfo) (peeked : Buffer) :
  closed clientConn = false ->
  sniffed clientConn = Returns ((Some hello, Some peeked, None), conn1) ->
  exists conn2,
    incoming conn2 = incoming conn1 /\ outgoing conn2 = outgoing clientConn /\
    readDeadline conn2 = zeroTime /\ closed conn2 = false /\
    (accepts clientConn -> accepts conn2) /\
    handle clientConn =
      match dial "tcp" (targetHost unicodeLower config hello) with
      | inl err =>
          Returns (closeAll (mkProxied conn2 None
                     [("tcp", targetHost unicodeLower config hello)] [err]))
      | inr backendConn =>
          let '(c, b) := relay peeked conn2 backendConn in
          Returns (closeAll (mkProxied c (Some b)
                     [("tcp", targetHost unicodeLower config hello)] []))
      end.
Proof.
  intros Hcl Hpeek.
  unfold handleConnection. unfold Conn_SetReadDeadline in Hpeek |- * at 1.
  rewrite Hcl in Hpeek |- *. cbn [snd] in Hpeek. rewrite Hpeek.
  apply peekClientHello_spec in Hpeek.
  destruct Hpeek as ((_ & Ho & Hwf & _ & _ & Hcw & Hc) & _). simpl in *.
  exists (snd (Conn_SetReadDeadline zeroTime conn1)).
  unfold Conn_SetReadDeadline. rewrite Hc. cbn [snd].
  split; [reflexivity|]. split; [exact Ho|]. split; [reflexivity|].
  split; [reflexivity|]. split.
  { unfold accepts. simpl. intros (_ & ? & ?). split; [reflexivity|]. split; congruence. }
  destruct (dial _ _) as [err|backendConn]; [reflexivity|].
  destruct (relay _ _ _). reflexivity.
Qed.

(** X15. Whenever [handleConnection] returns, the client's connection
    is closed, the backend's connection is closed if one was dialled, and
    at most one dial has been made. *)
Theorem handleConnection_always_closes (clientConn : Conn) (w : proxied) :
  handle clientConn = Returns w ->
  closed (client w) = true /\
  (forall b, backend w = Some b -> closed b = true) /\
  (length (dialed w) <= 1)%nat.
Proof.
  unfold handleConnection.
  assert (Hdone : forall w0, (length (dialed w0) <= 1)%nat ->
             Returns (closeAll w0) = Returns w ->
             closed (client w) = true /\
             (forall b, backend w = Some b -> closed b = true) /\
             (length (dialed w) <= 1)%nat).
  { intros w0 Hlen [= <-]. destruct (closeAll_closed w0) as (? & ? & -> & _). auto. }
  destruct (Conn_SetReadDeadline _ clientConn) as [[e1|] c1]; [apply Hdone; simpl; lia|].
  destruct (peekClientHello hs c1) as [[[[h p] e2] c2]| |msg]; try discriminate.
  destruct e2 as [e2|]; [apply Hdone; simpl; lia|].
  destruct (Conn_SetReadDeadline zeroTime c2) as [[e3|] c3]; [apply Hdone; simpl; lia|].
  destruct h as [h|]; [|discriminate]. destruct p as [p|]; [|discriminate].
  destruct (dial _ _) as [err|backendConn]; [apply Hdone; simpl; lia|].
  destruct (relay _ _ _) as [c b]. apply Hdone. simpl. lia.
Qed.

(** X16. For a client connection that is open, [handleConnection]
    returns only after it has sniffed a hello and dialled the address
    computed from it: either the dial failed, and that error is the one
    thing logged, or it relayed and logged nothing. The branch that logs
    a failure of the sniff and gives the connection up is never taken. *)
Theorem handleConnection_returns_only_after_dialling (clientConn : Conn) (w : proxied) :
  closed clientConn = false ->
  handle clientConn = Returns w ->
  exists hello peeked conn1,
    sniffed clientConn = Returns ((Some hello, Some peeked, None), conn1) /\
    dialed w = [("tcp", targetHost unicodeLower config hello)] /\
    match dial "tcp" (targetHost unicodeLower config hello) with
    | inl err => backend w = None /\ logged w = [err]
    | inr _ => is_Some (backend w) /\ logged w = []
    end.
Proof.
  intros Hcl Hrun.
  destruct (sniffed clientConn) as [[res conn1]| |msg] eqn:Hpeek.
  - destruct (peekClientHello_spec _ _ _ _ Hpeek) as (_ & hello & peeked & -> & _).
    exists hello, peeked, conn1. split; [reflexivity|].
    destruct (handleConnection_after_sniff _ _ _ _ Hcl Hpeek) as (conn2 & _ & _ & _ & _ & _ & Hw).
    rewrite Hw in Hrun. destruct (dial _ _) as [err|backendConn].
    + injection Hrun as <-. simpl. auto.
    + destruct (relay _ _ _) as [c b]. injection Hrun as <-. simpl.
      split; [reflexivity|]. split; [eexists; reflexivity | reflexivity].
  - exfalso. unfold handleConnection in Hrun. unfold Conn_SetReadDeadline in Hrun, Hpeek.
    rewrite Hcl in Hrun, Hpeek. cbn [snd] in Hpeek. rewrite Hpeek in Hrun. discriminate.
  - exfalso. unfold handleConnection in Hrun. unfold Conn_SetReadDeadline in Hrun, Hpeek.
    rewrite Hcl in Hrun, Hpeek. cbn [snd] in Hpeek. rewrite Hpeek in Hrun. discriminate.
Qed.

(** X17. The other direction of the relay: for a connection whose
    ClientHello has been sniffed and whose backend has been dialled, the
    octets written to the client are those the backend sent, in order and
    all of them when the client takes what it is sent; nothing of the
    node's own is written to the client. *)
Theorem handleConnection_relays_backend_stream
    (clientConn conn1 backendConn : Conn) (hello : ClientHelloInfo) (peeked : Buffer) :
  accepts clientConn ->
  sniffed clientConn = Returns ((Some hello, Some peeked, None), conn1) ->
  dial "tcp" (targetHost unicodeLower config hello) = inr backendConn ->
  closed backendConn = false ->
  exists w,
    handle clientConn = Returns w /\
    outgoing (client w) = outgoing clientConn ++ unread backendConn.
Proof.
  intros Ha Hpeek Hdial Hclb.
  destruct (handleConnection_after_sniff _ _ _ _ (proj1 Ha) Hpeek)
    as (conn2 & _ & Ho2 & _ & _ & Ha2 & Hw).
  rewrite Hdial in Hw. destruct (relay peeked conn2 backendConn) as [c b] eqn:Hrelay.
  eexists. split; [exact Hw|]. simpl. rewrite Conn_Close_outgoing.
  apply relay_client in Hrelay. destruct Hrelay as (_ & _ & sent & Hout & _ & Hall).
  rewrite Hout, Ho2, (Hall (Ha2 Ha) Hclb). reflexivity.
Qed.

(** X18. When the dial fails, the client is sent nothing: the octets
    sniffed off its connection are dropped, the error of the dial is
    logged, and the connection is closed. *)
Theorem handleConnection_dial_failure
    (clientConn conn1 : Conn) (hello : ClientHelloInfo) (peeked : Buffer)
    (err : error) :
  closed clientConn = false ->
  sniffed clientConn = Returns ((Some hello, Some peeked, None), conn1) ->
  dial "tcp" (targetHost unicodeLower config hello) = inl err ->
  exists w,
    handle clientConn = Returns w /\
    backend w = None /\ logged w = [err] /\
    outgoing (client w) = outgoing clientConn /\
    unread (client w) = unread conn1 /\ closed (client w) = true.
Proof.
  intros Hcl Hpeek Hdial.
  destruct (handleConnection_after_sniff _ _ _ _ Hcl Hpeek)
    as (conn2 & Hi2 & Ho2 & _ & _ & _ & Hw).
  rewrite Hdial in Hw. eexists. split; [exact Hw|]. simpl.
  rewrite Conn_Close_outgoing, Conn_Close_closed. unfold unread.
  rewrite Conn_Close_incoming, Hi2. auto.
Qed.

(** X19. The read deadline of five seconds holds for the sniff only:
    the handshake reads from a connection whose deadline is five seconds
    from now, and once the hello is sniffed the deadline is cleared and
    stays cleared, whether the dial succeeds or fails. *)
Theorem handleConnection_clears_read_deadline
    (clientConn conn1 : Conn) (hello : ClientHelloInfo) (peeked : Buffer) :
  closed clientConn = false ->
  sniffed clientConn = Returns ((Some hello, Some peeked, None), conn1) ->
  readDeadline (snd (Conn_SetReadDeadline (Time_Add now (5 * Second)) clientConn))
    = Time_Add now (5 * Second) /\
  readDeadline conn1 = Time_Add now (5 * Second) /\
  exists w, handle clientConn = Returns w /\ readDeadline (client w) = zeroTime.
Proof.
  intros Hcl Hpeek.
  assert (Hset : readDeadline
                   (snd (Conn_SetReadDeadline (Time_Add now (5 * Second)) clientConn))
                 = Time_Add now (5 * Second))
    by (unfold Conn_SetReadDeadline; rewrite Hcl; reflexivity).
  split; [exact Hset|]. split.
  { apply peekClientHello_spec in Hpeek as Hspec.
    destruct Hspec as ((_ & _ & _ & -> & _) & _). exact Hset. }
  destruct (handleConnection_after_sniff _ _ _ _ Hcl Hpeek)
    as (conn2 & _ & _ & Hrd2 & _ & _ & Hw).
  assert (Hclose : forall c, readDeadline (snd (Conn_Close c)) = readDeadline c)
    by (intros c; unfold Conn_Close; destruct (closed c); reflexivity).
  destruct (dial _ _) as [err|backendConn].
  - eexists. split; [exact Hw|]. simpl. rewrite Hclose. exact Hrd2.
  - destruct (relay peeked conn2 backendConn) as [c b] eqn:Hrelay.
    eexists. split; [exact Hw|]. simpl. rewrite Hclose.
    apply relay_client in Hrelay. destruct Hrelay as (-> & _). exact Hrd2.
Qed.

End SniProxyMore.

(** Lower-cased ASCII text holds no upper-case letter. *)
Lemma isUpperASCII_lowerASCII (c : ascii) :
  strings.isUpperASCII (strings.lowerASCII c) = false.
Proof. destruct c as [[] [] [] [] [] [] [] []]; reflexivity. Qed.

Lemma mapASCII_lowerASCII_no_upper (s a b : string) (c : ascii) :
  strings.mapASCII strings.lowerASCII s = a +:+ String c b ->
  strings.isUpperASCII c = false.
Proof.
  revert a. induction s as [|d s IH]; intros a; simpl.
  - destruct a; discriminate.
  - destruct a as [|x a].
    + rewrite append_empty_l. intros [= <- _]. apply isUpperASCII_lowerASCII.
    + rewrite append_String. intros [= _ Hrest]. apply (IH _ Hrest).
Qed.

(** X20. The comparison with the configured host is made on the
    lower-cased server name and the host as it is configured: when the
    configured host holds an upper-case letter, no ASCII server name
    equals it, and every connection, those for the node's own name
    included, is dialled on port 443. *)
Theorem targetHost_upper_case_host
    (unicodeLower : string -> string) (config : Config) (clientHello : ClientHelloInfo)
    (before after : string) (letter : ascii) :
  Host config = before +:+ String letter after ->
  strings.isUpperASCII letter = true ->
  strings.isASCII (ServerName clientHello) = true ->
  targetHost unicodeLower config clientHello
    = JoinHostPort (strings.ToLower unicodeLower (ServerName clientHello)) "443".
Proof.
  intros Hhost Hup Hascii. unfold targetHost.
  destruct (String.eqb_spec (strings.ToLower unicodeLower (ServerName clientHello))
                            (Host config)) as [Heq|Hne]; [|reflexivity].
  exfalso. unfold strings.ToLower in Heq. rewrite Hascii, Hhost in Heq.
  apply mapASCII_lowerASCII_no_upper in Heq. congruence.
Qed.

(** ** [readClientHello]: when it returns *)

Section SniffOutcome.
Context {R : Type} {HR : Reader R} {HC : MaybeCloser R}.

(** The counter of the wait group never goes below zero in a handshake
    that returns: the call of [wg.Done()] that would take it there
    panics. *)
Lemma runHandshake_wg_nonneg (hs : Handshake) :
  forall (st st' : sniffing (R := R)) (err : option error),
    runHandshake hs st = Returns (err, st') ->
    0 <= sn_wg st -> 0 <= sn_wg st'.
Proof.
  induction hs as [err0|n k IH|p k IH|k IH|k IH|k IH|t k IH|t k IH|t k IH|argHello k IH];
    intros st st' err Hrun Hwg; simpl in Hrun.
  - injection Hrun as <- <-. exact Hwg.
  - destruct (readOnlyConn_Read n (sn_conn st)) as [res conn'].
    apply IH in Hrun; assumption.
  - apply IH in Hrun; assumption.
  - destruct (readOnlyConn_Close (sn_conn st)) as [res conn'].
    apply IH in Hrun; assumption.
  - apply IH in Hrun; assumption.
  - apply IH in Hrun; assumption.
  - apply IH in Hrun; assumption.
  - apply IH in Hrun; assumption.
  - apply IH in Hrun; assumption.
  - unfold WaitGroup_Done, WaitGroup_Add in Hrun.
    destruct (Z.ltb_spec (sn_wg st + -1) 0) as [Hneg|Hpos]; [discriminate|].
    apply IH in Hrun; [exact Hrun | exact Hpos].
Qed.

(** X21. What [readClientHello] does is decided by what the handshake
    did with the hook. When the handshake ends having called the hook, it
    returns the hello that was captured and no error: the error the
    handshake ended with is dropped. When the handshake ends without
    having called the hook, it stays in [wg.Wait()] for ever. When the
    handshake calls the hook a second time, [wg.Done()] panics. *)
Theorem readClientHello_outcome (hs : Handshake) (rd : R) :
  match runHandshake hs (mkSniffing (mkReadOnlyConn rd) None 1) with
  | Returns (err, st) =>
      match sn_hello st with
      | Some hello =>
          readClientHello hs rd = Returns ((Some hello, None), reader (sn_conn st))
      | None => readClientHello hs rd = BlocksForever
      end
  | BlocksForever => readClientHello hs rd = BlocksForever
  | Panics msg => readClientHello hs rd = Panics msg
  end.
Proof.
  unfold readClientHello.
  change (WaitGroup_Add 1 0) with (Returns (A := WaitGroup) 1). cbv iota beta.
  destruct (runHandshake hs _) as [[err st]| |msg] eqn:Hrun; [|reflexivity..].
  pose proof (runHandshake_wg_nonneg _ _ _ _ Hrun) as Hpos.
  apply runHandshake_hook in Hrun. simpl in Hrun, Hpos.
  destruct Hrun as (Hle & Hsame & Hless). specialize (Hpos ltac:(lia)).
  unfold WaitGroup_Wait.
  destruct (sn_hello st) as [hello|] eqn:Hh.
  - destruct (Z.eqb_spec (sn_wg st) 0) as [Hz|Hnz]; [reflexivity|].
    assert (Hone : sn_wg st = 1) by lia. specialize (Hsame Hone). discriminate.
  - destruct (Z.eqb_spec (sn_wg st) 0) as [Hz|Hnz]; [|reflexivity].
    exfalso. apply Hless; [lia | reflexivity].
Qed.

End SniffOutcome.

(** ** DoH in front of the upstream *)

(** X22. The status of the upstream's reply is not looked at on the
    way back either: for a DoH request whose name matches no key, whatever
    status the upstream answered with, the handler answers 200 with the
    DNS-message content type and the octets of the upstream's body as
    they came. *)
Theorem handleDoHRequest_ignores_upstream_status
    (unicodeLower : string -> string)
    (Unpack : list byte -> error + dns.Msg) (NewRR : string -> error + dns.RR)
    (Pack : dns.Msg -> error + list byte) (upstream : PostCall -> PostReply)
    (Limiter : Type) (Allow : Limiter -> bool * Limiter)
    (limiter : Limiter) (it : list (string * string)) (r : Request)
    (net : list PostCall) (msg : dns.Msg) (q0 : dns.Question)
    (qs : list dns.Question) (status : Z) (body : list byte) :
  fst (Allow limiter) = true ->
  BodyErr r = None ->
  Unpack (Body r) = inr msg ->
  dns.Questions msg = q0 :: qs ->
  snd (findValueByKeyContains unicodeLower it (dns.QName q0)) = false ->
  upstream (upstreamCall (Body r)) = PostResponded status body None ->
  let '(w, _, net') :=
    handleDoHRequest unicodeLower Unpack NewRR Pack upstream Allow
                     limiter it newResponseWriter r net in
  responded w 200 "application/dns-message" body /\
  net' = net ++ [upstreamCall (Body r)].
Proof.
  intros Hallow Hbody Hmsg Hq Hfind Hreply.
  unfold handleDoHRequest, io_ReadAll.
  destruct (Allow limiter) as [ok limiter1]. simpl in Hallow. subst ok.
  cbn [negb]. rewrite Hbody.
  destruct (findValueByKeyContains unicodeLower it (dns.QName q0)) as [v ok] eqn:Hf.
  simpl in Hfind. subst ok.
  rewrite (processDNSQuery_unmatched _ _ _ _ _ _ _ _ _ _ _ _ Hmsg Hq Hf), Hreply.
  split; [|reflexivity]. unfold responded. eexists.
  split; [reflexivity|]. split; [vm_compute; reflexivity | reflexivity].
Qed.

(** A query of at most twelve octets unpacks, if at all, to a message
    without questions. *)
Lemma Unpack_short
    (unpackSections : dns.Header -> list byte -> nat ->
                      error + (list dns.Question * list dns.RR * list dns.RR * list dns.RR))
    (query : list byte) (msg : dns.Msg) :
  (length query <= 12)%nat ->
  dns.Unpack unpackSections query = inr msg -> dns.Questions msg = [].
Proof.
  intros Hlen.
  do 12 (destruct query as [|? query]; [discriminate|]).
  destruct query; [|simpl in Hlen; lia].
  intros [= <-]. reflexivity.
Qed.

(** X23. A DoH request without a body, as a GET request is, or with a
    body of at most twelve octets, is answered 500 with the text
    [Failed to pack DNS response], whatever the layout of the sections,
    and nothing is sent upstream. *)
Theorem handleDoHRequest_short_body
    (unicodeLower : string -> string)
    (unpackSections : dns.Header -> list byte -> nat ->
                      error + (list dns.Question * list dns.RR * list dns.RR * list dns.RR))
    (NewRR : string -> error + dns.RR)
    (Pack : dns.Msg -> error + list byte) (upstream : PostCall -> PostReply)
    (Limiter : Type) (Allow : Limiter -> bool * Limiter)
    (limiter : Limiter) (it : list (string * string)) (r : Request)
    (net : list PostCall) :
  fst (Allow limiter) = true ->
  BodyErr r = None ->
  (length (Body r) <= 12)%nat ->
  let '(w, _, net') :=
    handleDoHRequest unicodeLower (dns.Unpack unpackSections) NewRR Pack upstream
                     Allow limiter it newResponseWriter r net in
  responded w 500 "text/plain; charset=utf-8"
    (bytes_of_string ("Failed to pack DNS response" +:+ String (ascii_of_nat 10) "")) /\
  net' = net.
Proof.
  intros Hallow Hbody Hlen.
  unfold handleDoHRequest, io_ReadAll.
  destruct (Allow limiter) as [ok limiter1]. simpl in Hallow. subst ok.
  cbn [negb]. rewrite Hbody.
  destruct (processDNSQuery_rejects unicodeLower (dns.Unpack unpackSections) NewRR Pack
              upstream it (Body r) net) as [err ->].
  { intros msg. apply Unpack_short. exact Hlen. }
  split; [|reflexivity]. unfold responded. eexists.
  split; [reflexivity|]. split; [vm_compute; reflexivity | reflexivity].
Qed.

(** * Worked examples *)

(** C1, an instance: on the node of section 8 a query for
    [foo.example.com] is answered from the table with [10.0.0.5], and
    nothing is sent upstream. *)
Lemma override_example :
  let it := [("example.com", "10.0.0.5")] in
  let query := Example.query ["foo"; "example"; "com"] in
  let run := processDNSQuery id wire.Unpack wire.NewRR wire.Pack
                             Example.unreachable it query [] in
  ranges (Domains Example.config) it /\
  keyMatches id "foo.example.com." "example.com" = true /\
  Domains Example.config !! "example.com" = Some "10.0.0.5" /\
  snd run = [] /\
  fst run = (take 2 query ++ [x01; x00; x00; x01; x00; x01; x00; x00; x00; x00] ++
             drop 12 query ++ drop 12 query ++
             [x00; x00; x0e; x10; x00; x04; x0a; x00; x00; x05], None).
Proof.
  intros it query run.
  assert (Hit : ranges (Domains Example.config) it)
    by (unfold ranges; vm_compute; reflexivity).
  assert (Hkey : keyMatches id "foo.example.com." "example.com" = true)
    by (vm_compute; reflexivity).
  destruct (wire.Unpack query) as [e|msg] eqn:Hmsg; [vm_compute in Hmsg; discriminate|].
  destruct (processDNSQuery_override_answers_locally
              id wire.Unpack wire.NewRR wire.Pack Example.unreachable
              Example.config it [] [] "example.com" "10.0.0.5" query []
              msg (dns.mkQuestion "foo.example.com." 1 1) [])
    as (Hdom & Hnet & Hok & _).
  - exact Hit.
  - exact Hmsg.
  - vm_compute in Hmsg. injection Hmsg as <-. reflexivity.
  - reflexivity.
  - constructor.
  - exact Hkey.
  - split; [exact Hit|]. split; [exact Hkey|]. split; [exact Hdom|]. split; [exact Hnet|].
    vm_compute in Hmsg. injection Hmsg as <-.
    eapply Hok; [vm_compute; reflexivity|]. vm_compute. reflexivity.
Defined.

(** C1, as stated, fails: the same query on a node whose table holds an
    IPv6 address matches the key, and [processDNSQuery] returns an error
    and no response. *)
Lemma ipv6_override_fails :
  let it := [("example.com", "2001:db8::5")] in
  let query := Example.query ["foo"; "example"; "com"] in
  ranges (Domains Example.config6) it /\
  (exists msg, wire.Unpack query = inr msg /\
               dns.Questions msg = [dns.mkQuestion "foo.example.com." 1 1]) /\
  keyMatches id "foo.example.com." "example.com" = true /\
  processDNSQuery id wire.Unpack wire.NewRR wire.Pack Example.unreachable it query []
    = (([], Some (errorString "dns: bad A A")), []).
Proof.
  intros it query. split; [unfold ranges; vm_compute; reflexivity|].
  split; [eexists; split; vm_compute; reflexivity|].
  split; vm_compute; reflexivity.
Qed.

(** C6, an instance: a query for [other.org] goes upstream as it came,
    and the reply comes back as it came. *)
Lemma forward_example :
  let it := [("example.com", "10.0.0.5")] in
  let query := Example.query ["other"; "org"] in
  let reply := [x12; x34; x81; x83] in
  ranges (Domains Example.config) it /\
  processDNSQuery id wire.Unpack wire.NewRR wire.Pack (Example.answering reply)
                  it query []
    = ((reply, None),
       [mkPostCall "https://1.1.1.1/dns-query" "application/dns-message" query]).
Proof.
  intros it query reply.
  assert (Hit : ranges (Domains Example.config) it)
    by (unfold ranges; vm_compute; reflexivity).
  split; [exact Hit|].
  destruct (wire.Unpack query) as [e|msg] eqn:Hmsg; [vm_compute in Hmsg; discriminate|].
  destruct (processDNSQuery_forwards_unmatched
              id wire.Unpack wire.NewRR wire.Pack (Example.answering reply)
              Example.config it query [] msg (dns.mkQuestion "other.org." 1 1) [])
    as (Hnet & Hbody & _).
  - exact Hit.
  - exact Hmsg.
  - vm_compute in Hmsg. injection Hmsg as <-. reflexivity.
  - intros key addr Hkey.
    change (Domains Example.config)
      with ({[ "example.com" := "10.0.0.5" ]} : gmap string string) in Hkey.
    apply lookup_singleton_Some in Hkey as [<- _].
    vm_compute. reflexivity.
  - rewrite (surjective_pairing (processDNSQuery _ _ _ _ _ _ _ _)).
    rewrite Hnet, (Hbody 200 reply None eq_refl). reflexivity.
Defined.

(** C9, an instance: with the empty key in the table, the query for
    [foo.example.com] is handled locally. *)
Lemma empty_key_example :
  let it := [("", "10.0.0.9")] in
  let query := Example.query ["foo"; "example"; "com"] in
  Domains Example.configAny !! "" = Some "10.0.0.9" /\
  ranges (Domains Example.configAny) it /\
  findValueByKeyContains id it "foo.example.com." = ("10.0.0.9", true) /\
  snd (processDNSQuery id wire.Unpack wire.NewRR wire.Pack Example.unreachable
                       it query []) = [].
Proof.
  intros it query.
  assert (Hempty : Domains Example.configAny !! "" = Some "10.0.0.9")
    by (vm_compute; reflexivity).
  assert (Hit : ranges (Domains Example.configAny) it)
    by (unfold ranges; vm_compute; reflexivity).
  split; [exact Hempty|]. split; [exact Hit|].
  destruct (wire.Unpack query) as [e|msg] eqn:Hmsg; [vm_compute in Hmsg; discriminate|].
  destruct (processDNSQuery_empty_key_never_forwards
              id wire.Unpack wire.NewRR wire.Pack Example.unreachable
              Example.configAny it "10.0.0.9" query [] msg
              (dns.mkQuestion "foo.example.com." 1 1) [] Hempty Hit Hmsg)
    as (key & addr & _ & _ & _ & Hnet & _).
  - vm_compute in Hmsg. injection Hmsg as <-. reflexivity.
  - split; [vm_compute; reflexivity | exact Hnet].
Defined.

(** C9, as stated, fails: with the empty key mapped to an IPv6 address,
    the query for [foo.example.com] matches and fails; it is neither
    answered nor forwarded. *)
Lemma empty_key_ipv6_fails :
  let it := [("", "2001:db8::9")] in
  let query := Example.query ["foo"; "example"; "com"] in
  Domains Example.configAny6 !! "" = Some "2001:db8::9" /\
  ranges (Domains Example.configAny6) it /\
  (exists msg, wire.Unpack query = inr msg /\
               dns.Questions msg = [dns.mkQuestion "foo.example.com." 1 1]) /\
  findValueByKeyContains id it "foo.example.com." = ("2001:db8::9", true) /\
  processDNSQuery id wire.Unpack wire.NewRR wire.Pack Example.unreachable it query []
    = (([], Some (errorString "dns: bad A A")), []).
Proof.
  intros it query. split; [vm_compute; reflexivity|].
  split; [unfold ranges; vm_compute; reflexivity|].
  split; [eexists; split; vm_compute; reflexivity|].
  split; vm_compute; reflexivity.
Qed.

(** C10, an instance: a query for [foo.example.com] that carries a
    record in its authority section and an OPT record in its additional
    section. The answer starts with the four octets the query starts
    with, and is the query with the count of answers raised and the one
    record put in after the question: the authority record and the OPT
    record follow as they came. *)
Lemma header_example :
  let it := [("example.com", "10.0.0.5")] in
  let question := drop 12 (Example.query ["foo"; "example"; "com"]) in
  let authority := [x00; x00; x02; x00; x01; x00; x00; x00; x00; x00; x01; x00] in
  let opt := [x00; x00; x29; x10; x00; x00; x00; x00; x00; x00; x00] in
  let query :=
    [x12; x34; x01; x00; x00; x01; x00; x00; x00; x01; x00; x01] ++
    question ++ authority ++ opt in
  let run := processDNSQuery id (dns.Unpack wire.unpackSections) wire.NewRR
                             (dns.Pack wire.packSections) Example.unreachable
                             it query [] in
  findValueByKeyContains id it "foo.example.com." = ("10.0.0.5", true) /\
  snd (fst run) = None /\
  take 4 (fst (fst run)) = [x12; x34; x01; x00] /\
  fst (fst run) =
    [x12; x34; x01; x00; x00; x01; x00; x01; x00; x01; x00; x01] ++
    question ++
    question ++ [x00; x00; x0e; x10; x00; x04; x0a; x00; x00; x05] ++
    authority ++ opt /\
  snd run = [].
Proof.
  intros it question authority opt query run.
  assert (Hfind : findValueByKeyContains id it "foo.example.com." = ("10.0.0.5", true))
    by (vm_compute; reflexivity).
  split; [exact Hfind|]. split; [vm_compute; reflexivity|].
  destruct (dns.Unpack wire.unpackSections query) as [e|msg] eqn:Hmsg;
    [vm_compute in Hmsg; discriminate|].
  destruct (processDNSQuery_override_keeps_header
              id wire.unpackSections wire.packSections wire.NewRR Example.unreachable
              it query [] msg (dns.mkQuestion "foo.example.com." 1 1) [] "10.0.0.5"
              (fst (fst run)) (snd run) Hmsg)
    as (rr & Hrr & _ & _ & _ & Hhead & _ & _ & _ & _ & Hpack & Hnet).
  - vm_compute in Hmsg. injection Hmsg as <-. reflexivity.
  - exact Hfind.
  - vm_compute. reflexivity.
  - split; [rewrite Hhead; reflexivity|]. split; [|exact Hnet].
    vm_compute in Hmsg. injection Hmsg as <-.
    vm_compute in Hrr. injection Hrr as <-.
    apply (inr_inj (A := error)). rewrite <- Hpack. vm_compute. reflexivity.
Defined.

(** C2, an instance: a ClientHello for the node's own name, in upper
    and lower case; the node dials its own name on port 8443. *)
Lemma own_host_example :
  let clientConn := Example.connected [tls.clientHello "Node.Example.org"] in
  closed clientConn = false /\
  exists w,
    handleConnection id Example.config (tls.serverHandshake 64) Example.now
                     Example.reachable clientConn = Returns w /\
    dialed w = [("tcp", "node.example.org:8443")].
Proof.
  intros clientConn. split; [reflexivity|].
  destruct (handleConnection_dials_by_server_name
              id Example.config (tls.serverHandshake 64) Example.now
              Example.reachable clientConn
              (mkConn [] None [] None (instant 5000000000) zeroTime false false)
              (mkClientHelloInfo "Node.Example.org")
              (tls.clientHello "Node.Example.org"))
    as (w & Hrun & Hdial).
  - reflexivity.
  - vm_compute. reflexivity.
  - exists w. split; [exact Hrun|]. rewrite Hdial. vm_compute. reflexivity.
Defined.

(** C2, as stated, fails: for the server name [node.example.org] the
    dial goes to [node.example.org:8443], not to [127.0.0.1:8443]; for
    [other.org] it goes to [other.org:443]. *)
Lemma own_host_is_not_dialled_on_localhost :
  match handleConnection id Example.config (tls.serverHandshake 64) Example.now
          Example.reachable
          (Example.connected [tls.clientHello "node.example.org"]) with
  | Returns w =>
      dialed w = [("tcp", "node.example.org:8443")] /\
      dialed w <> [("tcp", "127.0.0.1:8443")]
  | BlocksForever => False
  | Panics _ => False
  end /\
  match handleConnection id Example.config (tls.serverHandshake 64) Example.now
          Example.reachable
          (Example.connected [tls.clientHello "other.org"]) with
  | Returns w => dialed w = [("tcp", "other.org:443")]
  | BlocksForever => False
  | Panics _ => False
  end.
Proof. vm_compute. split; [split; [reflexivity | discriminate] | reflexivity]. Qed.

(** C3, an instance: a client sends its ClientHello in two pieces and
    goes on with a request; the handshake takes the two pieces, and the
    backend receives everything in the order it was sent. *)
Lemma relay_example :
  let hello := tls.clientHello "other.org" in
  let request := bytes_of_string "GET / HTTP/1.1" in
  let clientConn := Example.connected [take 30 hello; drop 30 hello; request] in
  closed clientConn = false /\
  Example.reachable "tcp" "other.org:443" = inr (Example.connected []) /\
  accepts (Example.connected []) /\
  exists w b,
    handleConnection id Example.config (tls.serverHandshake 64) Example.now
                     Example.reachable clientConn = Returns w /\
    backend w = Some b /\
    outgoing b = hello ++ request.
Proof.
  intros hello request clientConn.
  assert (Ha : accepts (Example.connected [])) by (unfold accepts; auto).
  split; [reflexivity|]. split; [reflexivity|]. split; [exact Ha|].
  destruct (handleConnection_relays_client_stream
              id Example.config (tls.serverHandshake 64) Example.now
              Example.reachable clientConn
              (mkConn [request] None [] None (instant 5000000000) zeroTime false false)
              (Example.connected [])
              (mkClientHelloInfo "other.org") hello)
    as (w & b & Hrun & Hb & Hout & _).
  - reflexivity.
  - vm_compute. reflexivity.
  - reflexivity.
  - exact Ha.
  - exists w, b. split; [exact Hrun|]. split; [exact Hb|].
    rewrite Hout. vm_compute. reflexivity.
Defined.

(** X24, an instance: a DoT exchange for [foo.example.com]; the two
    octets in front of the response give its length, 64. *)
Lemma dot_example :
  let query := Example.query ["foo"; "example"; "com"] in
  let it := [("example.com", "10.0.0.5")] in
  let conn := Example.connected [take 1 (Example.frame query);
                                 drop 1 (Example.frame query)] in
  let response := fst (fst (processDNSQuery id wire.Unpack wire.NewRR wire.Pack
                                            Example.unreachable it query [])) in
  let s := handleDoTConnection id wire.Unpack wire.NewRR wire.Pack
             Example.unreachable Example.Bucket_Allow it conn 50%nat [] in
  Example.Bucket_Allow 50%nat = (true, 49%nat) /\
  unread conn = binary.BigEndian_PutUint16 (len query) ++ query ++ [] /\
  len response = 64 /\ accepts conn /\
  exists p0 p1,
    outgoing (dot_conn s) = [p0; p1] ++ response /\
    binary.BigEndian_Uint16 p0 p1 = 64.
Proof.
  intros query it conn response s.
  assert (Ha : accepts conn) by (unfold accepts; auto).
  assert (Hun : unread conn = binary.BigEndian_PutUint16 (len query) ++ query ++ [])
    by (vm_compute; reflexivity).
  split; [reflexivity|]. split; [exact Hun|].
  split; [vm_compute; reflexivity|]. split; [exact Ha|].
  destruct (handleDoTConnection_frames_response
              id wire.Unpack wire.NewRR wire.Pack Example.unreachable
              Example.Bucket Example.Bucket_Allow it conn
              50%nat 49%nat [] [] query [] response)
    as (p0 & p1 & Hout & Hlen & _).
  - reflexivity.
  - vm_compute. discriminate.
  - exact Hun.
  - vm_compute. reflexivity.
  - vm_compute. discriminate.
  - exact Ha.
  - fold s in Hout. exists p0, p1. split; [exact Hout|].
    rewrite Hlen. vm_compute. reflexivity.
Defined.

(** C4, at its failing input: a DoT exchange in which the upstream
    answers with 65536 octets. [uint16(len(response))] is zero, so the
    handler writes a length of zero in front of the 65536 octets: the two
    octets do not give the length of what follows them, as the comments
    of the handler say they do, and no error is reported. *)
Lemma oversized_response_is_framed :
  let query := Example.query ["other"; "org"] in
  let it := [("example.com", "10.0.0.5")] in
  let s := handleDoTConnection id wire.Unpack wire.NewRR wire.Pack
             (Example.answering Example.oversized) Example.Bucket_Allow it
             (Example.connected [Example.frame query]) 50%nat [] in
  processDNSQuery id wire.Unpack wire.NewRR wire.Pack
                  (Example.answering Example.oversized) it query []
    = ((Example.oversized, None), [upstreamCall query]) /\
  len Example.oversized = 65536 /\
  outgoing (dot_conn s) = [x00; x00] ++ Example.oversized /\
  binary.BigEndian_Uint16 x00 x00 <> len Example.oversized /\
  dot_logged s = [].
Proof.
  intros query it s.
  assert (Hlen : len Example.oversized = 65536).
  { unfold len, Example.oversized. rewrite repeat_length. lia. }
  assert (Hquery : processDNSQuery id wire.Unpack wire.NewRR wire.Pack
                     (Example.answering Example.oversized) it query []
                   = ((Example.oversized, None), [upstreamCall query])).
  { destruct (wire.Unpack query) as [e|msg] eqn:Hmsg; [vm_compute in Hmsg; discriminate|].
    apply (processDNSQuery_unmatched id wire.Unpack wire.NewRR wire.Pack
             (Example.answering Example.oversized) it query [] msg
             (dns.mkQuestion "other.org." 1 1) [] "" Hmsg).
    - vm_compute in Hmsg. injection Hmsg as <-. reflexivity.
    - vm_compute. reflexivity. }
  destruct (handleDoTConnection_writes
              id wire.Unpack wire.NewRR wire.Pack
              (Example.answering Example.oversized)
              Example.Bucket Example.Bucket_Allow it
              (Example.connected [Example.frame query])
              (Example.connected [query]) (Example.connected [])
              50%nat 49%nat [] [upstreamCall query] x00 x1b query Example.oversized)
    as (Hout & Hlog & _).
  - reflexivity.
  - vm_compute. reflexivity.
  - vm_compute. reflexivity.
  - exact Hquery.
  - unfold accepts. auto.
  - fold s in Hout, Hlog. split; [exact Hquery|]. split; [exact Hlen|].
    split; [rewrite Hout, Hlen; reflexivity|].
    split; [rewrite Hlen; vm_compute; discriminate | exact Hlog].
Qed.

(** C7, as stated, fails: a DoH request that the limiter turns away is
    answered with status 429 and a body. *)
Lemma rate_limited_response_has_a_body :
  let '(w, _, _) :=
    handleDoHRequest id wire.Unpack wire.NewRR wire.Pack Example.unreachable
                     Example.Bucket_Allow 0%nat
                     [("example.com", "10.0.0.5")] newResponseWriter
                     (mkRequest (Example.query ["foo"; "example"; "com"]) None) [] in
  Example.Bucket_Allow 0%nat = (false, 0%nat) /\
  fst <$> rw_sent w = Some 429 /\
  rw_body w =
    bytes_of_string ("Rate limit exceeded" +:+ String (ascii_of_nat 10) "") /\
  rw_body w <> [].
Proof.
  vm_compute. split; [reflexivity|]. split; [reflexivity|].
  split; [reflexivity | discriminate].
Qed.

(** * Further worked examples *)

(** X3, an instance: on the node of section 8 the name [other.org]
    matches no key, and the search returns the empty string. *)
Lemma unmatched_name_example :
  let it := [("example.com", "10.0.0.5")] in
  let found := findValueByKeyContains id it "other.org." in
  ranges (Domains Example.config) it /\
  found = ("", false) /\
  (snd found = true <->
   exists key value,
     Domains Example.config !! key = Some value /\
     keyMatches id "other.org." key = true).
Proof.
  intros it found.
  assert (Hit : ranges (Domains Example.config) it)
    by (unfold ranges; vm_compute; reflexivity).
  split; [exact Hit|]. split; [vm_compute; reflexivity|].
  exact (proj1 (findValueByKeyContains_finds_matching_entries
                  id (Domains Example.config) it "other.org." Hit)).
Defined.

(** X4, an instance: with the keys [example.com] and [example] in the
    table, a query for [www.example.com] gets the one address in one
    order of iteration and the other address in another. *)
Lemma either_key_may_win :
  let m : gmap string string :=
    {[ "example.com" := "10.0.0.5"; "example" := "10.0.0.6" ]} in
  let name := "www.example.com." in
  (exists it, ranges m it /\ findValueByKeyContains id it name = ("10.0.0.5", true)) /\
  (exists it, ranges m it /\ findValueByKeyContains id it name = ("10.0.0.6", true)).
Proof.
  intros m name. split.
  - apply (findValueByKeyContains_order id m name "example.com" "10.0.0.5");
      vm_compute; reflexivity.
  - apply (findValueByKeyContains_order id m name "example" "10.0.0.6");
      vm_compute; reflexivity.
Defined.

(** X5, an instance: the key [example.com] is found inside the name
    [notEXAMPLE.com.evil.org]. *)
Lemma key_inside_label_example :
  let it := [("example.com", "10.0.0.5")] in
  snd (findValueByKeyContains id it "notEXAMPLE.com.evil.org.") = true.
Proof.
  intros it.
  exact (findValueByKeyContains_matches_anywhere
           id it "example.com" "10.0.0.5" "not" "EXAMPLE.com" ".evil.org."
           (list_elem_of_here _ _) eq_refl eq_refl eq_refl).
Defined.

(** X7, an instance: the empty query, the body of a DoH request that
    has none, fails and sends nothing upstream. *)
Lemma empty_query_example :
  exists err,
    processDNSQuery id wire.Unpack wire.NewRR wire.Pack
                    (Example.answering [x12; x34]) [("example.com", "10.0.0.5")] [] []
      = (([], Some err), []).
Proof.
  destruct (processDNSQuery_rejects_short_query
              id wire.unpackSections wire.NewRR wire.Pack
              (Example.answering [x12; x34]) [("example.com", "10.0.0.5")] [] [])
    as (err & Hrun & _).
  - simpl. lia.
  - exists err. exact Hrun.
Defined.

(** X8, an instance: the answer to the query for [foo.example.com]
    announces one question and one answer. *)
Lemma answer_count_example :
  let it := [("example.com", "10.0.0.5")] in
  let query := Example.query ["foo"; "example"; "com"] in
  let run := processDNSQuery id wire.Unpack wire.NewRR wire.Pack Example.unreachable
                             it query [] in
  snd (fst run) = None /\
  take 8 (drop 4 (fst (fst run))) = [x00; x01; x00; x01; x00; x00; x00; x00].
Proof.
  intros it query run. split; [vm_compute; reflexivity|].
  destruct (wire.Unpack query) as [e|msg] eqn:Hmsg; [vm_compute in Hmsg; discriminate|].
  rewrite (processDNSQuery_override_counts_answer
             id wire.Unpack wire.packSections wire.NewRR Example.unreachable
             it query [] msg (dns.mkQuestion "foo.example.com." 1 1) [] "10.0.0.5"
             (fst (fst run)) [] Hmsg).
  - vm_compute in Hmsg. injection Hmsg as <-. reflexivity.
  - vm_compute in Hmsg. injection Hmsg as <-. reflexivity.
  - vm_compute. reflexivity.
  - vm_compute. reflexivity.
Defined.

(** X10, an instance: a client that sends one octet and ends the stream,
    and one that announces 27 octets and sends two. *)
Lemma truncated_frame_example :
  let served conn :=
    handleDoTConnection id wire.Unpack wire.NewRR wire.Pack Example.unreachable
                        Example.Bucket_Allow [("example.com", "10.0.0.5")]
                        conn 50%nat [] in
  let short := Example.connected [[x00]] in
  let cut := Example.connected [[x00; x1b]; [x12; x34]] in
  (dot_logged (served short) = [io.ErrUnexpectedEOF] /\
   outgoing (dot_conn (served short)) = [] /\ dot_net (served short) = []) /\
  (dot_logged (served cut) = [io.ErrUnexpectedEOF] /\
   outgoing (dot_conn (served cut)) = [] /\ dot_net (served cut) = []).
Proof.
  intros served short cut. split.
  - destruct (handleDoTConnection_truncated_frame
                id wire.Unpack wire.NewRR wire.Pack Example.unreachable
                Example.Bucket Example.Bucket_Allow [("example.com", "10.0.0.5")]
                short 50%nat 49%nat [] eq_refl eq_refl) as [Hshort _].
    destruct Hshort as (Hlog & Hout & Hnet & _); [simpl; lia|].
    split; [exact Hlog|]. split; [exact Hout | exact Hnet].
  - destruct (handleDoTConnection_truncated_frame
                id wire.Unpack wire.NewRR wire.Pack Example.unreachable
                Example.Bucket Example.Bucket_Allow [("example.com", "10.0.0.5")]
                cut 50%nat 49%nat [] eq_refl eq_refl) as [_ Hcut].
    destruct (Hcut x00 x1b [x12; x34] eq_refl) as (Hlog & Hout & Hnet & _);
      [vm_compute; lia|].
    split; [exact Hlog|]. split; [exact Hout | exact Hnet].
Defined.

(** X11, an instance: a DoT query for [other.org] while the upstream
    cannot be reached; the client is sent nothing. *)
Lemma unreachable_upstream_example :
  let query := Example.query ["other"; "org"] in
  let conn := Example.connected [Example.frame query] in
  let s := handleDoTConnection id wire.Unpack wire.NewRR wire.Pack Example.unreachable
             Example.Bucket_Allow [("example.com", "10.0.0.5")] conn 50%nat [] in
  outgoing (dot_conn s) = [] /\
  dot_logged s =
    [errorString "dial tcp 1.1.1.1:443: connect: network is unreachable"] /\
  dot_net s = [upstreamCall query] /\ closed (dot_conn s) = true.
Proof.
  intros query conn s.
  apply (handleDoTConnection_silent_on_failure
           id wire.Unpack wire.NewRR wire.Pack Example.unreachable
           Example.Bucket Example.Bucket_Allow [("example.com", "10.0.0.5")]
           conn 50%nat 49%nat [] [upstreamCall query] query [] []).
  - reflexivity.
  - reflexivity.
  - vm_compute. discriminate.
  - vm_compute. reflexivity.
  - vm_compute. reflexivity.
Defined.

(** X12, an instance: two queries in one segment; the first is
    answered from the table, the second is left unread. *)
Lemma pipelined_queries_example :
  let first := Example.query ["foo"; "example"; "com"] in
  let second := Example.query ["other"; "org"] in
  let conn := Example.connected [Example.frame first ++ Example.frame second] in
  let s := handleDoTConnection id wire.Unpack wire.NewRR wire.Pack
             (Example.answering [x12; x34]) Example.Bucket_Allow
             [("example.com", "10.0.0.5")] conn 50%nat [] in
  unread (dot_conn s) = Example.frame second /\ closed (dot_conn s) = true /\
  dot_net s = [].
Proof.
  intros first second conn s.
  destruct (handleDoTConnection_serves_one_query
              id wire.Unpack wire.NewRR wire.Pack (Example.answering [x12; x34])
              Example.Bucket Example.Bucket_Allow [("example.com", "10.0.0.5")]
              conn 50%nat 49%nat [] first (Example.frame second))
    as (Hrest & Hcl & Hnet).
  - reflexivity.
  - reflexivity.
  - vm_compute. discriminate.
  - vm_compute. reflexivity.
  - split; [exact Hrest|]. split; [exact Hcl|]. fold s in Hnet. rewrite Hnet.
    vm_compute. reflexivity.
Defined.

(** X13, an instance: the upstream answers with 65536 octets, and the
    two octets in front of them say zero. *)
Lemma wrapped_prefix_example :
  let query := Example.query ["other"; "org"] in
  let conn := Example.connected [Example.frame query] in
  let s := handleDoTConnection id wire.Unpack wire.NewRR wire.Pack
             (Example.answering Example.oversized) Example.Bucket_Allow
             [("example.com", "10.0.0.5")] conn 50%nat [] in
  len Example.oversized = 65536 /\
  exists p0 p1,
    outgoing (dot_conn s) = [p0; p1] ++ Example.oversized /\
    binary.BigEndian_Uint16 p0 p1 = 0.
Proof.
  intros query conn s.
  assert (Hlen : len Example.oversized = 65536).
  { unfold len, Example.oversized. rewrite repeat_length. lia. }
  split; [exact Hlen|].
  assert (Hquery : processDNSQuery id wire.Unpack wire.NewRR wire.Pack
                     (Example.answering Example.oversized)
                     [("example.com", "10.0.0.5")] query []
                   = ((Example.oversized, None), [upstreamCall query])).
  { destruct (wire.Unpack query) as [e|msg] eqn:Hmsg; [vm_compute in Hmsg; discriminate|].
    apply (processDNSQuery_unmatched id wire.Unpack wire.NewRR wire.Pack
             (Example.answering Example.oversized) [("example.com", "10.0.0.5")]
             query [] msg (dns.mkQuestion "other.org." 1 1) [] "" Hmsg).
    - vm_compute in Hmsg. injection Hmsg as <-. reflexivity.
    - vm_compute. reflexivity. }
  destruct (handleDoTConnection_prefix_wraps
              id wire.Unpack wire.NewRR wire.Pack (Example.answering Example.oversized)
              Example.Bucket Example.Bucket_Allow [("example.com", "10.0.0.5")]
              conn 50%nat 49%nat [] [upstreamCall query] query [] Example.oversized)
    as (p0 & p1 & Hout & Hpre & _).
  - reflexivity.
  - vm_compute. discriminate.
  - vm_compute. reflexivity.
  - exact Hquery.
  - unfold accepts. auto.
  - exists p0, p1. split; [exact Hout|]. rewrite Hpre, Hlen. reflexivity.
Defined.

(** X15, an instance: a connection for [other.org] is relayed and then
    closed on both sides. *)
Lemma closed_after_relay_example :
  exists w,
    handleConnection id Example.config (tls.serverHandshake 64) Example.now
                     Example.reachable
                     (Example.connected [tls.clientHello "other.org"]) = Returns w /\
    closed (client w) = true /\
    (forall b, backend w = Some b -> closed b = true) /\
    (length (dialed w) <= 1)%nat.
Proof.
  destruct (handleConnection id Example.config (tls.serverHandshake 64) Example.now
              Example.reachable (Example.connected [tls.clientHello "other.org"]))
    as [w| |msg] eqn:Hrun; [|vm_compute in Hrun; discriminate..].
  exists w. split; [reflexivity|].
  exact (handleConnection_always_closes _ _ _ _ _ _ _ Hrun).
Defined.

(** X16, an instance: the same connection; it returns having dialled
    the address of its hello, with nothing logged. *)
Lemma returned_after_dial_example :
  exists w hello,
    handleConnection id Example.config (tls.serverHandshake 64) Example.now
                     Example.reachable
                     (Example.connected [tls.clientHello "other.org"]) = Returns w /\
    dialed w = [("tcp", targetHost id Example.config hello)] /\
    logged w = [].
Proof.
  destruct (handleConnection id Example.config (tls.serverHandshake 64) Example.now
              Example.reachable (Example.connected [tls.clientHello "other.org"]))
    as [w| |msg] eqn:Hrun; [|vm_compute in Hrun; discriminate..].
  destruct (handleConnection_returns_only_after_dialling
              id Example.config (tls.serverHandshake 64) Example.now Example.reachable
              (Example.connected [tls.clientHello "other.org"]) w eq_refl Hrun)
    as (hello & peeked & conn1 & _ & Hdial & Hlog).
  exists w, hello. split; [reflexivity|]. split; [exact Hdial|].
  unfold Example.reachable in Hlog. apply Hlog.
Defined.

(** X17, an instance: the backend answers, and the client receives the
    answer. *)
Lemma backend_reply_example :
  let reply := bytes_of_string "HTTP/1.1 200 OK" in
  let dial : string -> string -> error + Conn :=
    fun _ _ => inr (Example.connected [take 4 reply; drop 4 reply]) in
  let clientConn := Example.connected [tls.clientHello "other.org"] in
  accepts clientConn /\
  exists w,
    handleConnection id Example.config (tls.serverHandshake 64) Example.now
                     dial clientConn = Returns w /\
    outgoing (client w) = reply.
Proof.
  intros reply dial clientConn.
  assert (Ha : accepts clientConn) by (unfold accepts; auto).
  split; [exact Ha|].
  destruct (handleConnection_relays_backend_stream
              id Example.config (tls.serverHandshake 64) Example.now dial clientConn
              (mkConn [] None [] None (instant 5000000000) zeroTime false false)
              (Example.connected [take 4 reply; drop 4 reply])
              (mkClientHelloInfo "other.org") (tls.clientHello "other.org"))
    as (w & Hrun & Hout).
  - exact Ha.
  - vm_compute. reflexivity.
  - reflexivity.
  - reflexivity.
  - exists w. split; [exact Hrun|]. rewrite Hout. vm_compute. reflexivity.
Defined.

(** X18, an instance: the name of the ClientHello cannot be dialled. *)
Lemma dial_failure_example :
  let failure := errorString "dial tcp: lookup other.org: no such host" in
  let dial : string -> string -> error + Conn := fun _ _ => inl failure in
  let clientConn := Example.connected [tls.clientHello "other.org"] in
  closed clientConn = false /\
  exists w,
    handleConnection id Example.config (tls.serverHandshake 64) Example.now
                     dial clientConn = Returns w /\
    backend w = None /\ logged w = [failure] /\ outgoing (client w) = [] /\
    closed (client w) = true.
Proof.
  intros failure dial clientConn. split; [reflexivity|].
  destruct (handleConnection_dial_failure
              id Example.config (tls.serverHandshake 64) Example.now dial clientConn
              (mkConn [] None [] None (instant 5000000000) zeroTime false false)
              (mkClientHelloInfo "other.org") (tls.clientHello "other.org") failure)
    as (w & Hrun & Hb & Hlog & Hout & _ & Hcl).
  - reflexivity.
  - vm_compute. reflexivity.
  - reflexivity.
  - exists w. auto.
Defined.

(** X19, an instance: the deadline of the sniff, five seconds after
    the connection was taken up, is gone when the relay is over. *)
Lemma deadline_example :
  let clientConn := Example.connected [tls.clientHello "other.org"] in
  closed clientConn = false /\
  exists w,
    handleConnection id Example.config (tls.serverHandshake 64) Example.now
                     Example.reachable clientConn = Returns w /\
    readDeadline (client w) = zeroTime.
Proof.
  intros clientConn. split; [reflexivity|].
  destruct (handleConnection_clears_read_deadline
              id Example.config (tls.serverHandshake 64) Example.now Example.reachable
              clientConn
              (mkConn [] None [] None (instant 5000000000) zeroTime false false)
              (mkClientHelloInfo "other.org") (tls.clientHello "other.org"))
    as (_ & _ & Hw).
  - reflexivity.
  - vm_compute. reflexivity.
  - exact Hw.
Defined.

(** X20, an instance: a node configured as [Node.example.org] sends the
    connections for its own name to port 443. *)
Lemma upper_case_host_example :
  let config := {| Host := "Node.example.org"; Domains := ∅ |} in
  targetHost id config (mkClientHelloInfo "Node.Example.org") = "node.example.org:443".
Proof.
  intros config.
  exact (targetHost_upper_case_host
           id config (mkClientHelloInfo "Node.Example.org") "" "ode.example.org" "N"
           eq_refl eq_refl eq_refl).
Defined.

(** X22, an instance: the upstream answers 502 with a page of text, and
    the DoH client receives that page as a DNS message, with status 200. *)
Lemma bad_gateway_example :
  let page := bytes_of_string "502 Bad Gateway" in
  let upstream : PostCall -> PostReply := fun _ => PostResponded 502 page None in
  let r := mkRequest (Example.query ["other"; "org"]) None in
  let '(w, _, _) :=
    handleDoHRequest id wire.Unpack wire.NewRR wire.Pack upstream
                     Example.Bucket_Allow 50%nat [("example.com", "10.0.0.5")]
                     newResponseWriter r [] in
  responded w 200 "application/dns-message" page.
Proof.
  intros page upstream r.
  destruct (wire.Unpack (Body r)) as [e|msg] eqn:Hmsg; [vm_compute in Hmsg; discriminate|].
  pose proof (handleDoHRequest_ignores_upstream_status
                id wire.Unpack wire.NewRR wire.Pack upstream
                Example.Bucket Example.Bucket_Allow 50%nat [("example.com", "10.0.0.5")]
                r [] msg (dns.mkQuestion "other.org." 1 1) [] 502 page) as Hrun.
  destruct (handleDoHRequest _ _ _ _ _ _ _ _ _ _ _) as [[w limiter'] net'].
  apply Hrun.
  - reflexivity.
  - reflexivity.
  - exact Hmsg.
  - vm_compute in Hmsg. injection Hmsg as <-. reflexivity.
  - vm_compute. reflexivity.
  - reflexivity.
Defined.

(** X23, an instance: a DoH request without a body. *)
Lemma empty_body_example :
  let '(w, _, net') :=
    handleDoHRequest id wire.Unpack wire.NewRR wire.Pack (Example.answering [x12; x34])
                     Example.Bucket_Allow 50%nat [("example.com", "10.0.0.5")]
                     newResponseWriter (mkRequest [] None) [] in
  fst <$> rw_sent w = Some 500 /\ net' = [].
Proof.
  pose proof (handleDoHRequest_short_body
                id wire.unpackSections wire.NewRR wire.Pack (Example.answering [x12; x34])
                Example.Bucket Example.Bucket_Allow 50%nat [("example.com", "10.0.0.5")]
                (mkRequest [] None) [] eq_refl eq_refl) as Hrun.
  change (dns.Unpack wire.unpackSections) with wire.Unpack in Hrun.
  destruct (handleDoHRequest _ _ _ _ _ _ _ _ _ _ _) as [[w limiter'] net'].
  destruct Hrun as [(headers & Hsent & _) Hnet]; [simpl; lia|].
  rewrite Hsent. auto.
Defined.
